(* ===================================================================== *)
(*  zeno-ai: the streaming ingestion and conversation state engine       *)
(*                                                                       *)
(*  A shallow embedding of                                               *)
(*    - frontend/src/types/chat.ts            (Message, StreamChunk)     *)
(*    - frontend/src/lib/api/stream.ts        (streamChat)               *)
(*    - frontend/src/lib/api/image.ts         (generateImage)            *)
(*    - frontend/src/stores/chatStore.ts      (the zustand store)        *)
(*    - frontend/src/hooks/useStreamingResponse (sendMessage,            *)
(*                                               stopGeneration)         *)
(*    - frontend/src/lib/api/conversations    (conversationsApi)         *)
(*    - frontend/src/stores/uiStore.ts        (the interface store)      *)
(*    - frontend/src/components/chat          (ChatInput, ChatContainer) *)
(*    - frontend/src/app/page                 (ChatPage)                 *)
(*  and the properties of the specification that are stated about them.  *)
(* ===================================================================== *)

From Stdlib Require Import ZArith List String Ascii Bool Lia DecimalString.
From Stdlib Require DecimalPos.
Import ListNotations.
Local Open Scope Z_scope.

(* ===================================================================== *)
(** * JavaScript strings                                                  *)
(* ===================================================================== *)

(** A JavaScript string is a finite sequence of UTF-16 code units.  String
    concatenation is list append. *)
Definition jsstring := list Z.

Module JS.

(** An ASCII literal of the source, as code units. *)
Definition lit (s : string) : jsstring :=
  map (fun a => Z.of_N (N_of_ascii a)) (list_ascii_of_string s).

(** [s.startsWith(p)] *)
Fixpoint startsWith (s p : jsstring) : bool :=
  match p, s with
  | [], _ => true
  | a :: p', b :: s' => (a =? b) && startsWith s' p'
  | _ :: _, [] => false
  end.

(** [s.slice(n)] for a non-negative [n]: the string without its first [n]
    code units, empty when it is shorter. *)
Definition slice (n : nat) (s : jsstring) : jsstring := skipn n s.

(** Truthiness of a string: [if (s)] holds exactly for non-empty [s]. *)
Definition truthy (s : jsstring) : bool :=
  match s with [] => false | _ :: _ => true end.

(** Truthiness of an optional string ([undefined] is falsy). *)
Definition truthy_opt (o : option jsstring) : bool :=
  match o with None => false | Some s => truthy s end.

Definition LF : Z := 10.

(** [s.split('\n\n')]: the pieces between the successive leftmost
    occurrences of the two-unit separator.  The result is never empty; its
    last element is the text after the last separator. *)
Fixpoint split_nn (s : jsstring) : list jsstring :=
  match s with
  | [] => [[]]
  | c :: s' =>
      let keep :=
        match split_nn s' with
        | f :: fs => (c :: f) :: fs
        | [] => [[c]]
        end in
      match s' with
      | c' :: s'' => if (c =? LF) && (c' =? LF) then [] :: split_nn s'' else keep
      | [] => keep
      end
  end.

(** White space and line terminators of ECMAScript: the units removed by
    [trim] and matched by the regular-expression class [\s]. *)
Definition is_space (c : Z) : bool :=
  (9 <=? c) && (c <=? 13) || (c =? 32) || (c =? 160) || (c =? 5760)
  || (8192 <=? c) && (c <=? 8202) || (c =? 8232) || (c =? 8233)
  || (c =? 8239) || (c =? 8287) || (c =? 12288) || (c =? 65279).

Fixpoint trimStart (s : jsstring) : jsstring :=
  match s with
  | c :: s' => if is_space c then trimStart s' else s
  | [] => []
  end.

Definition trimEnd (s : jsstring) : jsstring := rev (trimStart (rev s)).

(** [s.trim()] *)
Definition trim (s : jsstring) : jsstring := trimEnd (trimStart s).

(** Lower case of one code unit, on the ASCII letters. *)
Definition lower (c : Z) : Z :=
  if (65 <=? c) && (c <=? 90) then c + 32 else c.

(** [s.toLowerCase()].  Units outside ASCII are left as they are: the
    source only tests the result against the ASCII prefix ['/imagine'], and
    no character outside ASCII has a lower case that continues that
    prefix. *)
Definition toLowerCase (s : jsstring) : jsstring := map lower s.

(** Does [s] start with the ASCII text [p], letter case ignored?  This is
    how a regular expression [/^p/i] matches at the start of [s]. *)
Definition startsWith_i (s p : jsstring) : bool :=
  startsWith (map lower (firstn (List.length p) s)) (map lower p).

(** Decimal text of an integer, [n.toString()].  A number holds the
    integers up to 2^53 - 1 in absolute value exactly and [toString] writes
    them in decimal digits; from 10^21 on it writes an exponent.  What is
    stated about the text of an id is therefore stated for the ids that
    satisfy [isSafeInteger] below. *)
Definition toString (n : Z) : jsstring :=
  lit (NilEmpty.string_of_int (Z.to_int n)).

End JS.

Arguments JS.lit s%_string.

(* ===================================================================== *)
(** * types/chat.ts                                                       *)
(* ===================================================================== *)

Inductive MessageRole := user | assistant | system.

Record Message := mkMessage {
  id : option jsstring;
  role : MessageRole;
  content : jsstring;
  image : option jsstring;       (* base64 encoded image *)
  createdAt : option Z
}.

Record StreamChunk := mkStreamChunk {
  chunk_content : jsstring;
  done : bool;
  error : option jsstring
}.

(* ===================================================================== *)
(** * lib/api/stream.ts: the transport decoder                            *)
(* ===================================================================== *)

(** What a rejected promise or a [throw] carries.  The source only ever
    looks at [error.name === 'AbortError']. *)
Inductive Exn :=
| AbortError
| Error (message : jsstring).

Inductive Outcome (A : Type) :=
| Resolve (a : A)
| Reject (e : Exn).
Arguments Resolve {A} a.
Arguments Reject {A} e.

(** How the sequence of [reader.read()] results ends: [{done: true}], or a
    rejected read. *)
Inductive ReadEnd :=
| ReadDone
| ReadReject (e : Exn).

(** The response body as the reader delivers it: the byte chunks in order,
    then the end. *)
Record Body := mkBody {
  chunks : list (list Z);
  ending : ReadEnd
}.

(** The part of a fetch [Response] the source looks at. *)
Record Response := mkResponse {
  ok : bool;
  status_line : jsstring;        (* `${status} ${statusText}` *)
  body : option Body
}.

(** [new TextDecoder()] used with [{stream: true}]: a machine that consumes
    the bytes one at a time, keeps the bytes of an unfinished character in its
    state and emits the code units of every finished one. *)
Record TextDecoder := mkTextDecoder {
  dstate : Type;
  dinit : dstate;
  dstep : dstate -> Z -> dstate * jsstring
}.

(** What one run of the generator does, in order. *)
Inductive GenObs :=
| GRead (value : list Z)          (* reader.read() delivered a chunk *)
| GReadEnd (e : ReadEnd)          (* reader.read() reported the end *)
| GYield (data : StreamChunk)     (* yield data *)
| GConsoleError (line : jsstring) (* console.error('Failed to parse SSE data:', e) *)
| GReleaseLock.                   (* reader.releaseLock() *)

(** How the generator finishes. *)
Inductive Completion :=
| Return
| Throw (e : Exn).

Definition data_prefix : jsstring := JS.lit "data: ".

Section StreamChat.

Variable decoder : TextDecoder.

(** [JSON.parse(jsonStr)] at the type the source gives it,
    [const data: StreamChunk]; [None] is a thrown [SyntaxError].  This
    covers the payloads that are the text of a JSON object, where [done] is
    the truthiness of [data.done], and the payloads that are no JSON at all.
    The payload [null] is outside it: there the source yields [null] and
    then logs the [TypeError] of [data.done]. *)
Variable JSON_parse : jsstring -> option StreamChunk.

(** [decoder.decode(value, { stream: true })] *)
Fixpoint decode (st : dstate decoder) (value : list Z)
  : dstate decoder * jsstring :=
  match value with
  | [] => (st, [])
  | b :: value' =>
      let (st1, out1) := dstep decoder st b in
      let (st2, out2) := decode st1 value' in
      (st2, out1 ++ out2)
  end.

(** [for (const line of lines) { ... }]: the observations of the loop, and
    whether it left through [return]. *)
Fixpoint for_lines (lines : list jsstring) : list GenObs * bool :=
  match lines with
  | [] => ([], false)
  | line :: rest =>
      if JS.startsWith line data_prefix then
        match JSON_parse (JS.slice 6 line) with
        | Some data =>
            if done data then ([GYield data], true)
            else let (t, r) := for_lines rest in (GYield data :: t, r)
        | None =>
            let (t, r) := for_lines rest in (GConsoleError line :: t, r)
        end
      else for_lines rest
  end.

(** [while (true) { ... }] *)
Fixpoint read_loop (st : dstate decoder) (buffer : jsstring)
    (cs : list (list Z)) (e : ReadEnd) : list GenObs * Completion :=
  match cs with
  | [] =>
      ([GReadEnd e],
       match e with ReadDone => Return | ReadReject x => Throw x end)
  | value :: cs' =>
      let (st', text) := decode st value in
      let buffer1 := buffer ++ text in
      let lines := JS.split_nn buffer1 in
      let buffer2 := last lines [] in            (* lines.pop() || '' *)
      let (t, returned) := for_lines (removelast lines) in
      if returned then (GRead value :: t, Return)
      else
        let (t', c) := read_loop st' buffer2 cs' e in
        (GRead value :: t ++ t', c)
  end.

(** The body of [streamChat] from [response.body.getReader()] on:
    [try { while ... } finally { reader.releaseLock() }]. *)
Definition streamChat_body (b : Body) : list GenObs * Completion :=
  let (t, c) := read_loop (dinit decoder) [] (chunks b) (ending b) in
  (t ++ [GReleaseLock], c).

(** [streamChat] from the settled [fetch] on. *)
Definition streamChat_response (r : Outcome Response)
  : list GenObs * Completion :=
  match r with
  | Reject e => ([], Throw e)
  | Resolve resp =>
      if negb (ok resp) then
        ([], Throw (Error (JS.lit "Stream failed: " ++ status_line resp)))
      else
        match body resp with
        | None => ([], Throw (Error (JS.lit "Response body is null")))
        | Some b => streamChat_body b
        end
  end.

(** The text the decoder has produced once all of [cs] has arrived. *)
Definition text_of (st : dstate decoder) (cs : list (list Z)) : jsstring :=
  snd (decode st (List.concat cs)).

End StreamChat.

(** The events a run yields, in order. *)
Fixpoint yields (t : list GenObs) : list StreamChunk :=
  match t with
  | [] => []
  | GYield d :: t' => d :: yields t'
  | _ :: t' => yields t'
  end.

(** The chunks a run has read, in order. *)
Fixpoint reads (t : list GenObs) : list (list Z) :=
  match t with
  | [] => []
  | GRead v :: t' => v :: reads t'
  | _ :: t' => reads t'
  end.

(** The fragments a run has logged and dropped, in order. *)
Fixpoint logged (t : list GenObs) : list jsstring :=
  match t with
  | [] => []
  | GConsoleError l :: t' => l :: logged t'
  | _ :: t' => logged t'
  end.

(** The complete fragments of a text: all pieces of the split but the last,
    which is deferred. *)
Definition complete_fragments (s : jsstring) : list jsstring :=
  removelast (JS.split_nn s).

(** The payload a fragment carries, if it is an event that parses. *)
Definition parse_fragment (JSON_parse : jsstring -> option StreamChunk)
    (line : jsstring) : option StreamChunk :=
  if JS.startsWith line data_prefix then JSON_parse (JS.slice 6 line) else None.

(** A fragment is malformed when it carries the event prefix and its payload
    does not parse. *)
Definition malformed (JSON_parse : jsstring -> option StreamChunk)
    (line : jsstring) : bool :=
  JS.startsWith line data_prefix &&
  match JSON_parse (JS.slice 6 line) with Some _ => false | None => true end.

(** The payloads of the fragments that parse, in order. *)
Fixpoint parsed (JSON_parse : jsstring -> option StreamChunk)
    (lines : list jsstring) : list StreamChunk :=
  match lines with
  | [] => []
  | l :: ls =>
      match parse_fragment JSON_parse l with
      | Some d => d :: parsed JSON_parse ls
      | None => parsed JSON_parse ls
      end
  end.

(** The events up to and including the first terminal one. *)
Fixpoint upto_done (evs : list StreamChunk) : list StreamChunk :=
  match evs with
  | [] => []
  | d :: evs' => if done d then [d] else d :: upto_done evs'
  end.

(** Is there a terminal event? *)
Definition has_done (evs : list StreamChunk) : bool := existsb done evs.

(** The malformed fragments that come before the first terminal event. *)
Fixpoint dropped (JSON_parse : jsstring -> option StreamChunk)
    (lines : list jsstring) : list jsstring :=
  match lines with
  | [] => []
  | l :: ls =>
      match parse_fragment JSON_parse l with
      | Some d => if done d then [] else dropped JSON_parse ls
      | None =>
          if malformed JSON_parse l then l :: dropped JSON_parse ls
          else dropped JSON_parse ls
      end
  end.

(** A run that has not yielded a terminal event. *)
Definition quiet (t : list GenObs) : bool :=
  forallb (fun o => match o with GYield d => negb (done d) | _ => true end) t.

(* ===================================================================== *)
(** * The platform's UTF-8 decoder and a parser for the wire format       *)
(* ===================================================================== *)

(** The UTF-8 decoder of the Encoding standard, as [TextDecoder] runs it with
    [fatal] and [ignoreBOM] unset: a malformed sequence becomes U+FFFD and the
    offending byte is looked at again, a leading byte-order mark is dropped,
    and a code point above the basic plane becomes a surrogate pair. *)
Module Utf8.

Record state := mkState {
  code_point : Z;
  bytes_seen : Z;
  bytes_needed : Z;
  lower_boundary : Z;
  upper_boundary : Z;
  bom_seen : bool
}.

Definition reset (bom : bool) : state := mkState 0 0 0 128 191 bom.

Definition units (cp : Z) : jsstring :=
  if cp <? 65536 then [cp]
  else [55296 + Z.shiftr (cp - 65536) 10; 56320 + Z.land (cp - 65536) 1023].

Definition emit (bom : bool) (cp : Z) : state * jsstring :=
  (reset true, if negb bom && (cp =? 65279) then [] else units cp).

Definition lead (bom : bool) (b : Z) : state * jsstring :=
  if b <=? 127 then emit bom b
  else if (194 <=? b) && (b <=? 223) then
    (mkState (Z.land b 31) 0 1 128 191 bom, [])
  else if (224 <=? b) && (b <=? 239) then
    (mkState (Z.land b 15) 0 2
       (if b =? 224 then 160 else 128) (if b =? 237 then 159 else 191) bom, [])
  else if (240 <=? b) && (b <=? 244) then
    (mkState (Z.land b 7) 0 3
       (if b =? 240 then 144 else 128) (if b =? 244 then 143 else 191) bom, [])
  else emit bom 65533.

Definition step (st : state) (b : Z) : state * jsstring :=
  if bytes_needed st =? 0 then lead (bom_seen st) b
  else if (lower_boundary st <=? b) && (b <=? upper_boundary st) then
    let cp := Z.lor (Z.shiftl (code_point st) 6) (Z.land b 63) in
    if bytes_seen st + 1 =? bytes_needed st then emit (bom_seen st) cp
    else (mkState cp (bytes_seen st + 1) (bytes_needed st) 128 191 (bom_seen st), [])
  else
    let (st1, out1) := emit (bom_seen st) 65533 in
    let (st2, out2) := lead (bom_seen st1) b in
    (st2, out1 ++ out2).

Definition decoder : TextDecoder := mkTextDecoder state (reset false) step.

End Utf8.

(** The wire format of the streaming endpoint: each event is the text
    [data: ] followed by a JSON object [{content, done, error?}] and a blank
    line.  [parse] reads such an object the way [JSON.parse] does (white
    space, string escapes, members in any order, the last of two equal keys
    wins) and rejects every other text, also texts that [JSON.parse]
    accepts (an object without a boolean [done], [null]): it stands for
    [JSON.parse] on the events of the endpoint only, and is used for
    concrete runs. *)
Module Wire.

Inductive jval :=
| JString (s : jsstring)
| JBool (b : bool)
| JNull.

Definition quote : Z := 34.
Definition backslash : Z := 92.

Definition is_ws (c : Z) : bool :=
  (c =? 32) || (c =? 9) || (c =? 10) || (c =? 13).

Fixpoint skip_ws (s : jsstring) : jsstring :=
  match s with
  | c :: s' => if is_ws c then skip_ws s' else s
  | [] => []
  end.

Definition hex (c : Z) : option Z :=
  if (48 <=? c) && (c <=? 57) then Some (c - 48)
  else if (97 <=? c) && (c <=? 102) then Some (c - 87)
  else if (65 <=? c) && (c <=? 70) then Some (c - 55)
  else None.

Definition hex4 (a b c d : Z) : option Z :=
  match hex a, hex b, hex c, hex d with
  | Some x, Some y, Some z, Some w => Some (((x * 16 + y) * 16 + z) * 16 + w)
  | _, _, _, _ => None
  end.

Definition unescape (c : Z) : option Z :=
  if (c =? 34) || (c =? 92) || (c =? 47) then Some c
  else if c =? 98 then Some 8
  else if c =? 102 then Some 12
  else if c =? 110 then Some 10
  else if c =? 114 then Some 13
  else if c =? 116 then Some 9
  else None.

Definition push (u : Z) (r : option (jsstring * jsstring))
  : option (jsstring * jsstring) :=
  match r with
  | Some (s, rest) => Some (u :: s, rest)
  | None => None
  end.

(** The characters of a string literal after its opening quote, and the
    text after its closing quote. *)
Fixpoint string_body (s : jsstring) : option (jsstring * jsstring) :=
  match s with
  | [] => None
  | c :: s1 =>
      if c =? quote then Some ([], s1)
      else if c =? backslash then
        match s1 with
        | [] => None
        | e :: s2 =>
            if e =? 117 then
              match s2 with
              | h1 :: h2 :: h3 :: h4 :: s3 =>
                  match hex4 h1 h2 h3 h4 with
                  | Some u => push u (string_body s3)
                  | None => None
                  end
              | _ => None
              end
            else
              match unescape e with
              | Some u => push u (string_body s2)
              | None => None
              end
        end
      else if c <? 32 then None
      else push c (string_body s1)
  end.

Definition value (s : jsstring) : option (jval * jsstring) :=
  match s with
  | c :: s' =>
      if c =? quote then
        match string_body s' with
        | Some (v, rest) => Some (JString v, rest)
        | None => None
        end
      else if JS.startsWith s (JS.lit "true") then Some (JBool true, skipn 4 s)
      else if JS.startsWith s (JS.lit "false") then Some (JBool false, skipn 5 s)
      else if JS.startsWith s (JS.lit "null") then Some (JNull, skipn 4 s)
      else None
  | [] => None
  end.

(** The members of an object from its first key on, up to the closing
    brace, and the text after it. *)
Fixpoint members (fuel : nat) (s : jsstring)
  : option (list (jsstring * jval) * jsstring) :=
  match fuel with
  | O => None
  | S fuel' =>
      match skip_ws s with
      | c :: s1 =>
          if c =? quote then
            match string_body s1 with
            | Some (key, s2) =>
                match skip_ws s2 with
                | colon :: s3 =>
                    if colon =? 58 then
                      match value (skip_ws s3) with
                      | Some (v, s4) =>
                          match skip_ws s4 with
                          | d :: s5 =>
                              if d =? 125 then Some ([(key, v)], s5)
                              else if d =? 44 then
                                match members fuel' s5 with
                                | Some (ms, rest) => Some ((key, v) :: ms, rest)
                                | None => None
                                end
                              else None
                          | [] => None
                          end
                      | None => None
                      end
                    else None
                | [] => None
                end
            | None => None
            end
          else None
      | [] => None
      end
  end.

Definition object (s : jsstring) : option (list (jsstring * jval)) :=
  match skip_ws s with
  | c :: s1 =>
      if c =? 123 then
        match skip_ws s1 with
        | d :: s2 =>
            if d =? 125 then
              match skip_ws s2 with [] => Some [] | _ :: _ => None end
            else
              match members (List.length s1) s1 with
              | Some (ms, rest) =>
                  match skip_ws rest with [] => Some ms | _ :: _ => None end
              | None => None
              end
        | [] => None
        end
      else None
  | [] => None
  end.

Fixpoint jseqb (a b : jsstring) : bool :=
  match a, b with
  | [], [] => true
  | x :: a', y :: b' => (x =? y) && jseqb a' b'
  | _, _ => false
  end.

(** The value of a key; of two members with the same key the later one. *)
Fixpoint field (k : jsstring) (ms : list (jsstring * jval)) : option jval :=
  match ms with
  | [] => None
  | (k', v) :: ms' =>
      match field k ms' with
      | Some later => Some later
      | None => if jseqb k k' then Some v else None
      end
  end.

Definition parse (s : jsstring) : option StreamChunk :=
  match object s with
  | Some ms =>
      match field (JS.lit "content") ms, field (JS.lit "done") ms with
      | Some (JString c), Some (JBool d) =>
          match field (JS.lit "error") ms with
          | Some (JString e) => Some (mkStreamChunk c d (Some e))
          | Some JNull | None => Some (mkStreamChunk c d None)
          | Some (JBool _) => None
          end
      | _, _ => None
      end
  | None => None
  end.

Fixpoint escape (s : jsstring) : jsstring :=
  match s with
  | [] => []
  | c :: s' =>
      (if (c =? quote) || (c =? backslash) then [backslash; c]
       else if c =? 10 then [backslash; 110]
       else [c]) ++ escape s'
  end.

Definition text (s : jsstring) : jsstring := [quote] ++ escape s ++ [quote].

(** The JSON text of an event. *)
Definition stringify (d : StreamChunk) : jsstring :=
  JS.lit "{" ++ text (JS.lit "content") ++ JS.lit ": " ++ text (chunk_content d)
  ++ JS.lit ", " ++ text (JS.lit "done") ++ JS.lit ": "
  ++ (if done d then JS.lit "true" else JS.lit "false")
  ++ match error d with
     | Some e => JS.lit ", " ++ text (JS.lit "error") ++ JS.lit ": " ++ text e
     | None => []
     end
  ++ JS.lit "}".

(** One event block on the wire. *)
Definition block (d : StreamChunk) : jsstring :=
  data_prefix ++ stringify d ++ [JS.LF; JS.LF].

End Wire.

(* ===================================================================== *)
(** * The collaborators                                                   *)
(* ===================================================================== *)

(** The module lib/api/conversations is the storage client; its text is in
    the sources behind the text of stores/uiStore.ts, and its functions are
    embedded further down ([conversationsApi_list] and the others).  The
    store is modelled over the answers of these functions (the fields of
    [Env] below); [over_http] connects the two.  The network itself is not
    part of the sources: its answers are parameters of the model. *)

(** lib/api/conversations, [interface Conversation]:
    [{id: number; title: string; created_at: string; updated_at: string}]. *)
Record Conversation := mkConversation {
  conv_id : Z;
  title : jsstring;
  conv_createdAt : jsstring;
  conv_updatedAt : jsstring
}.

(** lib/api/conversations, the message [conversationsApi.addMessage] takes:
    [{role: string; content: string; image?: string}]. *)
Record StoredMessage := mkStoredMessage {
  stored_role : MessageRole;
  stored_content : jsstring;
  stored_image : option jsstring
}.

(** lib/api/conversations, an element of [ConversationWithMessages.messages]:
    [{id: number; role; content: string; image?: string; created_at: string}]. *)
Record ConversationMessage := mkConversationMessage {
  message_id : Z;
  message_role : MessageRole;
  message_content : jsstring;
  message_image : option jsstring;
  message_created_at : jsstring
}.

(** lib/api/conversations,
    [interface ConversationWithMessages extends Conversation]. *)
Record ConversationWithMessages := mkConversationWithMessages {
  summary : Conversation;
  stored_messages : list ConversationMessage
}.

(** image.ts *)
Record ImageGenerateResponse := mkImageGenerateResponse {
  response_image : jsstring;      (* base64 encoded *)
  response_prompt : jsstring
}.

(** The part of the image endpoint's HTTP response [generateImage] looks at:
    [response.ok], the [detail] of the error document if it has one, and the
    document [response.json()] resolves to. *)
Record ImageHttp := mkImageHttp {
  image_ok : bool;
  image_detail : option jsstring;
  image_json : Outcome ImageGenerateResponse
}.

(** The body of the streaming request (the Pydantic ChatRequest). *)
Record ChatRequest := mkChatRequest {
  req_messages : list (MessageRole * jsstring);
  req_model : jsstring;
  req_conversation_id : option jsstring
}.

(* ===================================================================== *)
(** * stores/chatStore.ts: the state                                      *)
(* ===================================================================== *)

Record ChatState := mkChatState {
  messages : list Message;
  isStreaming : bool;
  currentConversationId : option Z;
  conversations : list Conversation;
  isLoadingConversations : bool
}.

(** Initial state *)
Definition initial_state : ChatState := mkChatState [] false None [] false.

(** What a run does that can be seen from outside, in order: every request
    that leaves the client, every console line, and every state the store is
    set to (zustand notifies its subscribers of each [set]). *)
Inductive Event :=
| StoreSet (state : ChatState)
| ApiList
| ApiCreate
| ApiGet (conversationId : Z)
| ApiDelete (conversationId : Z)
| ApiAddMessage (conversationId : Z) (payload : StoredMessage)
| FetchImage (authorization : option jsstring) (prompt : jsstring)
| FetchStream (authorization : option jsstring) (request : ChatRequest)
| ConsoleError (label : jsstring)
| ConsoleLog (label : jsstring).

(** When, if at all, the user triggers [stopGeneration] while a stream is
    open: while [fetch] is pending, or while the read number [k] is pending
    (the last read, if there are fewer). *)
Inductive StopPoint :=
| NoStop
| StopDuringFetch
| StopDuringRead (k : nat).

(** The answers of the environment.  An answer may depend on everything that
    was requested before. *)
Record Env := mkEnv {
  now : nat -> Z;                                   (* new Date() *)
  auth_token : option jsstring;                     (* getToken() *)
  api_list : list Event -> Outcome (list Conversation);
  api_create : list Event -> Outcome Conversation;
  api_get : list Event -> Z -> Outcome ConversationWithMessages;
  api_delete : list Event -> Z -> Outcome unit;
  api_addMessage : list Event -> Z -> StoredMessage -> Outcome unit;
  fetch_image : list Event -> jsstring -> Outcome ImageHttp;
  fetch_stream : list Event -> ChatRequest -> Outcome Response;
  user_stop : StopPoint
}.

Record AbortController := mkAbortController { aborted : bool }.

(** The store, the hook's [abortControllerRef], what happened so far and the
    number of [new Date()] evaluated so far. *)
Record World := mkWorld {
  store : ChatState;
  abortControllerRef : option AbortController;
  trace : list Event;
  clock : nat
}.

Definition with_store (f : ChatState -> ChatState) (w : World) : World :=
  mkWorld (f (store w)) (abortControllerRef w)
    (trace w ++ [StoreSet (f (store w))]) (clock w).

Definition with_ref (r : option AbortController) (w : World) : World :=
  mkWorld (store w) r (trace w) (clock w).

Definition with_event (c : Event) (w : World) : World :=
  mkWorld (store w) (abortControllerRef w) (trace w ++ [c]) (clock w).

(** ** Asynchronous code: state, requests and exceptions *)

(** A computation runs on the world and either resolves or rejects.  An
    [await] is a point of sequencing; the model runs one user turn at a time,
    and runs a promise that the source does not await ([saveMessage] in
    [sendMessage]) to its end where it is created: what is left of it after
    its first request touches the fields [conversations] and
    [isLoadingConversations] only. *)
Definition M (A : Type) : Type := World -> Outcome A * World.

Definition ret {A} (a : A) : M A := fun w => (Resolve a, w).

Definition bind {A B} (m : M A) (k : A -> M B) : M B :=
  fun w =>
    match m w with
    | (Resolve a, w') => k a w'
    | (Reject e, w') => (Reject e, w')
    end.

Definition throw {A} (e : Exn) : M A := fun w => (Reject e, w).

(** [try { m } catch (e) { h e }] *)
Definition try_catch {A} (m : M A) (h : Exn -> M A) : M A :=
  fun w =>
    match m w with
    | (Resolve a, w') => (Resolve a, w')
    | (Reject e, w') => h e w'
    end.

(** [try { m } finally { f }] *)
Definition try_finally {A} (m : M A) (f : M unit) : M A :=
  fun w =>
    match m w with
    | (r, w') =>
        match f w' with
        | (Resolve _, w'') => (r, w'')
        | (Reject e, w'') => (Reject e, w'')
        end
    end.

Declare Scope js_scope.
Delimit Scope js_scope with js.
Notation "x <- m ;; k" := (bind m (fun x => k))
  (at level 61, m at next level, right associativity) : js_scope.
Notation "m ;; k" := (bind m (fun _ => k))
  (at level 61, right associativity) : js_scope.
Local Open Scope js_scope.

(** [get()] *)
Definition get : M ChatState := fun w => (Resolve (store w), w).

(** [set(...)] *)
Definition set (f : ChatState -> ChatState) : M unit :=
  fun w => (Resolve tt, with_store f w).

(** Issue a request and take the environment's answer to it. *)
Definition ask {A} (answer : list Event -> A) (c : Event) : M A :=
  fun w => (Resolve (answer (trace w)), with_event c w).

(** [await p] *)
Definition await {A} (p : Outcome A) : M A := fun w => (p, w).

Definition console_error (label : jsstring) : M unit :=
  fun w => (Resolve tt, with_event (ConsoleError label) w).

Definition console_log (label : jsstring) : M unit :=
  fun w => (Resolve tt, with_event (ConsoleLog label) w).

(** Truthiness of [number | null]: [null] and [0] are falsy. *)
Definition truthy_id (o : option Z) : bool :=
  match o with
  | None => false
  | Some n => negb (n =? 0)
  end.

Definition set_content (c : jsstring) (m : Message) : Message :=
  mkMessage (id m) (role m) c (image m) (createdAt m).

Definition set_image (i : jsstring) (m : Message) : Message :=
  mkMessage (id m) (role m) (content m) (Some i) (createdAt m).

(** [const messages = [...state.messages];
     if (messages.length > 0) { messages[messages.length - 1] = f(last) }] *)
Definition with_last (f : Message -> Message) (ms : list Message)
  : list Message :=
  match ms with
  | [] => []
  | m0 :: _ => removelast ms ++ [f (last ms m0)]
  end.

Definition put_messages (ms : list Message) (st : ChatState) : ChatState :=
  mkChatState ms (isStreaming st) (currentConversationId st)
    (conversations st) (isLoadingConversations st).

Definition put_isStreaming (b : bool) (st : ChatState) : ChatState :=
  mkChatState (messages st) b (currentConversationId st)
    (conversations st) (isLoadingConversations st).

Definition put_conversationId (i : option Z) (st : ChatState) : ChatState :=
  mkChatState (messages st) (isStreaming st) i
    (conversations st) (isLoadingConversations st).

Definition put_conversations (cs : list Conversation) (st : ChatState)
  : ChatState :=
  mkChatState (messages st) (isStreaming st) (currentConversationId st)
    cs (isLoadingConversations st).

Definition put_isLoadingConversations (b : bool) (st : ChatState) : ChatState :=
  mkChatState (messages st) (isStreaming st) (currentConversationId st)
    (conversations st) b.

(** ** The synchronous actions *)

Definition addMessage (message : Message) : M unit :=
  set (fun state => put_messages (messages state ++ [message]) state).

Definition setMessages (ms : list Message) : M unit :=
  set (put_messages ms).

Definition appendToLastMessage (c : jsstring) : M unit :=
  set (fun state =>
         put_messages
           (with_last (fun lastMessage =>
                         set_content (content lastMessage ++ c) lastMessage)
              (messages state)) state).

Definition setLastMessageImage (i : jsstring) : M unit :=
  set (fun state => put_messages (with_last (set_image i) (messages state)) state).

Definition updateLastMessage (c : jsstring) : M unit :=
  set (fun state => put_messages (with_last (set_content c) (messages state)) state).

Definition setIsStreaming (b : bool) : M unit := set (put_isStreaming b).

Definition setConversationId (i : option Z) : M unit := set (put_conversationId i).

Definition clearMessages : M unit :=
  set (fun state => put_conversationId None (put_messages [] state)).

Definition payload_of (message : Message) : StoredMessage :=
  mkStoredMessage (role message) (content message) (image message).

(** [m => ({role: m.role, content: m.content, image: m.image})] *)
Definition message_of (m : ConversationMessage) : Message :=
  mkMessage None (message_role m) (message_content m) (message_image m) None.

Section Client.

Variable decoder : TextDecoder.
Variable JSON_parse : jsstring -> option StreamChunk.
Variable env : Env.

(** [new Date()] *)
Definition newDate : M Z :=
  fun w =>
    (Resolve (now env (clock w)),
     mkWorld (store w) (abortControllerRef w) (trace w) (S (clock w))).

(** ** The asynchronous actions of the store *)

Definition loadConversations : M unit :=
  set (put_isLoadingConversations true) ;;
  try_catch
    (p <- ask (api_list env) ApiList ;;
     cs <- await p ;;
     set (fun state =>
            put_isLoadingConversations false (put_conversations cs state)))
    (fun _ =>
       console_error (JS.lit "Failed to load conversations:") ;;
       set (put_isLoadingConversations false)).

Definition loadConversation (i : Z) : M unit :=
  try_catch
    (p <- ask (fun h => api_get env h i) (ApiGet i) ;;
     conversation <- await p ;;
     let ms := map message_of (stored_messages conversation) in
     set (fun state => put_messages ms (put_conversationId (Some i) state)))
    (fun _ => console_error (JS.lit "Failed to load conversation:")).

Definition createConversation : M Z :=
  try_catch
    (p <- ask (api_create env) ApiCreate ;;
     conversation <- await p ;;
     loadConversations ;;                                   (* Refresh list *)
     set (fun state =>
            put_messages [] (put_conversationId (Some (conv_id conversation)) state)) ;;
     ret (conv_id conversation))
    (fun e =>
       console_error (JS.lit "Failed to create conversation:") ;;
       throw e).

Definition deleteConversation (i : Z) : M unit :=
  try_catch
    (p <- ask (fun h => api_delete env h i) (ApiDelete i) ;;
     await p ;;
     state <- get ;;
     (* If we deleted the current conversation, clear it *)
     (match currentConversationId state with
      | Some c =>
          if c =? i
          then set (fun s => put_messages [] (put_conversationId None s))
          else ret tt
      | None => ret tt
      end) ;;
     loadConversations)                                     (* Refresh list *)
    (fun _ => console_error (JS.lit "Failed to delete conversation:")).

Definition saveMessage (message : Message) : M unit :=
  state <- get ;;
  let conversationId := currentConversationId state in
  match conversationId with
  | None => ret tt
  | Some c =>
      if negb (truthy_id conversationId) then ret tt
      else
        try_catch
          (p <- ask (fun h => api_addMessage env h c (payload_of message))
                    (ApiAddMessage c (payload_of message)) ;;
           await p ;;
           (* Refresh conversations to update title *)
           loadConversations)
          (fun _ => console_error (JS.lit "Failed to save message:"))
  end.

(** ** lib/api/image.ts *)

(** [Authorization: Bearer ${token}], set when the token is truthy. *)
Definition authorization : option jsstring :=
  match auth_token env with
  | Some t => if JS.truthy t then Some (JS.lit "Bearer " ++ t) else None
  | None => None
  end.

Definition image_failed : jsstring := JS.lit "Image generation failed".

Definition generateImage (prompt : jsstring) : M ImageGenerateResponse :=
  p <- ask (fun h => fetch_image env h prompt) (FetchImage authorization prompt) ;;
  response <- await p ;;
  if negb (image_ok response) then
    throw (Error (match image_detail response with
                  | Some d => if JS.truthy d then d else image_failed
                  | None => image_failed
                  end))
  else await (image_json response).

(** ** lib/api/stream.ts: the request *)

Definition default_model : jsstring := JS.lit "llama-3.3-70b-versatile".

(** [stopGeneration] of the hook. *)
Definition stopGeneration : M unit :=
  fun w =>
    match abortControllerRef w with
    | Some _ => (Resolve tt, with_ref (Some (mkAbortController true)) w)
    | None => (Resolve tt, w)
    end.

(** What the platform delivers of a response once the signal given to
    [fetch] is aborted at the point [p]: the pending operation, and every
    later one, rejects with an [AbortError]. *)
Definition interrupt (p : StopPoint) (r : Outcome Response)
  : Outcome Response :=
  match p with
  | NoStop => r
  | StopDuringFetch => Reject AbortError
  | StopDuringRead k =>
      match r with
      | Reject e => Reject e
      | Resolve resp =>
          Resolve (mkResponse (ok resp) (status_line resp)
                     (option_map
                        (fun b => mkBody (firstn k (chunks b)) (ReadReject AbortError))
                        (body resp)))
      end
  end.

(** [streamChat(params)], iterated to its end: the request is issued, the
    user may trigger [stopGeneration] while it is open, and the generator
    runs on what arrives.  The signal passed in [params] is the one of the
    controller held by [abortControllerRef]. *)
Definition streamChat (msgs : list Message) (model : option jsstring)
    (conversationId : option jsstring) : M (list GenObs * Completion) :=
  let request :=
    mkChatRequest (map (fun m => (role m, content m)) msgs)
      (match model with Some m => m | None => default_model end)
      conversationId in
  p <- ask (fun h => fetch_stream env h request) (FetchStream authorization request) ;;
  (match user_stop env with
   | NoStop => ret tt
   | _ => stopGeneration
   end) ;;
  fun w =>
    let signalled :=
      match abortControllerRef w with
      | Some c => aborted c
      | None => false
      end in
    (Resolve (streamChat_response decoder JSON_parse
                (if signalled then interrupt (user_stop env) p else p)), w).

(** ** hooks/useStreamingResponse *)

Definition usage_warning : jsstring :=
  [9888; 65039] ++
  JS.lit " Please provide a prompt after /imagine. Example: `/imagine a cute robot playing guitar`".

Definition generating : jsstring :=
  [55356; 57256] ++ JS.lit " Generating image...".

(** [`✨ Here's your image for: "${prompt}"`] *)
Definition here_is_your_image (prompt : jsstring) : jsstring :=
  [10024] ++ JS.lit " Here's your image for: " ++ [34] ++ prompt ++ [34].

Definition generation_failed : jsstring :=
  [9888; 65039] ++
  JS.lit " Failed to generate image. Please check your Hugging Face API key and try again.".

Definition error_notice : jsstring :=
  [10; 10; 9888; 65039] ++ JS.lit " An error occurred. Please try again.".

Definition imagine : jsstring := JS.lit "/imagine".

(** [content.trim().toLowerCase().startsWith('/imagine')] *)
Definition isImageCommand (c : jsstring) : bool :=
  JS.startsWith (JS.toLowerCase (JS.trim c)) imagine.

(** [content.replace(/^\/imagine\s*/i, '').trim()] *)
Definition prompt_of (c : jsstring) : jsstring :=
  JS.trim
    (if JS.startsWith_i c imagine
     then JS.trimStart (skipn (List.length imagine) c)
     else c).

(** [for await (const chunk of ...) { ... }] on the events the generator
    yields and the way it finishes; the value is [fullResponse]. *)
Fixpoint for_await (evs : list StreamChunk) (c : Completion)
    (fullResponse : jsstring) : M jsstring :=
  match evs with
  | [] =>
      match c with
      | Return => ret fullResponse
      | Throw e => throw e
      end
  | chunk :: evs' =>
      if JS.truthy_opt (error chunk) then
        throw (Error (match error chunk with Some e => e | None => [] end))
      else if done chunk then ret fullResponse
      else
        (* Append token to the last message (real-time update) *)
        appendToLastMessage (chunk_content chunk) ;;
        for_await evs' c (fullResponse ++ chunk_content chunk)
  end.

Definition is_abort (e : Exn) : bool :=
  match e with AbortError => true | Error _ => false end.

(** The three parts of [sendMessage], in the order of the source. *)

(** Ensure we have a conversation.  The hook's [currentConversationId] is
    the store's when the turn starts. *)
Definition ensureConversation : M (option Z) :=
  state <- get ;;
  let convId := currentConversationId state in
  if negb (truthy_id convId) then
    try_catch
      (i <- createConversation ;; ret (Some i))
      (fun _ =>
         console_error (JS.lit "Failed to create conversation:") ;;
         ret convId)
  else ret convId.

(** [if (isImageCommand) { ... return; }] *)
Definition imagePath (c : jsstring) : M unit :=
  (* Extract prompt (remove /imagine prefix) *)
  let prompt := prompt_of c in
  if negb (JS.truthy prompt) then
    t <- newDate ;;
    addMessage (mkMessage None assistant usage_warning None (Some t))
  else
    (* Add user message *)
    t <- newDate ;;
    let userMsg := mkMessage None user c None (Some t) in
    addMessage userMsg ;;
    saveMessage userMsg ;;
    (* Add placeholder assistant message *)
    t' <- newDate ;;
    addMessage (mkMessage None assistant generating None (Some t')) ;;
    setIsStreaming true ;;
    try_finally
      (try_catch
         (result <- generateImage prompt ;;
          t'' <- newDate ;;
          let assistantMsg :=
            mkMessage None assistant (here_is_your_image prompt)
              (Some (response_image result)) (Some t'') in
          updateLastMessage (content assistantMsg) ;;
          setLastMessageImage (response_image result) ;;
          saveMessage assistantMsg)
         (fun _ =>
            console_error (JS.lit "Image generation error:") ;;
            updateLastMessage generation_failed))
      (setIsStreaming false).

(** [convId?.toString() || null] *)
Definition conversationId_param (convId : option Z) : option jsstring :=
  match convId with
  | Some n => if JS.truthy (JS.toString n) then Some (JS.toString n) else None
  | None => None
  end.

(** The [try] block of the regular chat flow. *)
Definition consumeStream (convId : option Z) : M unit :=
  (* Get updated messages including the new user message *)
  state <- get ;;
  let currentMessages := messages state in
  (* Consume the stream; slice(0, -1) excludes the empty assistant message *)
  g <- streamChat (removelast currentMessages) None (conversationId_param convId) ;;
  fullResponse <- for_await (yields (fst g)) (snd g) [] ;;
  (* Save the complete assistant message *)
  if JS.truthy fullResponse then
    t <- newDate ;;
    saveMessage (mkMessage None assistant fullResponse None (Some t))
  else ret tt.

(** The [catch] block of the regular chat flow. *)
Definition onStreamError (e : Exn) : M unit :=
  (* Ignore abort errors (user cancelled) *)
  if is_abort e then console_log (JS.lit "Stream aborted by user")
  else
    console_error (JS.lit "Stream error:") ;;
    appendToLastMessage error_notice.

(** The [finally] block of the regular chat flow. *)
Definition endOfTurn : M unit :=
  setIsStreaming false ;;
  fun w => (Resolve tt, with_ref None w).

(** Regular chat flow *)
Definition textPath (c : jsstring) (convId : option Z) : M unit :=
  t <- newDate ;;
  let userMessage := mkMessage None user c None (Some t) in
  addMessage userMessage ;;
  saveMessage userMessage ;;
  (* Add empty assistant message (will be populated by stream) *)
  t' <- newDate ;;
  let assistantMessage := mkMessage None assistant [] None (Some t') in
  addMessage assistantMessage ;;
  (* Set streaming state *)
  setIsStreaming true ;;
  (* Create abort controller for cancel functionality *)
  (fun w => (Resolve tt, with_ref (Some (mkAbortController false)) w)) ;;
  try_finally (try_catch (consumeStream convId) onStreamError) endOfTurn.

Definition sendMessage (c : jsstring) : M unit :=
  convId <- ensureConversation ;;
  (* Check if this is an image generation command *)
  if isImageCommand c then imagePath c else textPath c convId.

End Client.

(* ===================================================================== *)
(** * Reading a run                                                       *)
(* ===================================================================== *)

(** The messages handed to the storage collaborator, in order. *)
Fixpoint persisted (l : list Event) : list (Z * StoredMessage) :=
  match l with
  | [] => []
  | ApiAddMessage c p :: l' => (c, p) :: persisted l'
  | _ :: l' => persisted l'
  end.

(** The generation requests (image and stream), in order. *)
Fixpoint outbound (l : list Event) : list Event :=
  match l with
  | [] => []
  | FetchImage a p :: l' => FetchImage a p :: outbound l'
  | FetchStream a r :: l' => FetchStream a r :: outbound l'
  | _ :: l' => outbound l'
  end.

(** The states the store went through, in order. *)
Fixpoint states (l : list Event) : list ChatState :=
  match l with
  | [] => []
  | StoreSet st :: l' => st :: states l'
  | _ :: l' => states l'
  end.

(** A stretch of a run in which no message is persisted, no generation is
    requested and the streaming flag stays [b]. *)
Definition calm (b : bool) (l : list Event) : Prop :=
  persisted l = [] /\ outbound l = [] /\
  Forall (fun st => isStreaming st = b) (states l).

(** What [saveMessage] hands to storage when the current conversation is
    [cid]. *)
Definition saved_to (cid : option Z) (m : Message) : list (Z * StoredMessage) :=
  match cid with
  | Some c => if truthy_id cid then [(c, payload_of m)] else []
  | None => []
  end.

(** A stretch of a run that persists the messages [p], requests no
    generation and leaves the streaming flag at [b]. *)
Definition stretch (b : bool) (p : list (Z * StoredMessage)) (l : list Event)
  : Prop :=
  persisted l = p /\ outbound l = [] /\
  Forall (fun st => isStreaming st = b) (states l).

(** The events the [for await] loop appends to the placeholder: those before
    the first one that carries an error or is terminal. *)
Fixpoint taken (evs : list StreamChunk) : list StreamChunk :=
  match evs with
  | [] => []
  | c :: evs' =>
      if JS.truthy_opt (error c) || done c then [] else c :: taken evs'
  end.

(** The text of a list of events. *)
Definition text_of_events (evs : list StreamChunk) : jsstring :=
  List.concat (map chunk_content evs).

(** How the [for await] loop is left: normally (the generator is exhausted
    or a terminal event breaks the loop), or by an exception (an event with
    an error, or the generator's own). *)
Fixpoint loop_end (evs : list StreamChunk) (c : Completion) : Completion :=
  match evs with
  | [] => c
  | ch :: evs' =>
      if JS.truthy_opt (error ch) then
        Throw (Error (match error ch with Some e => e | None => [] end))
      else if done ch then Return
      else loop_end evs' c
  end.

(** What the placeholder holds at the end of a regular turn: the text of the
    events taken, and the error notice when the loop was left by an exception
    other than an abort. *)
Definition reply (evs : list StreamChunk) (c : Completion) : jsstring :=
  text_of_events (taken evs) ++
  match loop_end evs c with
  | Return => []
  | Throw e => if is_abort e then [] else error_notice
  end.

(** What the end of a regular turn hands to storage: the accumulated text,
    when the loop was left normally and the text is not empty. *)
Definition reply_saved (cid : option Z) (evs : list StreamChunk) (c : Completion)
  : list (Z * StoredMessage) :=
  match loop_end evs c with
  | Return =>
      if JS.truthy (text_of_events (taken evs))
      then saved_to cid (mkMessage None assistant (text_of_events (taken evs)) None None)
      else []
  | Throw _ => []
  end.

(** An event that only carries text. *)
Definition plain (c : StreamChunk) : bool :=
  negb (JS.truthy_opt (error c)) && negb (done c).

(** What the generator of a turn runs on: the answer to the stream request,
    cut where the user stops the generation. *)
Definition delivered (env : Env) (h : list Event) (request : ChatRequest)
  : Outcome Response :=
  interrupt (user_stop env) (fetch_stream env h request).

(** The run of the generator of a turn. *)
Definition generator (decoder : TextDecoder)
    (JSON_parse : jsstring -> option StreamChunk) (env : Env)
    (h : list Event) (request : ChatRequest) : list GenObs * Completion :=
  streamChat_response decoder JSON_parse (delivered env h request).

(** A user message and an assistant message as [sendMessage] builds them. *)
Definition user_message (c : jsstring) (t : Z) : Message :=
  mkMessage None user c None (Some t).

Definition assistant_message (c : jsstring) (i : option jsstring) (t : Z)
  : Message :=
  mkMessage None assistant c i (Some t).

(* ===================================================================== *)
(** * Concrete runs                                                       *)
(* ===================================================================== *)

(** A server that streams "Hel", "lo" and the terminal event, a storage that
    accepts everything, and a user who may stop the generation.  The events
    are ASCII, so the bytes of a block are its code units. *)
Module Scenario.

Definition hel : StreamChunk := mkStreamChunk (JS.lit "Hel") false None.
Definition lo : StreamChunk := mkStreamChunk (JS.lit "lo") false None.
Definition fin : StreamChunk := mkStreamChunk [] true None.

Definition hello : Body :=
  mkBody [Wire.block hel; Wire.block lo; Wire.block fin] ReadDone.

(** A truncated JSON payload between two well-formed events. *)
Definition truncated : jsstring :=
  data_prefix ++ firstn 12 (Wire.stringify lo).

Definition broken : Body :=
  mkBody [Wire.block hel ++ truncated ++ [JS.LF; JS.LF] ++ Wire.block lo]
    ReadDone.

(** A terminal event with one more block buffered behind it and a further
    chunk queued. *)
Definition overlong : Body :=
  mkBody [Wire.block hel ++ Wire.block fin ++ Wire.block lo; Wire.block lo]
    ReadDone.

Definition streaming (b : Body) : Outcome Response :=
  Resolve (mkResponse true (JS.lit "200 OK") (Some b)).

Definition conversation7 : Conversation :=
  mkConversation 7 (JS.lit "New Chat") (JS.lit "2025-01-01") (JS.lit "2025-01-01").

Definition picture : ImageGenerateResponse :=
  mkImageGenerateResponse (JS.lit "aW1hZ2U=") (JS.lit "a cat").

Definition env_of (create : Outcome Conversation) (stop : StopPoint) : Env :=
  mkEnv (fun n => Z.of_nat n) None
    (fun _ => Resolve [conversation7])
    (fun _ => create)
    (fun _ _ => Reject (Error (JS.lit "Not Found")))
    (fun _ _ => Resolve tt)
    (fun _ _ _ => Resolve tt)
    (fun _ _ => Resolve (mkImageHttp true None (Resolve picture)))
    (fun _ _ => streaming hello)
    stop.

(** Storage works and the user lets the stream run. *)
Definition env : Env := env_of (Resolve conversation7) NoStop.

(** The user stops while the second read is pending. *)
Definition env_stopped : Env := env_of (Resolve conversation7) (StopDuringRead 1).

(** Storage cannot create a conversation. *)
Definition env_offline : Env :=
  env_of (Reject (Error (JS.lit "Failed to fetch"))) NoStop.

(** A fresh client, and a client inside conversation 7. *)
Definition fresh : World := mkWorld initial_state None [] 0.

Definition in_conversation : World :=
  mkWorld (mkChatState [] false (Some 7) [conversation7] false) None [] 0.

End Scenario.

(* ===================================================================== *)
(** * More of lib/api/stream.ts: the wire seen from the decoder           *)
(* ===================================================================== *)

(** A text without a line feed. *)
Definition no_LF (s : jsstring) : bool :=
  forallb (fun c => negb (c =? JS.LF)) s.

(** One event on the wire, in the format stream.ts names in its header:
    [data: {...}\n\n]. *)
Definition frame (payload : jsstring) : jsstring :=
  data_prefix ++ payload ++ [JS.LF; JS.LF].

(** A payload that is written as a JSON object, the way the endpoint writes
    its events: it starts with a brace.  [JSON.parse] of such a text fails
    or gives an object, never [null]. *)
Definition object_text (payload : jsstring) : bool :=
  JS.startsWith payload (JS.lit "{").

(** The events a sequence of payloads stands for: those that parse. *)
Definition events_of (JSON_parse : jsstring -> option StreamChunk)
    (payloads : list jsstring) : list StreamChunk :=
  flat_map (fun p => match JSON_parse p with Some d => [d] | None => [] end)
    payloads.

(** The payloads that do not parse and come before the first terminal
    event. *)
Fixpoint rejected (JSON_parse : jsstring -> option StreamChunk)
    (payloads : list jsstring) : list jsstring :=
  match payloads with
  | [] => []
  | p :: ps =>
      match JSON_parse p with
      | Some d => if done d then [] else rejected JSON_parse ps
      | None => p :: rejected JSON_parse ps
      end
  end.

(* ===================================================================== *)
(** * lib/api/conversations: the storage client                           *)
(* ===================================================================== *)

(** The text of the client of the storage endpoints is in the sources behind
    the text of stores/uiStore.ts.  Its interfaces are the records
    [Conversation], [ConversationMessage] and [ConversationWithMessages]
    above.  Each of its functions issues one [fetch],
    fails on a status outside 200-299 and, for [list], [create] and [get],
    resolves to [response.json()]. *)

(** The part of an HTTP response the client looks at. *)
Record Http (A : Type) := mkHttp {
  http_ok : bool;                 (* response.ok *)
  http_json : Outcome A           (* response.json() *)
}.
Arguments mkHttp {A} http_ok http_json.
Arguments http_ok {A} h.
Arguments http_json {A} h.

(** The answers of the server to the five requests of the client. *)
Record Server := mkServer {
  (* GET /api/v1/conversations *)
  get_conversations : list Event -> Outcome (Http (list Conversation));
  (* POST /api/v1/conversations, body {title} *)
  post_conversations : list Event -> jsstring -> Outcome (Http Conversation);
  (* GET /api/v1/conversations/${id} *)
  get_conversation : list Event -> Z -> Outcome (Http ConversationWithMessages);
  (* DELETE /api/v1/conversations/${id} *)
  delete_conversation : list Event -> Z -> Outcome (Http unit);
  (* POST /api/v1/conversations/${conversationId}/messages, body message *)
  post_message : list Event -> Z -> StoredMessage -> Outcome (Http unit)
}.

(** [if (!response.ok) throw new Error(failure); return response.json()] *)
Definition json_unless_failed {A} (failure : jsstring) (r : Outcome (Http A))
  : Outcome A :=
  match r with
  | Reject e => Reject e
  | Resolve response =>
      if negb (http_ok response) then Reject (Error failure)
      else http_json response
  end.

(** [if (!response.ok) throw new Error(failure)] *)
Definition unless_failed {A} (failure : jsstring) (r : Outcome (Http A))
  : Outcome unit :=
  match r with
  | Reject e => Reject e
  | Resolve response =>
      if negb (http_ok response) then Reject (Error failure)
      else Resolve tt
  end.

Definition conversationsApi_list (server : Server) (h : list Event)
  : Outcome (list Conversation) :=
  json_unless_failed (JS.lit "Failed to fetch conversations")
    (get_conversations server h).

(** [title || 'New Chat'] *)
Definition title_or_default (title : option jsstring) : jsstring :=
  match title with
  | Some t => if JS.truthy t then t else JS.lit "New Chat"
  | None => JS.lit "New Chat"
  end.

Definition conversationsApi_create (server : Server) (h : list Event)
    (title : option jsstring) : Outcome Conversation :=
  json_unless_failed (JS.lit "Failed to create conversation")
    (post_conversations server h (title_or_default title)).

Definition conversationsApi_get (server : Server) (h : list Event) (i : Z)
  : Outcome ConversationWithMessages :=
  json_unless_failed (JS.lit "Failed to fetch conversation")
    (get_conversation server h i).

Definition conversationsApi_delete (server : Server) (h : list Event) (i : Z)
  : Outcome unit :=
  unless_failed (JS.lit "Failed to delete conversation")
    (delete_conversation server h i).

Definition conversationsApi_addMessage (server : Server) (h : list Event)
    (conversationId : Z) (message : StoredMessage) : Outcome unit :=
  unless_failed (JS.lit "Failed to add message")
    (post_message server h conversationId message).

(** The environment of the store when storage is this client talking to
    [server]; the store calls [create] without a title. *)
Definition over_http (server : Server) (rest : Env) : Env :=
  mkEnv (now rest) (auth_token rest)
    (conversationsApi_list server)
    (fun h => conversationsApi_create server h None)
    (conversationsApi_get server)
    (conversationsApi_delete server)
    (conversationsApi_addMessage server)
    (fetch_image rest) (fetch_stream rest) (user_stop rest).

(* ===================================================================== *)
(** * stores/uiStore.ts                                                   *)
(* ===================================================================== *)

Module UIStore.

Inductive Theme := light | dark.

Record UIState := mkUIState {
  isSidebarOpen : bool;
  theme : Theme
}.

Definition initial_state : UIState := mkUIState true dark.

Definition toggleSidebar (state : UIState) : UIState :=
  mkUIState (negb (isSidebarOpen state)) (theme state).

Definition setSidebarOpen (open : bool) (state : UIState) : UIState :=
  mkUIState open (theme state).

Definition toggleTheme (state : UIState) : UIState :=
  mkUIState (isSidebarOpen state)
    (match theme state with dark => light | light => dark end).

End UIStore.

(* ===================================================================== *)
(** * components/chat: the input and the message list                     *)
(* ===================================================================== *)

(** [a === b] on strings. *)
Fixpoint strict_equal (a b : jsstring) : bool :=
  match a, b with
  | [], [] => true
  | x :: a', y :: b' => (x =? y) && strict_equal a' b'
  | _, _ => false
  end.

(** A promise that is created and not awaited: it runs, and whether it
    resolves or rejects does not reach the code that created it. *)
Definition detached {A} (m : M A) : M unit :=
  fun w => (Resolve tt, snd (m w)).

(** ChatContainer: the message at [index] is drawn as the one being
    streamed when
    [isStreaming && index === messages.length - 1 && message.role === 'assistant']. *)
Definition drawn_streaming (state : ChatState) (index : nat) (message : Message)
  : bool :=
  isStreaming state
  && Nat.eqb index (List.length (messages state) - 1)
  && match role message with assistant => true | _ => false end.

(** The flags ChatContainer hands to the messages it draws, in order
    ([messages.map((message, index) => ...)]). *)
Definition streaming_flags (state : ChatState) : list bool :=
  map (fun im => drawn_streaming state (fst im) (snd im))
    (combine (seq 0 (List.length (messages state))) (messages state)).

Module ChatInput.

(** The state of the component ([useState]). *)
Record State := mkState {
  value : jsstring;
  showTools : bool;
  showImageGen : bool;
  imagePrompt : jsstring;
  isGenerating : bool
}.

Definition initial_state : State := mkState [] false false [] false.

(** The part of a keyboard event the component looks at. *)
Record KeyboardEvent := mkKeyboardEvent {
  key : jsstring;
  shiftKey : bool
}.

Definition setValue (v : jsstring) (s : State) : State :=
  mkState v (showTools s) (showImageGen s) (imagePrompt s) (isGenerating s).



(** [const hasContent = value.trim().length > 0] *)
Definition hasContent (s : State) : bool := JS.truthy (JS.trim (value s)).

(** The [disabled] attribute of the text area. *)
Definition textarea_disabled (disabled : bool) (s : State) : bool :=
  disabled || isGenerating s.

(** The [disabled] attribute of the send / stop button. *)
Definition button_disabled (isStreaming disabled : bool) (s : State) : bool :=
  negb isStreaming && (negb (hasContent s) || disabled || isGenerating s).

(** [setValue(prev => prev ? `${prev} ${text}` : text)], the [onTranscript]
    of the voice button. *)
Definition onTranscript (text : jsstring) (s : State) : State :=
  setValue (if JS.truthy (value s) then value s ++ JS.lit " " ++ text else text) s.

Section Handlers.

(** The props [onSend] and [onStop]. *)
Variable onSend : jsstring -> M unit.
Variable onStop : M unit.

Definition handleSubmit (disabled : bool) (s : State) : M State :=
  if JS.truthy (JS.trim (value s)) && negb disabled then
    detached (onSend (JS.trim (value s))) ;;
    ret (setValue [] s)
  else ret s.

(** The result holds whether [e.preventDefault()] was called. *)
Definition handleKeyDown (isStreaming disabled : bool) (e : KeyboardEvent)
    (s : State) : M (State * bool) :=
  if strict_equal (key e) (JS.lit "Enter") && negb (shiftKey e) then
    if isStreaming then
      onStop ;; ret (s, true)
    else
      s' <- handleSubmit disabled s ;; ret (s', true)
  else ret (s, false).

(** [onClick] of the send / stop button. *)
Definition onClick (isStreaming disabled : bool) (s : State) : M State :=
  if isStreaming then
    onStop ;; ret s
  else handleSubmit disabled s.

(** A key pressed in the text area and a click on the button, as the
    platform delivers them: a disabled control dispatches no event. *)
Definition press (isStreaming disabled : bool) (e : KeyboardEvent) (s : State)
  : M (State * bool) :=
  if textarea_disabled disabled s then ret (s, false)
  else handleKeyDown isStreaming disabled e s.

Definition click (isStreaming disabled : bool) (s : State) : M State :=
  if button_disabled isStreaming disabled s then ret s
  else onClick isStreaming disabled s.

End Handlers.

Section Tools.

Variable env : Env.


End Tools.

End ChatInput.

(* ===================================================================== *)
(** * app/page: the chat page                                             *)
(* ===================================================================== *)

Section ChatPage.

Variable decoder : TextDecoder.
Variable JSON_parse : jsstring -> option StreamChunk.
Variable env : Env.

Definition handleNewChat : M unit := clearMessages.

Definition handleSuggestionClick (suggestion : jsstring) : M unit :=
  detached (sendMessage decoder JSON_parse env suggestion).

(** [<ChatInput onSend={sendMessage} onStop={stopGeneration}
      isStreaming={isStreaming} />]: the input of the page, with the
    streaming flag of the store and [disabled] at its default. *)
Definition input_press (e : ChatInput.KeyboardEvent) (s : ChatInput.State)
  : M (ChatInput.State * bool) :=
  fun w =>
    ChatInput.press (sendMessage decoder JSON_parse env) stopGeneration
      (isStreaming (store w)) false e s w.

Definition input_click (s : ChatInput.State) : M ChatInput.State :=
  fun w =>
    ChatInput.click (sendMessage decoder JSON_parse env) stopGeneration
      (isStreaming (store w)) false s w.

End ChatPage.

(* ===================================================================== *)
(** * Reading a run, continued                                            *)
(* ===================================================================== *)

(** What [generateImage] makes of the answer to its request. *)
Definition image_result (r : Outcome ImageHttp) : Outcome ImageGenerateResponse :=
  match r with
  | Reject e => Reject e
  | Resolve response =>
      if negb (image_ok response) then
        Reject (Error (match image_detail response with
                       | Some d => if JS.truthy d then d else image_failed
                       | None => image_failed
                       end))
      else image_json response
  end.

(** What it means for an action of the store to edit the last message
    only: it completes, the list keeps its length, every message but the
    last and the role of every message are as before, an empty list stays
    empty, and nothing else is touched: not the other four fields of the
    store, not the handle of the stream; the one thing recorded is the new
    state of the store. *)
Definition edits_last_only (action : M unit) : Prop :=
  forall w : World,
    fst (action w) = Resolve tt /\
    let before := store w in
    let after := store (snd (action w)) in
    List.length (messages after) = List.length (messages before) /\
    removelast (messages after) = removelast (messages before) /\
    map role (messages after) = map role (messages before) /\
    isStreaming after = isStreaming before /\
    currentConversationId after = currentConversationId before /\
    conversations after = conversations before /\
    isLoadingConversations after = isLoadingConversations before /\
    abortControllerRef (snd (action w)) = abortControllerRef w /\
    clock (snd (action w)) = clock w /\
    trace (snd (action w)) = trace w ++ [StoreSet after].

(** [Number.isSafeInteger(n)]: the integers a number holds exactly. *)
Definition isSafeInteger (n : Z) : bool := Z.abs n <=? 9007199254740991.

(** The request of a regular turn: the history up to the user message, the
    default model and the id of the conversation in decimal. *)
Definition turn_request (history : list Message) (convId : option Z)
  : ChatRequest :=
  mkChatRequest (map (fun m => (role m, content m)) history) default_model
    (conversationId_param convId).

(** Further servers and inputs for concrete runs. *)
Module Cases.

(** The event "lo" without the blank line that ends it. *)
Definition unterminated : jsstring := data_prefix ++ Wire.stringify Scenario.lo.

(** A comment line of the event-stream format, and an event written
    without the space after the colon. *)
Definition comment : jsstring := JS.lit ": keep-alive".

Definition no_space : jsstring := JS.lit "data:" ++ Wire.stringify Scenario.lo.

Definition with_comment : Body :=
  mkBody [Wire.block Scenario.hel; comment ++ [JS.LF; JS.LF] ++ no_space
          ++ [JS.LF; JS.LF]; Wire.block Scenario.fin] ReadDone.

(** A server that refuses the stream request. *)
Definition refusing : Outcome Response :=
  Resolve (mkResponse false (JS.lit "500 Internal Server Error") None).

(** A server whose stream carries an error event after "Hel". *)
Definition failing : Body :=
  mkBody [Wire.block Scenario.hel;
          Wire.block (mkStreamChunk [] false (Some (JS.lit "rate limit")))]
    ReadDone.

(** A server that ends the stream at once. *)
Definition silent : Body := mkBody [Wire.block Scenario.fin] ReadDone.

Definition env_with (image : Outcome ImageHttp) (stream : Outcome Response)
  : Env :=
  mkEnv (fun n => Z.of_nat n) None
    (fun _ => Resolve [Scenario.conversation7])
    (fun _ => Resolve Scenario.conversation7)
    (fun _ _ => Reject (Error (JS.lit "Not Found")))
    (fun _ _ => Reject (Error (JS.lit "Failed to delete conversation")))
    (fun _ _ _ => Reject (Error (JS.lit "Failed to add message")))
    (fun _ _ => image)
    (fun _ _ => stream)
    NoStop.

Definition no_image : Outcome ImageHttp :=
  Resolve (mkImageHttp false (Some (JS.lit "Model is loading")) (Reject (Error []))).

(** A server that answers every storage request with status 500. *)
Definition down : Server :=
  mkServer
    (fun _ => Resolve (mkHttp false (Reject (Error []))))
    (fun _ _ => Resolve (mkHttp false (Reject (Error []))))
    (fun _ _ => Resolve (mkHttp false (Reject (Error []))))
    (fun _ _ => Resolve (mkHttp false (Resolve tt)))
    (fun _ _ _ => Resolve (mkHttp false (Resolve tt))).

(** A client that shows conversation 7 with two messages. *)
Definition talking : World :=
  mkWorld
    (mkChatState
       [mkMessage None user (JS.lit "hi") None None;
        mkMessage None assistant (JS.lit "Hello") None None]
       false (Some 7) [Scenario.conversation7] false)
    None [] 0.

(** The same client while a turn is streaming. *)
Definition streaming_turn : World :=
  mkWorld
    (mkChatState
       [mkMessage None user (JS.lit "hi") None None;
        mkMessage None assistant (JS.lit "Hel") None None]
       true (Some 7) [Scenario.conversation7] false)
    (Some (mkAbortController false)) [] 2.

(** A stream whose last event lacks the blank line, and the same stream
    without that event. *)
Definition just_hel : Body := mkBody [Wire.block Scenario.hel] ReadDone.

Definition cut_short : Body :=
  mkBody [Wire.block Scenario.hel; unterminated] ReadDone.

(** A client whose current conversation has the id 0, and a client that
    shows a message outside any conversation. *)
Definition at_zero : World :=
  mkWorld (mkChatState [] false (Some 0) [] false) None [] 0.

Definition unsaved : World :=
  mkWorld
    (mkChatState [mkMessage None assistant usage_warning None None]
       false None [] false)
    None [] 0.

Definition enter : ChatInput.KeyboardEvent :=
  ChatInput.mkKeyboardEvent (JS.lit "Enter") false.

Definition typed (v : jsstring) : ChatInput.State :=
  ChatInput.mkState v false false [] false.

End Cases.

(* ===================================================================== *)
(** * Facts about the string primitives                                   *)
(* ===================================================================== *)

Lemma split_nn_nonempty (s : jsstring) : JS.split_nn s <> [].
Proof.
  destruct s as [|c [|c' s]]; simpl; try discriminate.
  destruct ((c =? JS.LF) && (c' =? JS.LF)); [discriminate|].
  match goal with |- context [match ?x with [] => _ | _ :: _ => _ end] =>
    destruct x end; discriminate.
Qed.

(** The first piece of a split gains a unit when the text does, unless the
    unit completes a separator. *)
Definition cons_head (c : Z) (l : list jsstring) : list jsstring :=
  match l with
  | f :: fs => (c :: f) :: fs
  | [] => [[c]]
  end.

Lemma split_nn_sep (s : jsstring) :
  JS.split_nn (JS.LF :: JS.LF :: s) = [] :: JS.split_nn s.
Proof. reflexivity. Qed.

Lemma split_nn_keep (c : Z) (s : jsstring) :
  match s with
  | c' :: _ => (c =? JS.LF) && (c' =? JS.LF) = false
  | [] => True
  end ->
  JS.split_nn (c :: s) = cons_head c (JS.split_nn s).
Proof.
  destruct s as [|c' s]; intros H.
  - reflexivity.
  - change (JS.split_nn (c :: c' :: s))
      with (if (c =? JS.LF) && (c' =? JS.LF) then [] :: JS.split_nn s
            else cons_head c (JS.split_nn (c' :: s))).
    rewrite H. reflexivity.
Qed.

Lemma removelast_cons_head (c : Z) (l : list jsstring) :
  removelast (cons_head c l) =
  match l with
  | _ :: _ :: _ => cons_head c (removelast l)
  | _ => []
  end.
Proof. destruct l as [|f [|g l]]; reflexivity. Qed.

Lemma last_cons_head (c : Z) (l : list jsstring) :
  last (cons_head c l) [] =
  match l with
  | _ :: _ :: _ => last l []
  | _ => c :: last l []
  end.
Proof. destruct l as [|f [|g l]]; reflexivity. Qed.

Lemma removelast_cons_ne {A} (x : A) (l : list A) :
  l <> [] -> removelast (x :: l) = x :: removelast l.
Proof. destruct l; [congruence | reflexivity]. Qed.

Lemma last_cons_ne {A} (x d : A) (l : list A) :
  l <> [] -> last (x :: l) d = last l d.
Proof. destruct l; [congruence | reflexivity]. Qed.

Lemma split_nn_single (s f : jsstring) : JS.split_nn s = [f] -> f = s.
Proof.
  remember (List.length s) as n eqn:Hn.
  revert s f Hn.
  induction n as [n IH] using lt_wf_ind.
  intros [|c [|c' s]] f Hn H.
  - injection H as <-. reflexivity.
  - injection H as <-. reflexivity.
  - destruct ((c =? JS.LF) && (c' =? JS.LF)) eqn:E.
    + apply andb_true_iff in E. destruct E as [E1 E2].
      apply Z.eqb_eq in E1, E2. subst c c'.
      rewrite split_nn_sep in H.
      injection H as _ H. exfalso. exact (split_nn_nonempty _ H).
    + rewrite (split_nn_keep c (c' :: s)) in H by exact E.
      destruct (JS.split_nn (c' :: s)) as [|f' [|g l]] eqn:Es.
      * exfalso. exact (split_nn_nonempty _ Es).
      * simpl in H. injection H as <-. f_equal.
        apply (IH (List.length (c' :: s))); [simpl in *; lia | reflexivity | exact Es].
      * discriminate.
Qed.

(** Splitting commutes with the arrival of more text: the complete pieces of
    what has arrived stay as they are, and the rest is split again together
    with the new text. *)
Lemma split_nn_app (s1 s2 : jsstring) :
  JS.split_nn (s1 ++ s2) =
  removelast (JS.split_nn s1) ++ JS.split_nn (last (JS.split_nn s1) [] ++ s2).
Proof.
  remember (List.length s1) as n eqn:Hn.
  revert s1 Hn.
  induction n as [n IH] using lt_wf_ind.
  intros [|c [|c' s1]] Hn.
  - reflexivity.
  - reflexivity.
  - destruct ((c =? JS.LF) && (c' =? JS.LF)) eqn:E.
    + apply andb_true_iff in E. destruct E as [E1 E2].
      apply Z.eqb_eq in E1, E2. subst c c'.
      change ((JS.LF :: JS.LF :: s1) ++ s2) with (JS.LF :: JS.LF :: (s1 ++ s2)).
      rewrite !split_nn_sep.
      rewrite removelast_cons_ne by apply split_nn_nonempty.
      rewrite last_cons_ne by apply split_nn_nonempty.
      simpl. f_equal.
      apply (IH (List.length s1)); [simpl in Hn; lia | reflexivity].
    + change ((c :: c' :: s1) ++ s2) with (c :: (c' :: s1) ++ s2).
      rewrite (split_nn_keep c ((c' :: s1) ++ s2)) by exact E.
      rewrite (split_nn_keep c (c' :: s1)) by exact E.
      rewrite (IH (List.length (c' :: s1)) ltac:(simpl in *; lia) (c' :: s1) eq_refl).
      rewrite removelast_cons_head, last_cons_head.
      destruct (JS.split_nn (c' :: s1)) as [|f [|g l]] eqn:Es.
      * exfalso. exact (split_nn_nonempty _ Es).
      * apply split_nn_single in Es. subst f.
        simpl removelast. simpl last. simpl app.
        symmetry. apply (split_nn_keep c ((c' :: s1) ++ s2)). exact E.
      * reflexivity.
Qed.

(** The deferred piece holds no complete fragment. *)
Lemma split_nn_last (s : jsstring) :
  JS.split_nn (last (JS.split_nn s) []) = [last (JS.split_nn s) []].
Proof.
  pose proof (split_nn_app s []) as H.
  rewrite !app_nil_r in H.
  rewrite (app_removelast_last [] (split_nn_nonempty s)) in H at 1.
  apply app_inv_head in H. symmetry. exact H.
Qed.

(* ===================================================================== *)
(** * The transport decoder                                               *)
(* ===================================================================== *)

Arguments JS.slice : simpl never.
Arguments JS.startsWith : simpl never.
Arguments JS.split_nn : simpl never.
Arguments data_prefix : simpl never.

Lemma yields_app (t1 t2 : list GenObs) : yields (t1 ++ t2) = yields t1 ++ yields t2.
Proof.
  induction t1 as [|[] t1 IH]; simpl; rewrite ?IH; reflexivity.
Qed.

Lemma logged_app (t1 t2 : list GenObs) : logged (t1 ++ t2) = logged t1 ++ logged t2.
Proof.
  induction t1 as [|[] t1 IH]; simpl; rewrite ?IH; reflexivity.
Qed.

Lemma reads_app (t1 t2 : list GenObs) : reads (t1 ++ t2) = reads t1 ++ reads t2.
Proof.
  induction t1 as [|[] t1 IH]; simpl; rewrite ?IH; reflexivity.
Qed.

Lemma upto_done_app (a b : list StreamChunk) :
  upto_done (a ++ b) =
  if has_done a then upto_done a else a ++ upto_done b.
Proof.
  unfold has_done.
  induction a as [|d a IH]; simpl.
  - reflexivity.
  - destruct (done d); simpl; [reflexivity | rewrite IH].
    destruct (existsb done a); reflexivity.
Qed.

Lemma upto_done_no_done (a : list StreamChunk) :
  has_done a = false -> upto_done a = a.
Proof.
  intros H. rewrite <- (app_nil_r a) at 1.
  rewrite upto_done_app, H. simpl. apply app_nil_r.
Qed.

Section StreamChat_facts.

Variable decoder : TextDecoder.
Variable JSON_parse : jsstring -> option StreamChunk.

(** Decoding in streaming mode does not depend on where the bytes are cut. *)
Lemma decode_app (st : dstate decoder) (a b : list Z) :
  decode decoder st (a ++ b) =
  let (st1, t1) := decode decoder st a in
  let (st2, t2) := decode decoder st1 b in
  (st2, t1 ++ t2).
Proof.
  revert st. induction a as [|x a IH]; intros st; simpl.
  - destruct (decode decoder st b). reflexivity.
  - destruct (dstep decoder st x) as [st1 o1].
    rewrite IH.
    destruct (decode decoder st1 a) as [st2 o2].
    destruct (decode decoder st2 b) as [st3 o3].
    rewrite app_assoc. reflexivity.
Qed.

Lemma parsed_app (l1 l2 : list jsstring) :
  parsed JSON_parse (l1 ++ l2) = parsed JSON_parse l1 ++ parsed JSON_parse l2.
Proof.
  induction l1 as [|l l1 IH]; simpl; [reflexivity|].
  destruct (parse_fragment JSON_parse l); simpl; rewrite IH; reflexivity.
Qed.

Lemma parsed_malformed (m : jsstring) :
  malformed JSON_parse m = true -> parsed JSON_parse [m] = [].
Proof.
  intros H. unfold malformed in H. cbn [parsed]. unfold parse_fragment.
  destruct (JS.startsWith m data_prefix); [|reflexivity].
  destruct (JSON_parse (JS.slice 6 m)); [discriminate | reflexivity].
Qed.

(** The [for] loop yields the payloads of the fragments that parse, up to
    the first terminal one, and returns exactly when there is one. *)
Lemma for_lines_yields (lines : list jsstring) :
  yields (fst (for_lines JSON_parse lines)) = upto_done (parsed JSON_parse lines) /\
  snd (for_lines JSON_parse lines) = has_done (parsed JSON_parse lines).
Proof.
  unfold has_done.
  induction lines as [|l lines [IH1 IH2]]; simpl; [split; reflexivity|].
  unfold parse_fragment.
  destruct (JS.startsWith l data_prefix); [|split; assumption].
  destruct (JSON_parse (JS.slice 6 l)) as [d|].
  - simpl. destruct (done d) eqn:Ed; simpl; [split; reflexivity|].
    destruct (for_lines JSON_parse lines) as [t r]; simpl in *.
    split; [f_equal|]; assumption.
  - destruct (for_lines JSON_parse lines) as [t r]; simpl in *.
    split; assumption.
Qed.

(** The loop over a longer list of fragments goes on where the loop over
    the shorter one stops, unless that one returned. *)
Lemma for_lines_app (l1 l2 : list jsstring) :
  for_lines JSON_parse (l1 ++ l2) =
  if snd (for_lines JSON_parse l1) then for_lines JSON_parse l1
  else (fst (for_lines JSON_parse l1) ++ fst (for_lines JSON_parse l2), snd (for_lines JSON_parse l2)).
Proof.
  induction l1 as [|l l1 IH]; simpl.
  - destruct (for_lines JSON_parse l2); reflexivity.
  - destruct (JS.startsWith l data_prefix); [|exact IH].
    destruct (JSON_parse (JS.slice 6 l)) as [d|].
    + destruct (done d); [reflexivity|].
      rewrite IH.
      destruct (for_lines JSON_parse l1) as [t r]; simpl.
      destruct r; reflexivity.
    + rewrite IH.
      destruct (for_lines JSON_parse l1) as [t r]; simpl.
      destruct r; reflexivity.
Qed.

Lemma text_of_cons (st : dstate decoder) (v : list Z) (cs : list (list Z)) :
  text_of decoder st (v :: cs) = snd (decode decoder st v) ++ text_of decoder (fst (decode decoder st v)) cs.
Proof.
  unfold text_of. simpl. rewrite decode_app.
  destruct (decode decoder st v) as [st1 t1]. simpl.
  destruct (decode decoder st1 (List.concat cs)). reflexivity.
Qed.

(** One round of the read loop. *)
Lemma read_loop_cons (st : dstate decoder) (buffer : jsstring) (v : list Z)
    (cs : list (list Z)) (e : ReadEnd) :
  read_loop decoder JSON_parse st buffer (v :: cs) e =
  let buffer1 := buffer ++ snd (decode decoder st v) in
  let round := for_lines JSON_parse (complete_fragments buffer1) in
  let next :=
    read_loop decoder JSON_parse (fst (decode decoder st v))
      (last (JS.split_nn buffer1) []) cs e in
  if snd round then (GRead v :: fst round, Return)
  else (GRead v :: fst round ++ fst next, snd next).
Proof.
  unfold complete_fragments. cbn [read_loop].
  destruct (decode decoder st v) as [st1 text]. cbn [fst snd].
  destruct (for_lines JSON_parse (removelast (JS.split_nn (buffer ++ text))))
    as [t r].
  cbn [fst snd]. destruct r; [reflexivity|].
  destruct (read_loop decoder JSON_parse st1
              (last (JS.split_nn (buffer ++ text)) []) cs e).
  reflexivity.
Qed.

Lemma complete_fragments_app (s1 s2 : jsstring) :
  complete_fragments (s1 ++ s2) =
  complete_fragments s1 ++ complete_fragments (last (JS.split_nn s1) [] ++ s2).
Proof.
  unfold complete_fragments. rewrite split_nn_app.
  apply removelast_app, split_nn_nonempty.
Qed.

Lemma complete_fragments_last (s : jsstring) :
  complete_fragments (last (JS.split_nn s) []) = [].
Proof. unfold complete_fragments. rewrite split_nn_last. reflexivity. Qed.

(** What the read loop yields: the payloads of the complete fragments of
    the whole text, up to the first terminal one. *)
Lemma read_loop_yields (cs : list (list Z)) (e : ReadEnd) :
  forall (st : dstate decoder) (buffer : jsstring),
    complete_fragments buffer = [] ->
    yields (fst (read_loop decoder JSON_parse st buffer cs e)) =
    upto_done (parsed JSON_parse
                 (complete_fragments (buffer ++ text_of decoder st cs))).
Proof.
  induction cs as [|v cs IH]; intros st buffer Hb.
  - unfold text_of. simpl. rewrite app_nil_r, Hb. reflexivity.
  - rewrite text_of_cons, read_loop_cons, app_assoc, complete_fragments_app.
    cbv zeta.
    rewrite parsed_app, upto_done_app.
    destruct (for_lines_yields
                (complete_fragments (buffer ++ snd (decode decoder st v))))
      as [Hy Hr].
    rewrite Hr.
    destruct (has_done _) eqn:Ed; cbn [fst yields].
    + exact Hy.
    + rewrite yields_app, Hy, IH by apply complete_fragments_last.
      rewrite upto_done_no_done by exact Ed. reflexivity.
Qed.

(** How the read loop finishes. *)
Lemma read_loop_completion (cs : list (list Z)) (e : ReadEnd) :
  forall (st : dstate decoder) (buffer : jsstring),
    complete_fragments buffer = [] ->
    snd (read_loop decoder JSON_parse st buffer cs e) =
    if has_done (parsed JSON_parse
                   (complete_fragments (buffer ++ text_of decoder st cs)))
    then Return
    else match e with ReadDone => Return | ReadReject x => Throw x end.
Proof.
  induction cs as [|v cs IH]; intros st buffer Hb.
  - unfold text_of. simpl. rewrite app_nil_r, Hb. reflexivity.
  - rewrite text_of_cons, read_loop_cons, app_assoc, complete_fragments_app.
    cbv zeta.
    rewrite parsed_app. unfold has_done at 1. rewrite existsb_app.
    fold (has_done (parsed JSON_parse
                      (complete_fragments (buffer ++ snd (decode decoder st v))))).
    destruct (for_lines_yields
                (complete_fragments (buffer ++ snd (decode decoder st v))))
      as [Hy Hr].
    rewrite Hr.
    destruct (has_done _) eqn:Ed; cbn [fst snd orb].
    + reflexivity.
    + rewrite IH by apply complete_fragments_last. reflexivity.
Qed.

Lemma dropped_app (l1 l2 : list jsstring) :
  dropped JSON_parse (l1 ++ l2) =
  if has_done (parsed JSON_parse l1) then dropped JSON_parse l1
  else dropped JSON_parse l1 ++ dropped JSON_parse l2.
Proof.
  unfold has_done.
  induction l1 as [|l l1 IH]; cbn [app dropped parsed existsb].
  - reflexivity.
  - destruct (parse_fragment JSON_parse l) as [d|]; cbn [existsb].
    + destruct (done d); [reflexivity | exact IH].
    + rewrite IH. destruct (existsb done (parsed JSON_parse l1));
        destruct (malformed JSON_parse l); reflexivity.
Qed.

Lemma for_lines_logged (lines : list jsstring) :
  logged (fst (for_lines JSON_parse lines)) = dropped JSON_parse lines.
Proof.
  induction lines as [|l lines IH]; cbn [for_lines dropped]; [reflexivity|].
  unfold parse_fragment, malformed.
  destruct (JS.startsWith l data_prefix); [|exact IH].
  destruct (JSON_parse (JS.slice 6 l)) as [d|].
  - destruct (done d); [reflexivity|].
    destruct (for_lines JSON_parse lines). exact IH.
  - destruct (for_lines JSON_parse lines). cbn in *. f_equal. exact IH.
Qed.

(** What the read loop logs and drops: the malformed fragments among the
    complete fragments of the whole text, up to the first terminal event. *)
Lemma read_loop_logged (cs : list (list Z)) (e : ReadEnd) :
  forall (st : dstate decoder) (buffer : jsstring),
    complete_fragments buffer = [] ->
    logged (fst (read_loop decoder JSON_parse st buffer cs e)) =
    dropped JSON_parse (complete_fragments (buffer ++ text_of decoder st cs)).
Proof.
  induction cs as [|v cs IH]; intros st buffer Hb.
  - unfold text_of. simpl. rewrite app_nil_r, Hb. reflexivity.
  - rewrite text_of_cons, read_loop_cons, app_assoc, complete_fragments_app.
    cbv zeta.
    rewrite dropped_app.
    destruct (for_lines_yields
                (complete_fragments (buffer ++ snd (decode decoder st v))))
      as [_ Hr].
    rewrite Hr.
    destruct (has_done _) eqn:Ed; cbn [fst logged].
    + apply for_lines_logged.
    + rewrite logged_app, for_lines_logged, IH by apply complete_fragments_last.
      reflexivity.
Qed.

(** The shape of a run of the [for] loop: it is quiet, or it returned right
    after its first terminal event. *)
Lemma for_lines_shape (lines : list jsstring) :
  if snd (for_lines JSON_parse lines)
  then exists t0 d, fst (for_lines JSON_parse lines) = t0 ++ [GYield d] /\
                    done d = true /\ quiet t0 = true
  else quiet (fst (for_lines JSON_parse lines)) = true.
Proof.
  induction lines as [|l lines IH]; cbn [for_lines]; [reflexivity|].
  destruct (JS.startsWith l data_prefix); [|exact IH].
  destruct (JSON_parse (JS.slice 6 l)) as [d|].
  - destruct (done d) eqn:Ed.
    + exists [], d. repeat split; assumption.
    + destruct (for_lines JSON_parse lines) as [t r]. cbn [fst snd] in *.
      destruct r.
      * destruct IH as (t0 & d0 & -> & Hd & Hq).
        exists (GYield d :: t0), d0. cbn. rewrite Ed. repeat split; assumption.
      * cbn. rewrite Ed. exact IH.
  - destruct (for_lines JSON_parse lines) as [t r]. cbn [fst snd] in *.
    destruct r.
    + destruct IH as (t0 & d0 & -> & Hd & Hq).
      exists (GConsoleError l :: t0), d0. repeat split; assumption.
    + exact IH.
Qed.

Lemma quiet_app (t1 t2 : list GenObs) :
  quiet (t1 ++ t2) = quiet t1 && quiet t2.
Proof. apply forallb_app. Qed.

(** The shape of a run of the read loop. *)
Lemma read_loop_shape (cs : list (list Z)) (e : ReadEnd) :
  forall (st : dstate decoder) (buffer : jsstring),
    quiet (fst (read_loop decoder JSON_parse st buffer cs e)) = true \/
    exists t0 d,
      fst (read_loop decoder JSON_parse st buffer cs e) = t0 ++ [GYield d] /\
      done d = true /\ quiet t0 = true /\
      snd (read_loop decoder JSON_parse st buffer cs e) = Return.
Proof.
  induction cs as [|v cs IH]; intros st buffer.
  - left. reflexivity.
  - rewrite read_loop_cons. cbv zeta.
    pose proof (for_lines_shape
                  (complete_fragments (buffer ++ snd (decode decoder st v))))
      as Hs.
    destruct (snd (for_lines JSON_parse _)).
    + right. destruct Hs as (t0 & d & -> & Hd & Hq).
      exists (GRead v :: t0), d. repeat split; assumption.
    + cbn [fst snd].
      destruct (IH (fst (decode decoder st v))
                  (last (JS.split_nn (buffer ++ snd (decode decoder st v))) []))
        as [Hq | (t0 & d & -> & Hd & Hq & Hc)].
      * left. cbn. rewrite quiet_app, Hs, Hq. reflexivity.
      * right.
        exists (GRead v :: fst (for_lines JSON_parse
                   (complete_fragments (buffer ++ snd (decode decoder st v))))
                  ++ t0), d.
        split; [cbn; rewrite <- app_assoc; reflexivity|].
        cbn. rewrite quiet_app, Hs, Hq. repeat split; assumption.
Qed.

(** Where the first terminal event of a run is, is determined. *)
Lemma first_done_unique (t0 r t1 t2 : list GenObs) (d0 d : StreamChunk) :
  quiet t0 = true -> quiet r = true -> done d = true ->
  t0 ++ GYield d0 :: r = t1 ++ GYield d :: t2 ->
  t1 = t0 /\ d = d0 /\ t2 = r.
Proof.
  intros Hq Hr Hd. revert t1.
  induction t0 as [|o t0 IH]; intros t1 H.
  - destruct t1 as [|o1 t1]; cbn in H.
    + injection H as -> ->. repeat split.
    + injection H as _ H. exfalso.
      assert (Hin : In (GYield d) r) by (rewrite H; apply in_elt).
      unfold quiet in Hr. rewrite forallb_forall in Hr.
      specialize (Hr _ Hin). cbn in Hr. rewrite Hd in Hr. discriminate.
  - cbn in Hq. apply andb_true_iff in Hq. destruct Hq as [Ho Hq].
    destruct t1 as [|o1 t1]; cbn in H.
    + injection H as -> _. cbn in Ho. rewrite Hd in Ho. discriminate.
    + injection H as -> H. destruct (IH Hq t1 H) as (-> & -> & ->).
      repeat split.
Qed.

Lemma quiet_no_done (t t1 t2 : list GenObs) (d : StreamChunk) :
  quiet t = true -> t = t1 ++ GYield d :: t2 -> done d = false.
Proof.
  intros Hq ->. unfold quiet in Hq. rewrite forallb_forall in Hq.
  specialize (Hq (GYield d) (in_elt _ _ _)). cbn in Hq.
  destruct (done d); [discriminate | reflexivity].
Qed.

Lemma streamChat_body_yields (b : Body) :
  yields (fst (streamChat_body decoder JSON_parse b)) =
  upto_done (parsed JSON_parse
               (complete_fragments (text_of decoder (dinit decoder) (chunks b)))).
Proof.
  unfold streamChat_body.
  pose proof (read_loop_yields (chunks b) (ending b) (dinit decoder) [] eq_refl) as H.
  destruct (read_loop decoder JSON_parse (dinit decoder) [] (chunks b) (ending b)).
  cbn [fst] in *. rewrite yields_app, H. cbn. apply app_nil_r.
Qed.

Lemma streamChat_body_completion (b : Body) :
  snd (streamChat_body decoder JSON_parse b) =
  if has_done (parsed JSON_parse
                 (complete_fragments (text_of decoder (dinit decoder) (chunks b))))
  then Return
  else match ending b with ReadDone => Return | ReadReject x => Throw x end.
Proof.
  unfold streamChat_body.
  pose proof (read_loop_completion (chunks b) (ending b) (dinit decoder) [] eq_refl) as H.
  destruct (read_loop decoder JSON_parse (dinit decoder) [] (chunks b) (ending b)).
  exact H.
Qed.

Lemma streamChat_body_logged (b : Body) :
  logged (fst (streamChat_body decoder JSON_parse b)) =
  dropped JSON_parse
    (complete_fragments (text_of decoder (dinit decoder) (chunks b))).
Proof.
  unfold streamChat_body.
  pose proof (read_loop_logged (chunks b) (ending b) (dinit decoder) [] eq_refl) as H.
  destruct (read_loop decoder JSON_parse (dinit decoder) [] (chunks b) (ending b)).
  cbn [fst] in *. rewrite logged_app, H. cbn. apply app_nil_r.
Qed.

Lemma text_of_single (st : dstate decoder) (cs : list (list Z)) :
  text_of decoder st [List.concat cs] = text_of decoder st cs.
Proof. unfold text_of. cbn. rewrite app_nil_r. reflexivity. Qed.

(** C1.  Chunk-boundary independence: for every response, however its
    bytes are cut into chunks, [streamChat] yields the same events in the
    same order, and finishes in the same way, as when the same bytes arrive
    as one single chunk. *)
Theorem chunk_boundary_independence :
  forall (ok0 : bool) (line : jsstring) (cs : list (list Z)) (e : ReadEnd),
    let in_parts := Resolve (mkResponse ok0 line (Some (mkBody cs e))) in
    let at_once := Resolve (mkResponse ok0 line (Some (mkBody [List.concat cs] e))) in
    yields (fst (streamChat_response decoder JSON_parse in_parts)) =
    yields (fst (streamChat_response decoder JSON_parse at_once)) /\
    snd (streamChat_response decoder JSON_parse in_parts) =
    snd (streamChat_response decoder JSON_parse at_once).
Proof.
  intros ok0 line cs e. cbv zeta. unfold streamChat_response. cbn [ok body].
  destruct ok0; cbn [negb]; [|split; reflexivity].
  rewrite !streamChat_body_yields, !streamChat_body_completion.
  cbn [chunks ending]. rewrite text_of_single. split; reflexivity.
Qed.

(** C4.  A malformed fragment is not fatal: when the complete fragments of
    a stream are [pre], then a fragment [m] that carries the event prefix
    and does not parse, then [post], the decoder yields what it yields for
    [pre] followed by [post], so [m] is dropped and ends nothing; and
    unless a terminal event came before [m], it logs [m], yields every
    well-formed fragment before it and goes on with those after it, in
    order, up to the terminal event. *)
Theorem malformed_fragment_is_dropped :
  forall (b : Body) (pre post : list jsstring) (m : jsstring),
    complete_fragments (text_of decoder (dinit decoder) (chunks b))
      = pre ++ m :: post ->
    malformed JSON_parse m = true ->
    let t := fst (streamChat_body decoder JSON_parse b) in
    yields t = upto_done (parsed JSON_parse (pre ++ post)) /\
    snd (streamChat_body decoder JSON_parse b) =
      (if has_done (parsed JSON_parse (pre ++ post)) then Return
       else match ending b with ReadDone => Return | ReadReject x => Throw x end) /\
    (has_done (parsed JSON_parse pre) = false ->
     yields t = parsed JSON_parse pre ++ upto_done (parsed JSON_parse post) /\
     logged t = dropped JSON_parse pre ++ m :: dropped JSON_parse post).
Proof.
  intros b pre post m Hf Hm. cbv zeta.
  rewrite streamChat_body_yields, streamChat_body_logged,
    streamChat_body_completion, Hf.
  change (m :: post) with ([m] ++ post).
  rewrite !parsed_app, (parsed_malformed m Hm). cbn [app].
  split; [reflexivity|]. split; [reflexivity|]. intros Hd.
  rewrite upto_done_app, Hd, dropped_app, Hd.
  split; [reflexivity|]. f_equal.
  cbn [app dropped]. rewrite Hm.
  unfold malformed in Hm. unfold parse_fragment.
  destruct (JS.startsWith m data_prefix); [|discriminate].
  destruct (JSON_parse (JS.slice 6 m)); [discriminate | reflexivity].
Qed.

(** C5.  The terminal event ends the sequence: whenever a run of
    [streamChat] yields an event whose [done] field is true, nothing but
    the release of the reader follows it (no further event, no further
    read: all the reads of the run come before it), whatever is still
    buffered or queued, and the generator returns. *)
Theorem terminal_event_ends_sequence :
  forall (r : Outcome Response) (t1 t2 : list GenObs) (d : StreamChunk),
    fst (streamChat_response decoder JSON_parse r) = t1 ++ GYield d :: t2 ->
    done d = true ->
    t2 = [GReleaseLock] /\
    reads (fst (streamChat_response decoder JSON_parse r)) = reads t1 /\
    snd (streamChat_response decoder JSON_parse r) = Return.
Proof.
  intros r t1 t2 d H Hd.
  cut (t2 = [GReleaseLock] /\
       snd (streamChat_response decoder JSON_parse r) = Return).
  { intros [-> Hr]. rewrite H, reads_app. cbn. rewrite app_nil_r.
    repeat split. exact Hr. }
  assert (Hnil : forall c : Completion,
             fst (@nil GenObs, c) = t1 ++ GYield d :: t2 -> False).
  { intros c E. cbn in E. destruct t1; discriminate. }
  unfold streamChat_response in *.
  destruct r as [resp|x]; [|exfalso; exact (Hnil _ H)].
  destruct (negb (ok resp)); [exfalso; exact (Hnil _ H)|].
  destruct (body resp) as [b|]; [|exfalso; exact (Hnil _ H)].
  unfold streamChat_body in *.
  destruct (read_loop_shape (chunks b) (ending b) (dinit decoder) [])
    as [Hq | (t0 & d0 & Ht & Hd0 & Hq & Hc)];
    destruct (read_loop decoder JSON_parse (dinit decoder) [] (chunks b) (ending b))
      as [t c]; cbn [fst snd] in *.
  - exfalso.
    assert (Hq' : quiet (t ++ [GReleaseLock]) = true)
      by (rewrite quiet_app, Hq; reflexivity).
    rewrite (quiet_no_done _ _ _ _ Hq' H) in Hd. discriminate.
  - subst t c. rewrite <- app_assoc in H. cbn [app] in H.
    destruct (first_done_unique t0 [GReleaseLock] t1 t2 d0 d Hq eq_refl Hd H)
      as (_ & _ & ->).
    split; reflexivity.
Qed.

End StreamChat_facts.

(* ===================================================================== *)
(** * The store and the hook                                              *)
(* ===================================================================== *)

Lemma bind_resolve {A B} (m : M A) (k : A -> M B) (w w' : World) (a : A) :
  m w = (Resolve a, w') -> bind m k w = k a w'.
Proof. intros H. unfold bind. rewrite H. reflexivity. Qed.

Lemma persisted_app (l1 l2 : list Event) :
  persisted (l1 ++ l2) = persisted l1 ++ persisted l2.
Proof. induction l1 as [|[] l1 IH]; cbn; rewrite ?IH; reflexivity. Qed.

Lemma outbound_app (l1 l2 : list Event) :
  outbound (l1 ++ l2) = outbound l1 ++ outbound l2.
Proof. induction l1 as [|[] l1 IH]; cbn; rewrite ?IH; reflexivity. Qed.

Lemma states_app (l1 l2 : list Event) :
  states (l1 ++ l2) = states l1 ++ states l2.
Proof. induction l1 as [|[] l1 IH]; cbn; rewrite ?IH; reflexivity. Qed.

Lemma calm_nil (b : bool) : calm b [].
Proof. repeat split. constructor. Qed.

Lemma calm_app (b : bool) (l1 l2 : list Event) :
  calm b l1 -> calm b l2 -> calm b (l1 ++ l2).
Proof.
  intros (P1 & O1 & S1) (P2 & O2 & S2). unfold calm.
  rewrite persisted_app, outbound_app, states_app, P1, P2, O1, O2.
  repeat split. apply Forall_app. split; assumption.
Qed.

Lemma with_last_snoc (f : Message -> Message) (ms : list Message) (m : Message) :
  with_last f (ms ++ [m]) = ms ++ [f m].
Proof.
  unfold with_last. destruct (ms ++ [m]) eqn:E.
  - destruct ms; discriminate.
  - rewrite <- E. rewrite removelast_last, last_last. reflexivity.
Qed.

(** Symbolic execution: [proj] reads the fields of a world that is written
    out, [pure] runs the synchronous actions. *)
Ltac proj :=
  cbn [store messages isStreaming currentConversationId conversations
       isLoadingConversations abortControllerRef trace clock fst snd] in *.

Ltac pure :=
  cbv beta iota zeta delta
    [bind ret get set await throw ask console_error console_log newDate
     addMessage appendToLastMessage updateLastMessage setLastMessageImage
     setIsStreaming setConversationId clearMessages setMessages
     with_store with_event with_ref
     put_messages put_isStreaming put_conversationId put_conversations
     put_isLoadingConversations
     store messages isStreaming currentConversationId conversations
     isLoadingConversations abortControllerRef trace clock].

Ltac tidy := rewrite <- ?app_assoc; cbn [app].
Ltac tidy_in H := rewrite <- ?app_assoc in H; cbn [app] in H.

Ltac read_run :=
  cbn [persisted outbound states];
  repeat (rewrite ?persisted_app, ?outbound_app, ?states_app;
          cbn [persisted outbound states]).

Section Client_facts.

Variable decoder : TextDecoder.
Variable JSON_parse : jsstring -> option StreamChunk.
Variable env : Env.

(** A refresh of the summary cache always completes; it touches the cache
    and its loading flag only. *)
Lemma loadConversations_run (w : World) :
  exists l cs,
    loadConversations env w =
    (Resolve tt,
     mkWorld (mkChatState (messages (store w)) (isStreaming (store w))
                (currentConversationId (store w)) cs false)
       (abortControllerRef w) (trace w ++ l) (clock w)) /\
    calm (isStreaming (store w)) l.
Proof.
  unfold loadConversations, bind, try_catch, set, ask, await, console_error,
    with_store, with_event.
  cbn.
  destruct (api_list env _) as [cs|e]; cbn; rewrite <- !app_assoc; cbn [app].
  - eexists _, _. split; [reflexivity|].
    repeat split. cbn. repeat constructor.
  - eexists _, _. split; [reflexivity|].
    repeat split. cbn. repeat constructor.
Qed.

(** [saveMessage] always completes; it hands the message to storage exactly
    when there is a current conversation, and touches the summary cache
    only. *)
Lemma saveMessage_run (m : Message) (w : World) :
  exists l cs b,
    saveMessage env m w =
    (Resolve tt,
     mkWorld (mkChatState (messages (store w)) (isStreaming (store w))
                (currentConversationId (store w)) cs b)
       (abortControllerRef w) (trace w ++ l) (clock w)) /\
    stretch (isStreaming (store w))
      (saved_to (currentConversationId (store w)) m) l.
Proof.
  destruct w as [[ms str cid cs0 b0] ref tr ck].
  unfold saveMessage, saved_to. pure.
  destruct cid as [c|].
  - destruct (truthy_id (Some c)) eqn:Et; cbn [negb].
    + unfold try_catch. pure.
      destruct (api_addMessage env tr c (payload_of m)); pure.
      * destruct (loadConversations_run
                    (mkWorld (mkChatState ms str (Some c) cs0 b0) ref
                       (tr ++ [ApiAddMessage c (payload_of m)]) ck))
          as (l & cs & E & (P & O & S)).
        proj. rewrite E. rewrite <- app_assoc. cbn [app].
        eexists _, _, _. split; [reflexivity|].
        repeat split; cbn; rewrite ?P, ?O; try reflexivity. exact S.
      * rewrite <- app_assoc. cbn [app].
        eexists _, _, _. split; [reflexivity|].
        repeat split. cbn. constructor.
    + exists [], cs0, b0. rewrite app_nil_r. split; [reflexivity|].
      repeat split. constructor.
  - exists [], cs0, b0. rewrite app_nil_r. split; [reflexivity|].
    repeat split. constructor.
Qed.

(** [createConversation] on either answer of the storage collaborator. *)
Lemma createConversation_run (w : World) :
  match api_create env (trace w) with
  | Resolve conv =>
      exists l cs,
        createConversation env w =
        (Resolve (conv_id conv),
         mkWorld (mkChatState [] (isStreaming (store w))
                    (Some (conv_id conv)) cs false)
           (abortControllerRef w) (trace w ++ l) (clock w)) /\
        calm (isStreaming (store w)) l
  | Reject e =>
      createConversation env w =
      (Reject e,
       mkWorld (store w) (abortControllerRef w)
         (trace w ++ [ApiCreate;
                      ConsoleError (JS.lit "Failed to create conversation:")])
         (clock w))
  end.
Proof.
  destruct w as [[ms str cid cs0 b0] ref tr ck].
  unfold createConversation, try_catch. pure.
  destruct (api_create env tr) as [conv|e]; pure.
  - destruct (loadConversations_run
                (mkWorld (mkChatState ms str cid cs0 b0) ref
                   (tr ++ [ApiCreate]) ck))
      as (l & cs & E & (P & O & S)).
    proj. rewrite E. pure. rewrite <- !app_assoc. cbn [app].
    eexists _, _. split; [reflexivity|].
    unfold calm. cbn [persisted outbound states].
    rewrite persisted_app, outbound_app, states_app, P, O.
    repeat split. apply Forall_app. split; [exact S | repeat constructor].
  - rewrite <- app_assoc. reflexivity.
Qed.

(** The first part of [sendMessage]: with a current conversation nothing
    happens; without one a conversation is created, and a failure to create
    it is logged and not passed on. *)
Lemma ensureConversation_run (w : World) :
  if truthy_id (currentConversationId (store w)) then
    ensureConversation env w = (Resolve (currentConversationId (store w)), w)
  else
    match api_create env (trace w) with
    | Resolve conv =>
        exists l cs,
          ensureConversation env w =
          (Resolve (Some (conv_id conv)),
           mkWorld (mkChatState [] (isStreaming (store w))
                      (Some (conv_id conv)) cs false)
             (abortControllerRef w) (trace w ++ l) (clock w)) /\
          calm (isStreaming (store w)) l
    | Reject e =>
        ensureConversation env w =
        (Resolve (currentConversationId (store w)),
         mkWorld (store w) (abortControllerRef w)
           (trace w ++ [ApiCreate;
                        ConsoleError (JS.lit "Failed to create conversation:");
                        ConsoleError (JS.lit "Failed to create conversation:")])
           (clock w))
    end.
Proof.
  destruct w as [[ms str cid cs0 b0] ref tr ck].
  pose proof (createConversation_run
                (mkWorld (mkChatState ms str cid cs0 b0) ref tr ck)) as H.
  unfold ensureConversation. pure. proj.
  destruct (truthy_id cid); cbn [negb].
  - reflexivity.
  - unfold try_catch. pure.
    destruct (api_create env tr) as [conv|e].
    + destruct H as (l & cs & E & Hc). rewrite E.
      exists l, cs. split; [reflexivity | exact Hc].
    + rewrite H. pure. rewrite <- app_assoc. reflexivity.
Qed.

(** [generateImage]: the request is issued, and a successful answer is the
    result. *)
Lemma generateImage_run (prompt : jsstring) (w : World) :
  exists o,
    generateImage env prompt w =
    (o, mkWorld (store w) (abortControllerRef w)
          (trace w ++ [FetchImage (authorization env) prompt]) (clock w)) /\
    (forall d r,
        fetch_image env (trace w) prompt = Resolve (mkImageHttp true d (Resolve r)) ->
        o = Resolve r).
Proof.
  destruct w as [st ref tr ck].
  unfold generateImage. pure.
  destruct (fetch_image env tr prompt) as [[iok d j]|e].
  - cbn [image_ok image_detail image_json]. destruct iok; cbn [negb].
    + eexists. split; [reflexivity|]. intros d' r H.
      injection H as _ ->. reflexivity.
    + eexists. split; [reflexivity|]. intros d' r H. discriminate.
  - eexists. split; [reflexivity|]. intros d' r H. discriminate.
Qed.

(** [streamChat] within a turn: the request is issued and the generator
    runs on what is delivered. *)
Lemma streamChat_run (msgs : list Message) (model cid : option jsstring)
    (w : World) :
  abortControllerRef w = Some (mkAbortController false) ->
  let request :=
    mkChatRequest (map (fun m => (role m, content m)) msgs)
      (match model with Some m => m | None => default_model end) cid in
  exists a,
    streamChat decoder JSON_parse env msgs model cid w =
    (Resolve (streamChat_response decoder JSON_parse
                (delivered env (trace w) request)),
     mkWorld (store w) (Some a)
       (trace w ++ [FetchStream (authorization env) request]) (clock w)).
Proof.
  destruct w as [st ref tr ck]. intros Href. cbn [abortControllerRef] in Href.
  subst ref. cbv zeta. unfold streamChat, delivered, stopGeneration. pure.
  destruct (user_stop env); pure; cbn [aborted interrupt];
    eexists; reflexivity.
Qed.

Lemma set_content_twice (s1 s2 : jsstring) (m : Message) :
  set_content s2 (set_content s1 m) = set_content s2 m.
Proof. reflexivity. Qed.

Lemma set_content_same (m : Message) : set_content (content m) m = m.
Proof. destruct m. reflexivity. Qed.

(** The [for await] loop: the text of the events taken is appended to the
    last message, and nothing else changes. *)
Lemma for_await_run (evs : list StreamChunk) (c : Completion) :
  forall (fullResponse : jsstring) (ms : list Message) (a : Message)
         (str : bool) (cid : option Z) (cs : list Conversation) (b : bool)
         (ref : option AbortController) (tr : list Event) (ck : nat),
  exists l,
    for_await evs c fullResponse
      (mkWorld (mkChatState (ms ++ [a]) str cid cs b) ref tr ck) =
    (match loop_end evs c with
     | Return => Resolve (fullResponse ++ text_of_events (taken evs))
     | Throw e => Reject e
     end,
     mkWorld (mkChatState
                (ms ++ [set_content (content a ++ text_of_events (taken evs)) a])
                str cid cs b) ref (tr ++ l) ck) /\
    calm str l.
Proof.
  induction evs as [|ch evs IH]; intros full ms a str cid cs b ref tr ck.
  - exists []. cbn [for_await loop_end taken text_of_events map List.concat].
    rewrite !app_nil_r, set_content_same. split; [|apply calm_nil].
    destruct c; reflexivity.
  - cbn [for_await loop_end taken].
    destruct (JS.truthy_opt (error ch)); cbn [orb].
    + exists []. cbn [text_of_events map List.concat].
      rewrite !app_nil_r, set_content_same. split; [reflexivity | apply calm_nil].
    + destruct (done ch).
      * exists []. cbn [text_of_events map List.concat].
        rewrite !app_nil_r, set_content_same.
        split; [reflexivity | apply calm_nil].
      * pure. rewrite with_last_snoc.
        destruct (IH (full ++ chunk_content ch) ms
                    (set_content (content a ++ chunk_content ch) a)
                    str cid cs b ref
                    (tr ++ [StoreSet
                              (mkChatState
                                 (ms ++ [set_content (content a ++ chunk_content ch) a])
                                 str cid cs b)]) ck)
          as (l & E & Hc).
        rewrite E. clear E.
        eexists (_ :: l). rewrite <- !app_assoc. cbn [app].
        unfold text_of_events. cbn [map List.concat].
        fold (text_of_events (taken evs)).
        cbn [content set_content]. rewrite set_content_twice, !app_assoc.
        split; [reflexivity|].
        destruct Hc as (P & O & S). repeat split; cbn; try assumption.
        constructor; [reflexivity | exact S].
Qed.

(** The regular chat flow, from any state of the store. *)
Lemma textPath_run (c : jsstring) (convId : option Z)
    (ms : list Message) (str : bool) (cid : option Z)
    (cs : list Conversation) (b : bool) (ref : option AbortController)
    (tr : list Event) (ck : nat) :
  let userMessage := mkMessage None user c None (Some (now env ck)) in
  let placeholder := mkMessage None assistant [] None (Some (now env (S ck))) in
  let request :=
    mkChatRequest (map (fun m => (role m, content m)) (ms ++ [userMessage]))
      default_model (conversationId_param convId) in
  exists h l cs' b' ck',
    let g := streamChat_response decoder JSON_parse (delivered env h request) in
    textPath decoder JSON_parse env c convId
      (mkWorld (mkChatState ms str cid cs b) ref tr ck) =
    (Resolve tt,
     mkWorld (mkChatState
                (ms ++ [userMessage;
                        set_content (reply (yields (fst g)) (snd g)) placeholder])
                false cid cs' b')
       None (tr ++ l) ck') /\
    persisted l =
      saved_to cid userMessage ++ reply_saved cid (yields (fst g)) (snd g) /\
    outbound l = [FetchStream (authorization env) request] /\
    exists st,
      In st (states l) /\
      messages st = ms ++ [userMessage; placeholder] /\ isStreaming st = true.
Proof.
  intros userMessage placeholder request.
  unfold textPath. pure. fold userMessage. fold placeholder.
  destruct (saveMessage_run userMessage
              (mkWorld (mkChatState (ms ++ [userMessage]) str cid cs b) ref
                 (tr ++ [StoreSet (mkChatState (ms ++ [userMessage]) str cid cs b)])
                 (S ck)))
    as (l1 & cs1 & b1 & E1 & (P1 & O1 & S1)).
  proj. rewrite E1. clear E1. pure.
  unfold try_finally, try_catch, consumeStream. pure.
  fold placeholder. rewrite removelast_last.
  match goal with
  | |- context [streamChat _ _ _ ?m ?mo ?ci ?w] =>
      destruct (streamChat_run m mo ci w eq_refl) as (a & E2)
  end.
  cbv zeta in E2. proj. fold request in E2. rewrite E2. clear E2.
  match goal with
  | |- context [delivered env ?h request] => exists h; set (g := streamChat_response decoder JSON_parse (delivered env h request))
  end.
  match goal with
  | |- context [for_await ?evs ?c ?f (mkWorld (mkChatState (?ms' ++ [?x]) ?s ?i ?cs0 ?b0) ?r ?t ?k)] =>
      destruct (for_await_run evs c f ms' x s i cs0 b0 r t k) as (l2 & E3 & (P2 & O2 & S2))
  end.
  rewrite E3. clear E3.
  unfold reply, reply_saved, endOfTurn, onStreamError.
  cbn [content placeholder]. cbn [app].
  destruct (loop_end (yields (fst g)) (snd g)) as [|e] eqn:El.
  - destruct (JS.truthy (text_of_events (taken (yields (fst g))))) eqn:Et.
    + pure.
      match goal with
      | |- context [saveMessage env ?m ?w] =>
          destruct (saveMessage_run m w) as (l3 & cs3 & b3 & E4 & (P3 & O3 & S3))
      end.
      proj. rewrite E4. clear E4. pure.
      rewrite <- !app_assoc. cbn [app]. rewrite app_nil_r.
      eexists _, _, _, _. split; [reflexivity|].
      cbn [persisted outbound states].
      rewrite ?persisted_app, ?outbound_app, ?states_app.
      cbn [persisted outbound states].
      rewrite ?persisted_app, ?outbound_app, ?states_app.
      cbn [persisted outbound states].
      rewrite P1, P2, P3, O1, O2, O3. cbn [app].
      split; [rewrite app_nil_r; reflexivity|]. split; [reflexivity|].
      eexists.
      split; [apply in_cons, in_or_app; right; apply in_cons, in_eq|].
      split; reflexivity.
    + pure.
      rewrite <- !app_assoc. cbn [app]. rewrite app_nil_r.
      eexists _, _, _, _. split; [reflexivity|].
      cbn [persisted outbound states].
      rewrite ?persisted_app, ?outbound_app, ?states_app.
      cbn [persisted outbound states].
      rewrite ?persisted_app, ?outbound_app, ?states_app.
      cbn [persisted outbound states].
      rewrite P1, P2, O1, O2. cbn [app].
      split; [reflexivity|]. split; [reflexivity|].
      eexists.
      split; [apply in_cons, in_or_app; right; apply in_cons, in_eq|].
      split; reflexivity.
  - destruct (is_abort e); pure.
    + rewrite <- !app_assoc. cbn [app]. rewrite app_nil_r.
      eexists _, _, _, _. split; [reflexivity|].
      cbn [persisted outbound states].
      rewrite ?persisted_app, ?outbound_app, ?states_app.
      cbn [persisted outbound states].
      rewrite ?persisted_app, ?outbound_app, ?states_app.
      cbn [persisted outbound states].
      rewrite P1, P2, O1, O2. cbn [app].
      split; [reflexivity|]. split; [reflexivity|].
      eexists.
      split; [apply in_cons, in_or_app; right; apply in_cons, in_eq|].
      split; reflexivity.
    + rewrite with_last_snoc.
      rewrite <- !app_assoc. cbn [app].
      eexists _, _, _, _. split; [reflexivity|].
      cbn [persisted outbound states].
      rewrite ?persisted_app, ?outbound_app, ?states_app.
      cbn [persisted outbound states].
      rewrite ?persisted_app, ?outbound_app, ?states_app.
      cbn [persisted outbound states].
      rewrite P1, P2, O1, O2. cbn [app].
      split; [reflexivity|]. split; [reflexivity|].
      eexists.
      split; [apply in_cons, in_or_app; right; apply in_cons, in_eq|].
      split; reflexivity.
Qed.

(** The image path, from any state of the store: without a prompt only
    the usage warning is added; with one, the user message and a
    placeholder are added, the image is requested, and the placeholder
    becomes the result or the failure message. *)
Lemma imagePath_run (c : jsstring)
    (ms : list Message) (str : bool) (cid : option Z)
    (cs : list Conversation) (b : bool) (ref : option AbortController)
    (tr : list Event) (ck : nat) :
  let userMsg := mkMessage None user c None (Some (now env ck)) in
  let placeholder :=
    mkMessage None assistant generating None (Some (now env (S ck))) in
  let W := mkWorld (mkChatState ms str cid cs b) ref tr ck in
  if JS.truthy (prompt_of c) then
    exists h o l cs' b' ck',
      (forall d r,
          fetch_image env h (prompt_of c) = Resolve (mkImageHttp true d (Resolve r)) ->
          o = Resolve r) /\
      imagePath env c W =
      (Resolve tt,
       mkWorld (mkChatState
                  (ms ++ [userMsg;
                          match o with
                          | Resolve r =>
                              set_image (response_image r)
                                (set_content (here_is_your_image (prompt_of c))
                                   placeholder)
                          | Reject _ => set_content generation_failed placeholder
                          end])
                  false cid cs' b')
         ref (tr ++ l) ck') /\
      persisted l =
        saved_to cid userMsg ++
        match o with
        | Resolve r =>
            saved_to cid
              (mkMessage None assistant (here_is_your_image (prompt_of c))
                 (Some (response_image r)) None)
        | Reject _ => []
        end /\
      outbound l = [FetchImage (authorization env) (prompt_of c)] /\
      exists st,
        In st (states l) /\
        messages st = ms ++ [userMsg; placeholder] /\ isStreaming st = true
  else
    let warning := mkMessage None assistant usage_warning None (Some (now env ck)) in
    imagePath env c W =
    (Resolve tt,
     mkWorld (mkChatState (ms ++ [warning]) str cid cs b) ref
       (tr ++ [StoreSet (mkChatState (ms ++ [warning]) str cid cs b)]) (S ck)).
Proof.
  intros userMsg placeholder W. unfold W, imagePath.
  destruct (JS.truthy (prompt_of c)); cbn [negb]; [|reflexivity].
  pure. fold userMsg.
  match goal with
  | |- context [saveMessage env ?m ?w] =>
      destruct (saveMessage_run m w) as (l1 & cs1 & b1 & E1 & (P1 & O1 & S1))
  end.
  proj. rewrite E1. clear E1. pure. fold placeholder.
  unfold try_finally, try_catch. pure.
  match goal with
  | |- context [generateImage env ?p ?w] =>
      destruct (generateImage_run p w) as (o & E2 & Ho)
  end.
  proj. rewrite E2. clear E2.
  match type of Ho with
  | forall d r, fetch_image env ?h _ = _ -> _ => exists h, o
  end.
  destruct o as [r|e]; pure.
  - rewrite !with_last_snoc.
    match goal with
    | |- context [saveMessage env ?m ?w] =>
        destruct (saveMessage_run m w) as (l3 & cs3 & b3 & E3 & (P3 & O3 & S3))
    end.
    proj. rewrite E3. clear E3. pure.
    eexists _, _, _, _. split; [exact Ho|]. tidy. split; [reflexivity|].
    read_run. rewrite P1, P3, O1, O3. cbn [app].
    split; [rewrite app_nil_r; reflexivity|]. split; [reflexivity|].
    eexists.
    split; [apply in_cons, in_or_app; right; apply in_cons, in_eq|].
    split; reflexivity.
  - rewrite !with_last_snoc.
    eexists _, _, _, _. split; [exact Ho|]. tidy. split; [reflexivity|].
    read_run. rewrite P1, O1. cbn [app].
    split; [rewrite app_nil_r; reflexivity|]. split; [reflexivity|].
    eexists.
    split; [apply in_cons, in_or_app; right; apply in_cons, in_eq|].
    split; reflexivity.
Qed.

(** [sendMessage] is one of its two paths, run on the store as the first
    part leaves it. *)
Lemma sendMessage_run (c : jsstring)
    (ms : list Message) (str : bool) (cid : option Z)
    (cs : list Conversation) (b : bool) (ref : option AbortController)
    (tr : list Event) (ck : nat) :
  exists convId l0 ms1 cs1 b1,
    sendMessage decoder JSON_parse env c
      (mkWorld (mkChatState ms str cid cs b) ref tr ck) =
    (if isImageCommand c then imagePath env c
     else textPath decoder JSON_parse env c convId)
      (mkWorld (mkChatState ms1 str convId cs1 b1) ref (tr ++ l0) ck) /\
    calm str l0 /\
    (if truthy_id cid then convId = cid /\ ms1 = ms /\ l0 = []
     else
       match api_create env tr with
       | Resolve conv => convId = Some (conv_id conv) /\ ms1 = []
       | Reject _ => convId = cid /\ ms1 = ms
       end).
Proof.
  pose proof (ensureConversation_run
                (mkWorld (mkChatState ms str cid cs b) ref tr ck)) as H.
  proj. unfold sendMessage.
  destruct (truthy_id cid).
  - rewrite (bind_resolve _ _ _ _ _ H).
    exists cid, [], ms, cs, b. rewrite app_nil_r.
    split; [destruct (isImageCommand c); reflexivity|].
    split; [apply calm_nil | repeat split].
  - destruct (api_create env tr) as [conv|e].
    + destruct H as (l & cs1 & E & Hc).
      rewrite (bind_resolve _ _ _ _ _ E).
      exists (Some (conv_id conv)), l, [], cs1, false.
      split; [destruct (isImageCommand c); reflexivity|].
      split; [exact Hc | repeat split].
    + rewrite (bind_resolve _ _ _ _ _ H).
      eexists cid, _, ms, cs, b.
      split; [destruct (isImageCommand c); reflexivity|].
      split; [|repeat split].
      repeat split. cbn. constructor.
Qed.

(** C8.  [saveMessage] without a current conversation is a no-op: it
    returns normally and leaves the whole world as it is, so no request is
    issued, nothing is logged and no field of the store changes. *)
Theorem saveMessage_without_conversation :
  forall (m : Message) (w : World),
    currentConversationId (store w) = None ->
    saveMessage env m w = (Resolve tt, w).
Proof.
  intros m [[ms str cid cs b] ref tr ck] H. cbn in H. subst cid. reflexivity.
Qed.

Lemma deleteConversation_run (i : Z) (ms : list Message) (str : bool)
    (cs : list Conversation) (b : bool) (ref : option AbortController)
    (tr : list Event) (ck : nat) :
  api_delete env tr i = Resolve tt ->
  let cleared := mkChatState [] str None cs b in
  let loading := mkChatState [] str None cs true in
  deleteConversation env i (mkWorld (mkChatState ms str (Some i) cs b) ref tr ck) =
  (Resolve tt,
   match api_list env (tr ++ [ApiDelete i; StoreSet cleared; StoreSet loading]) with
   | Resolve cs' =>
       mkWorld (mkChatState [] str None cs' false) ref
         (tr ++ [ApiDelete i; StoreSet cleared; StoreSet loading; ApiList;
                 StoreSet (mkChatState [] str None cs' false)]) ck
   | Reject _ =>
       mkWorld (mkChatState [] str None cs false) ref
         (tr ++ [ApiDelete i; StoreSet cleared; StoreSet loading; ApiList;
                 ConsoleError (JS.lit "Failed to load conversations:");
                 StoreSet (mkChatState [] str None cs false)]) ck
   end).
Proof.
  intros Hd cleared loading. subst cleared loading.
  unfold deleteConversation, try_catch. pure. rewrite Hd, Z.eqb_refl.
  unfold loadConversations, try_catch. pure. tidy.
  destruct (api_list env _); pure; tidy; reflexivity.
Qed.

(** C9.  Deleting the current conversation: once storage has deleted it,
    the message list and the current id are cleared in one transition of
    the store, then the summary list is requested from storage, and when
    that request succeeds the list is what storage answered. *)
Theorem deleteConversation_current :
  forall (i : Z) (w : World),
    currentConversationId (store w) = Some i ->
    api_delete env (trace w) i = Resolve tt ->
    exists w' cleared l,
      deleteConversation env i w = (Resolve tt, w') /\
      messages (store w') = [] /\
      currentConversationId (store w') = None /\
      messages cleared = [] /\
      currentConversationId cleared = None /\
      trace w' =
        trace w ++ ApiDelete i :: StoreSet cleared
                :: StoreSet (put_isLoadingConversations true cleared)
                :: ApiList :: l /\
      (forall cs,
          api_list env
            (trace w ++ [ApiDelete i; StoreSet cleared;
                         StoreSet (put_isLoadingConversations true cleared)])
            = Resolve cs ->
          conversations (store w') = cs /\
          isLoadingConversations (store w') = false).
Proof.
  intros i [[ms str cid cs b] ref tr ck] Hc Hd. proj. subst cid.
  rewrite (deleteConversation_run i ms str cs b ref tr ck Hd).
  exists (match api_list env
                  (tr ++ [ApiDelete i; StoreSet (mkChatState [] str None cs b);
                          StoreSet (mkChatState [] str None cs true)]) with
          | Resolve cs' =>
              mkWorld (mkChatState [] str None cs' false) ref
                (tr ++ [ApiDelete i; StoreSet (mkChatState [] str None cs b);
                        StoreSet (mkChatState [] str None cs true); ApiList;
                        StoreSet (mkChatState [] str None cs' false)]) ck
          | Reject _ =>
              mkWorld (mkChatState [] str None cs false) ref
                (tr ++ [ApiDelete i; StoreSet (mkChatState [] str None cs b);
                        StoreSet (mkChatState [] str None cs true); ApiList;
                        ConsoleError (JS.lit "Failed to load conversations:");
                        StoreSet (mkChatState [] str None cs false)]) ck
          end),
    (mkChatState [] str None cs b).
  unfold put_isLoadingConversations. proj.
  destruct (api_list env _) as [cs'|e]; eexists; proj.
  - do 6 (split; [reflexivity|]).
    intros cs'' H. injection H as <-. split; reflexivity.
  - do 6 (split; [reflexivity|]).
    intros cs'' H. discriminate.
Qed.

Lemma saved_to_current (cid : Z) (m : Message) :
  cid <> 0 -> saved_to (Some cid) m = [(cid, payload_of m)].
Proof.
  intros H. unfold saved_to, truthy_id.
  destruct (Z.eqb_spec cid 0); [contradiction | reflexivity].
Qed.

(** Stopping the generation cuts the generator of the turn: it yields what
    the chunks delivered so far hold and then fails with an [AbortError]. *)
Lemma stop_cuts_generator (h : list Event) (request : ChatRequest)
    (resp : Response) (b : Body) (k : nat) :
  user_stop env = StopDuringRead k ->
  fetch_stream env h request = Resolve resp ->
  ok resp = true ->
  body resp = Some b ->
  let before :=
    parsed JSON_parse
      (complete_fragments (text_of decoder (dinit decoder) (firstn k (chunks b)))) in
  has_done before = false ->
  yields (fst (generator decoder JSON_parse env h request)) = before /\
  snd (generator decoder JSON_parse env h request) = Throw AbortError.
Proof.
  intros Hs Hf Hok Hb before Hd.
  unfold generator, delivered. rewrite Hs, Hf. cbn [interrupt].
  unfold streamChat_response. cbn [ok body]. rewrite Hok, Hb. cbn [negb option_map].
  rewrite streamChat_body_yields, streamChat_body_completion. cbn [chunks ending].
  fold before. rewrite Hd, upto_done_no_done by exact Hd.
  split; reflexivity.
Qed.

Lemma stop_during_fetch (h : list Event) (request : ChatRequest) :
  user_stop env = StopDuringFetch ->
  generator decoder JSON_parse env h request = ([], Throw AbortError).
Proof.
  intros Hs. unfold generator, delivered. rewrite Hs. reflexivity.
Qed.

Lemma plain_taken (evs : list StreamChunk) (c : Completion) :
  forallb plain evs = true -> taken evs = evs /\ loop_end evs c = c.
Proof.
  induction evs as [|ch evs IH]; cbn [forallb taken loop_end]; intros H.
  - split; reflexivity.
  - apply andb_true_iff in H. destruct H as [Hp H].
    unfold plain in Hp. apply andb_true_iff in Hp. destruct Hp as [He Hd].
    apply negb_true_iff in He, Hd. rewrite He, Hd. cbn [orb].
    destruct (IH H) as [-> ->]. split; reflexivity.
Qed.

(** C2.  Round trip of the text path: when the decoder yields exactly the
    events "Hel", "lo" and the terminal one, the turn ends normally with
    the placeholder holding exactly "Hello", with "Hello" handed to
    [saveMessage] after the user message (so it reaches storage whenever
    there is a current conversation), and with the streaming flag off. *)
Theorem text_round_trip :
  forall (c : jsstring) (w : World),
    isImageCommand c = false ->
    (forall h request,
        yields (fst (generator decoder JSON_parse env h request)) =
        [mkStreamChunk (JS.lit "Hel") false None;
         mkStreamChunk (JS.lit "lo") false None;
         mkStreamChunk [] true None]) ->
    exists w' l ms t t',
      sendMessage decoder JSON_parse env c w = (Resolve tt, w') /\
      messages (store w') =
        ms ++ [user_message c t; assistant_message (JS.lit "Hello") None t'] /\
      isStreaming (store w') = false /\
      abortControllerRef w' = None /\
      trace w' = trace w ++ l /\
      persisted l =
        saved_to (currentConversationId (store w')) (user_message c t) ++
        saved_to (currentConversationId (store w'))
          (assistant_message (JS.lit "Hello") None t') /\
      (forall n,
          currentConversationId (store w') = Some n -> n <> 0 ->
          persisted l =
            [(n, mkStoredMessage user c None);
             (n, mkStoredMessage assistant (JS.lit "Hello") None)]).
Proof.
  intros c [[ms str cid cs b] ref tr ck] Hc Hev.
  destruct (sendMessage_run c ms str cid cs b ref tr ck)
    as (convId & l0 & ms1 & cs1 & b1 & E & (P0 & _) & _).
  rewrite Hc in E.
  destruct (textPath_run c convId ms1 str convId cs1 b1 ref (tr ++ l0) ck)
    as (h & l & cs' & b' & ck' & Et & P & _).
  cbv zeta in Et, P. unfold generator in Hev.
  rewrite Hev in Et, P. rewrite Et in E. clear Et.
  rewrite <- app_assoc in E.
  eexists _, (l0 ++ l), ms1, _, _. split; [exact E|]. proj.
  rewrite persisted_app, P0, P.
  match goal with
  | |- context [reply_saved ?i ?e ?x] =>
      change (reply_saved i e x)
        with (saved_to i (assistant_message (JS.lit "Hello") None 0))
  end.
  do 5 (split; [reflexivity|]).
  intros n -> Hn. rewrite !saved_to_current by exact Hn. reflexivity.
Qed.

(** C3.  Cancellation is clean and silent: when the generator of a text
    turn is cut by an abort while the loop is still taking plain events,
    the turn ends normally; the placeholder holds exactly the text appended
    so far and no error notice, the messages before it are as they were,
    only the user message was handed to storage, the streaming flag is off
    and the cancellation handle is released. *)
Theorem cancellation_is_silent :
  forall (c : jsstring) (w : World) (evs : list StreamChunk),
    isImageCommand c = false ->
    (forall h request,
        yields (fst (generator decoder JSON_parse env h request)) = evs /\
        snd (generator decoder JSON_parse env h request) = Throw AbortError) ->
    forallb plain evs = true ->
    exists w' l ms t t',
      sendMessage decoder JSON_parse env c w = (Resolve tt, w') /\
      messages (store w') =
        ms ++ [user_message c t; assistant_message (text_of_events evs) None t'] /\
      (ms = messages (store w) \/ ms = []) /\
      isStreaming (store w') = false /\
      abortControllerRef w' = None /\
      trace w' = trace w ++ l /\
      persisted l =
        saved_to (currentConversationId (store w')) (user_message c t).
Proof.
  intros c [[ms str cid cs b] ref tr ck] evs Hc Hev Hplain.
  destruct (sendMessage_run c ms str cid cs b ref tr ck)
    as (convId & l0 & ms1 & cs1 & b1 & E & (P0 & _) & Hcase).
  rewrite Hc in E.
  destruct (textPath_run c convId ms1 str convId cs1 b1 ref (tr ++ l0) ck)
    as (h & l & cs' & b' & ck' & Et & P & _).
  cbv zeta in Et, P. unfold generator in Hev.
  match type of Et with
  | context [delivered env h ?rq] => destruct (Hev h rq) as [Hy Hs]
  end.
  rewrite Hy, Hs in Et, P. clear Hy Hs.
  unfold reply in Et. unfold reply_saved in P.
  destruct (plain_taken evs (Throw AbortError) Hplain) as [Ht Hl].
  rewrite Ht, Hl in Et. rewrite Hl in P. cbn [is_abort] in Et.
  rewrite !app_nil_r in Et. rewrite app_nil_r in P.
  rewrite Et in E. clear Et. rewrite <- app_assoc in E.
  eexists _, (l0 ++ l), ms1, _, _. split; [exact E|]. proj.
  rewrite persisted_app, P0, P.
  split; [reflexivity|]. split.
  { destruct (truthy_id cid); [left; apply Hcase|].
    destruct (api_create env tr); [right | left]; apply Hcase. }
  repeat split.
Qed.

(** C7.  A failure to create the conversation does not stop the turn:
    [createConversation] passes the failure on, [sendMessage] does not; the
    conversation id stays null and nothing is handed to storage; and on the
    text path the user message and the assistant placeholder are added to
    the list as it was, and the stream is requested once, for the history
    up to the user message and with a null conversation id. *)
Theorem creation_failure_is_best_effort :
  forall (c : jsstring) (w : World) (e : Exn),
    currentConversationId (store w) = None ->
    api_create env (trace w) = Reject e ->
    fst (createConversation env w) = Reject e /\
    exists w' l,
      sendMessage decoder JSON_parse env c w = (Resolve tt, w') /\
      currentConversationId (store w') = None /\
      trace w' = trace w ++ l /\
      persisted l = [] /\
      (isImageCommand c = false ->
       exists t t' reply,
         messages (store w') =
           messages (store w) ++
           [user_message c t; assistant_message reply None t'] /\
         outbound l =
           [FetchStream (authorization env)
              (mkChatRequest
                 (map (fun m => (role m, content m))
                    (messages (store w) ++ [user_message c t]))
                 default_model None)]).
Proof.
  intros c [[ms str cid cs b] ref tr ck] e Hn Hcreate. proj. subst cid.
  split.
  { pose proof (createConversation_run
                  (mkWorld (mkChatState ms str None cs b) ref tr ck)) as H.
    proj. rewrite Hcreate in H. rewrite H. reflexivity. }
  destruct (sendMessage_run c ms str None cs b ref tr ck)
    as (convId & l0 & ms1 & cs1 & b1 & E & (P0 & O0 & _) & Hcase).
  cbn [truthy_id] in Hcase. rewrite Hcreate in Hcase.
  destruct Hcase as [-> ->].
  destruct (isImageCommand c).
  - pose proof (imagePath_run c ms str None cs1 b1 ref (tr ++ l0) ck) as Hi.
    cbv zeta in Hi.
    destruct (JS.truthy (prompt_of c)).
    + destruct Hi as (h & o & l & cs' & b' & ck' & _ & Ei & P & _).
      rewrite Ei in E. clear Ei. rewrite <- app_assoc in E.
      eexists _, (l0 ++ l). split; [exact E|]. proj.
      rewrite persisted_app, P0, P.
      repeat split; [destruct o; reflexivity | discriminate].
    + rewrite Hi in E. clear Hi. rewrite <- app_assoc in E.
      eexists _, _. split; [exact E|]. proj.
      rewrite persisted_app, P0.
      repeat split. discriminate.
  - destruct (textPath_run c None ms str None cs1 b1 ref (tr ++ l0) ck)
      as (h & l & cs' & b' & ck' & Et & P & O & _).
    cbv zeta in Et, P, O.
    rewrite Et in E. clear Et. rewrite <- app_assoc in E.
    eexists _, (l0 ++ l). split; [exact E|]. proj.
    rewrite persisted_app, P0, P.
    split; [reflexivity|]. split; [reflexivity|]. split.
    { unfold reply_saved.
      destruct (loop_end _ _); [|reflexivity].
      destruct (JS.truthy _); reflexivity. }
    intros _. eexists _, _, _. split; [reflexivity|].
    rewrite outbound_app, O, O0. reflexivity.
Qed.


(** What the code does for an image command without a prompt: the usage
    warning is the one message added; no message is persisted, no
    generation is requested and the streaming flag is not touched. *)
Lemma empty_prompt_only_warns (c : jsstring) (w : World) :
  isImageCommand c = true ->
  prompt_of c = [] ->
  exists w' l ms t,
    sendMessage decoder JSON_parse env c w = (Resolve tt, w') /\
    messages (store w') = ms ++ [assistant_message usage_warning None t] /\
    (ms = messages (store w) \/ ms = []) /\
    trace w' = trace w ++ l /\
    calm (isStreaming (store w)) l.
Proof.
  destruct w as [[ms str cid cs b] ref tr ck]. intros Hc Hp. proj.
  destruct (sendMessage_run c ms str cid cs b ref tr ck)
    as (convId & l0 & ms1 & cs1 & b1 & E & Hcalm & Hcase).
  rewrite Hc in E.
  pose proof (imagePath_run c ms1 str convId cs1 b1 ref (tr ++ l0) ck) as Hi.
  cbv zeta in Hi. rewrite Hp in Hi. cbn [JS.truthy] in Hi.
  rewrite Hi in E. clear Hi. rewrite <- app_assoc in E.
  eexists _, _, ms1, _. split; [exact E|]. proj.
  split; [reflexivity|]. split.
  { destruct (truthy_id cid); [left; apply Hcase|].
    destruct (api_create env tr); [right | left]; apply Hcase. }
  split; [reflexivity|].
  apply calm_app; [exact Hcalm|].
  repeat split. cbn. repeat constructor.
Qed.

(** [sendMessage] called with white space before the command: the input
    " /imagine" passes the test for the image command, which trims, but the
    expression that removes the command is anchored at the start of the
    text as it is, so the command stays and becomes the prompt.  The
    callers of [sendMessage] never hand it such a text: the input trims
    what was typed and the suggestions are fixed texts. *)
Theorem imagine_after_leading_space :
  forall (w : World),
    isImageCommand (JS.lit " /imagine") = true /\
    JS.trim (JS.lit " /imagine") = imagine /\
    prompt_of (JS.lit " /imagine") = imagine /\
    exists w' l ms t m st,
      sendMessage decoder JSON_parse env (JS.lit " /imagine") w =
        (Resolve tt, w') /\
      messages (store w') = ms ++ [user_message (JS.lit " /imagine") t; m] /\
      trace w' = trace w ++ l /\
      outbound l = [FetchImage (authorization env) imagine] /\
      In st (states l) /\ isStreaming st = true.
Proof.
  intros [[ms str cid cs b] ref tr ck].
  split; [reflexivity|]. split; [reflexivity|]. split; [reflexivity|]. proj.
  destruct (sendMessage_run (JS.lit " /imagine") ms str cid cs b ref tr ck)
    as (convId & l0 & ms1 & cs1 & b1 & E & (P0 & O0 & _) & _).
  change (isImageCommand (JS.lit " /imagine")) with true in E.
  cbv iota in E.
  pose proof (imagePath_run (JS.lit " /imagine") ms1 str convId cs1 b1
                ref (tr ++ l0) ck) as Hi.
  cbv zeta in Hi.
  change (prompt_of (JS.lit " /imagine")) with imagine in Hi.
  change (JS.truthy imagine) with true in Hi.
  destruct Hi as (h & o & l & cs' & b' & ck' & _ & Ei & _ & O & st & Hin & _ & Hs).
  rewrite Ei in E. clear Ei. rewrite <- app_assoc in E.
  eexists _, (l0 ++ l), ms1, _, _, st. split; [exact E|]. proj.
  rewrite outbound_app, states_app, O0, O.
  do 3 (split; [reflexivity|]).
  split; [apply in_or_app; right; exact Hin | exact Hs].
Qed.

End Client_facts.

(* ===================================================================== *)
(** * The model at work                                                   *)
(* ===================================================================== *)

(** A character cut between two chunks is decoded once both have arrived. *)
Example sparkles_across_chunks :
  let (st, first) := decode Utf8.decoder (Utf8.reset false) [226; 156] in
  first = [] /\ snd (decode Utf8.decoder st [168]) = [10024].
Proof. vm_compute. split; reflexivity. Qed.

Example wire_round_trip :
  Wire.parse (Wire.stringify Scenario.hel) = Some Scenario.hel /\
  Wire.parse (JS.slice 6 Scenario.truncated) = None.
Proof. vm_compute. split; reflexivity. Qed.

Example hello_is_streamed :
  yields (fst (streamChat_body Utf8.decoder Wire.parse Scenario.hello)) =
  [Scenario.hel; Scenario.lo; Scenario.fin].
Proof. vm_compute. reflexivity. Qed.

Example a_turn_from_scratch :
  let w := snd (sendMessage Utf8.decoder Wire.parse Scenario.env (JS.lit "hi")
                  Scenario.fresh) in
  map content (messages (store w)) = [JS.lit "hi"; JS.lit "Hello"] /\
  persisted (trace w) =
    [(7, mkStoredMessage user (JS.lit "hi") None);
     (7, mkStoredMessage assistant (JS.lit "Hello") None)].
Proof. vm_compute. split; reflexivity. Qed.

(** [stopGeneration] outside a turn does nothing. *)
Example stop_without_turn :
  stopGeneration Scenario.fresh = (Resolve tt, Scenario.fresh).
Proof. reflexivity. Qed.

(* ===================================================================== *)
(** * The claims on concrete runs                                         *)
(* ===================================================================== *)

Lemma text_round_trip_witness :
  isImageCommand (JS.lit "hi") = false /\
  exists w' l ms t t',
    sendMessage Utf8.decoder Wire.parse Scenario.env (JS.lit "hi") Scenario.fresh =
      (Resolve tt, w') /\
    messages (store w') =
      ms ++ [user_message (JS.lit "hi") t;
             assistant_message (JS.lit "Hello") None t'] /\
    isStreaming (store w') = false /\
    abortControllerRef w' = None /\
    trace w' = trace Scenario.fresh ++ l /\
    persisted l =
      saved_to (currentConversationId (store w')) (user_message (JS.lit "hi") t) ++
      saved_to (currentConversationId (store w'))
        (assistant_message (JS.lit "Hello") None t') /\
    (forall n,
        currentConversationId (store w') = Some n -> n <> 0 ->
        persisted l =
          [(n, mkStoredMessage user (JS.lit "hi") None);
           (n, mkStoredMessage assistant (JS.lit "Hello") None)]).
Proof.
  split; [reflexivity|].
  apply (text_round_trip Utf8.decoder Wire.parse Scenario.env
           (JS.lit "hi") Scenario.fresh).
  - reflexivity.
  - intros h request. vm_compute. reflexivity.
Defined.

Lemma cancellation_is_silent_witness :
  forallb plain [Scenario.hel] = true /\
  exists w' l ms t t',
    sendMessage Utf8.decoder Wire.parse Scenario.env_stopped (JS.lit "hi")
      Scenario.fresh = (Resolve tt, w') /\
    messages (store w') =
      ms ++ [user_message (JS.lit "hi") t;
             assistant_message (text_of_events [Scenario.hel]) None t'] /\
    (ms = messages (store Scenario.fresh) \/ ms = []) /\
    isStreaming (store w') = false /\
    abortControllerRef w' = None /\
    trace w' = trace Scenario.fresh ++ l /\
    persisted l =
      saved_to (currentConversationId (store w')) (user_message (JS.lit "hi") t).
Proof.
  split; [reflexivity|].
  apply (cancellation_is_silent Utf8.decoder Wire.parse Scenario.env_stopped
           (JS.lit "hi") Scenario.fresh [Scenario.hel]).
  - reflexivity.
  - intros h request. vm_compute. split; reflexivity.
  - reflexivity.
Defined.

Lemma malformed_fragment_is_dropped_witness :
  let pre := [data_prefix ++ Wire.stringify Scenario.hel] in
  let post := [data_prefix ++ Wire.stringify Scenario.lo] in
  let t := fst (streamChat_body Utf8.decoder Wire.parse Scenario.broken) in
  malformed Wire.parse Scenario.truncated = true /\
  yields t = [Scenario.hel; Scenario.lo] /\
  logged t = [Scenario.truncated].
Proof.
  cbv zeta.
  pose proof (malformed_fragment_is_dropped Utf8.decoder Wire.parse
                Scenario.broken
                [data_prefix ++ Wire.stringify Scenario.hel]
                [data_prefix ++ Wire.stringify Scenario.lo]
                Scenario.truncated
                ltac:(vm_compute; reflexivity) ltac:(vm_compute; reflexivity))
    as (_ & _ & H).
  destruct (H ltac:(vm_compute; reflexivity)) as [Hy Hl].
  split; [vm_compute; reflexivity|]. split.
  - rewrite Hy. vm_compute. reflexivity.
  - rewrite Hl. vm_compute. reflexivity.
Defined.

Lemma terminal_event_ends_sequence_witness :
  let run := streamChat_response Utf8.decoder Wire.parse
               (Scenario.streaming Scenario.overlong) in
  fst run =
    [GRead (Wire.block Scenario.hel ++ Wire.block Scenario.fin
            ++ Wire.block Scenario.lo);
     GYield Scenario.hel] ++ GYield Scenario.fin :: [GReleaseLock] /\
  done Scenario.fin = true /\
  snd run = Return.
Proof.
  cbv zeta.
  assert (H : fst (streamChat_response Utf8.decoder Wire.parse
                     (Scenario.streaming Scenario.overlong)) =
              [GRead (Wire.block Scenario.hel ++ Wire.block Scenario.fin
                      ++ Wire.block Scenario.lo);
               GYield Scenario.hel] ++ GYield Scenario.fin :: [GReleaseLock])
    by (vm_compute; reflexivity).
  split; [exact H|]. split; [reflexivity|].
  exact (proj2 (proj2 (terminal_event_ends_sequence Utf8.decoder Wire.parse
                         _ _ _ _ H eq_refl))).
Defined.


Lemma creation_failure_is_best_effort_witness :
  fst (createConversation Scenario.env_offline Scenario.fresh) =
    Reject (Error (JS.lit "Failed to fetch")) /\
  exists w' l,
    sendMessage Utf8.decoder Wire.parse Scenario.env_offline (JS.lit "hi")
      Scenario.fresh = (Resolve tt, w') /\
    currentConversationId (store w') = None /\
    trace w' = trace Scenario.fresh ++ l /\
    persisted l = [] /\
    (isImageCommand (JS.lit "hi") = false ->
     exists t t' reply,
       messages (store w') =
         messages (store Scenario.fresh) ++
         [user_message (JS.lit "hi") t; assistant_message reply None t'] /\
       outbound l =
         [FetchStream (authorization Scenario.env_offline)
            (mkChatRequest
               (map (fun m => (role m, content m))
                  (messages (store Scenario.fresh) ++ [user_message (JS.lit "hi") t]))
               default_model None)]).
Proof.
  apply (creation_failure_is_best_effort Utf8.decoder Wire.parse
           Scenario.env_offline (JS.lit "hi") Scenario.fresh
           (Error (JS.lit "Failed to fetch"))).
  - reflexivity.
  - reflexivity.
Defined.

Lemma saveMessage_without_conversation_witness :
  currentConversationId (store Scenario.fresh) = None /\
  saveMessage Scenario.env (user_message (JS.lit "hi") 0) Scenario.fresh =
    (Resolve tt, Scenario.fresh).
Proof.
  split; [reflexivity|].
  apply (saveMessage_without_conversation Scenario.env
           (user_message (JS.lit "hi") 0) Scenario.fresh).
  reflexivity.
Defined.

Lemma deleteConversation_current_witness :
  exists w' cleared l,
    deleteConversation Scenario.env 7 Scenario.in_conversation = (Resolve tt, w') /\
    messages (store w') = [] /\
    currentConversationId (store w') = None /\
    messages cleared = [] /\
    currentConversationId cleared = None /\
    trace w' =
      trace Scenario.in_conversation ++ ApiDelete 7 :: StoreSet cleared
        :: StoreSet (put_isLoadingConversations true cleared)
        :: ApiList :: l /\
    (forall cs,
        api_list Scenario.env
          (trace Scenario.in_conversation ++
           [ApiDelete 7; StoreSet cleared;
            StoreSet (put_isLoadingConversations true cleared)])
          = Resolve cs ->
        conversations (store w') = cs /\
        isLoadingConversations (store w') = false).
Proof.
  apply (deleteConversation_current Scenario.env 7 Scenario.in_conversation).
  - reflexivity.
  - reflexivity.
Defined.

(* ===================================================================== *)
(** * More about the transport decoder                                    *)
(* ===================================================================== *)

Lemma no_LF_app (a b : jsstring) : no_LF (a ++ b) = no_LF a && no_LF b.
Proof. apply forallb_app. Qed.

(** A text without line feed is one piece. *)
Lemma split_nn_no_LF (s : jsstring) : no_LF s = true -> JS.split_nn s = [s].
Proof.
  induction s as [|c s IH]; [reflexivity|].
  cbn [no_LF forallb]. intros H. apply andb_true_iff in H. destruct H as [Hc Hs].
  apply negb_true_iff in Hc.
  rewrite split_nn_keep.
  - fold (no_LF s) in Hs. rewrite (IH Hs). reflexivity.
  - destruct s; [exact I|]. rewrite Hc. reflexivity.
Qed.

(** A piece stays one piece when text without line feed follows it. *)
Lemma split_nn_single_app (a tail : jsstring) :
  JS.split_nn a = [a] -> no_LF tail = true ->
  JS.split_nn (a ++ tail) = [a ++ tail].
Proof.
  intros Ha Ht. induction a as [|c a IH].
  - apply split_nn_no_LF. exact Ht.
  - destruct a as [|c' a].
    + cbn [app]. rewrite split_nn_keep.
      * rewrite (split_nn_no_LF tail Ht). reflexivity.
      * destruct tail as [|x tail]; [exact I|].
        cbn [no_LF forallb] in Ht. apply andb_true_iff in Ht.
        destruct Ht as [Hx _]. apply negb_true_iff in Hx.
        rewrite Hx. apply andb_false_r.
    + destruct ((c =? JS.LF) && (c' =? JS.LF)) eqn:Hsep.
      * apply andb_true_iff in Hsep. destruct Hsep as [H1 H2].
        apply Z.eqb_eq in H1, H2. subst c c'.
        rewrite split_nn_sep in Ha.
        injection Ha as _ Ha. destruct (split_nn_nonempty a Ha).
      * rewrite split_nn_keep in Ha by exact Hsep.
        assert (Hs : JS.split_nn (c' :: a) = [c' :: a]).
        { destruct (JS.split_nn (c' :: a)) as [|f [|g fs]] eqn:E;
            cbn [cons_head] in Ha.
          - destruct (split_nn_nonempty _ E).
          - injection Ha as ->. reflexivity.
          - discriminate. }
        cbn [app]. rewrite split_nn_keep by exact Hsep.
        cbn [app] in IH. rewrite (IH Hs). reflexivity.
Qed.

(** A frame is split off as one fragment. *)
Lemma split_nn_frame (f s : jsstring) :
  no_LF f = true ->
  JS.split_nn (f ++ [JS.LF; JS.LF] ++ s) = f :: JS.split_nn s.
Proof.
  induction f as [|c f IH]; intros H.
  - apply split_nn_sep.
  - cbn [no_LF forallb] in H. apply andb_true_iff in H. destruct H as [Hc Hf].
    apply negb_true_iff in Hc. cbn [app].
    rewrite split_nn_keep.
    + cbn [app] in IH. rewrite (IH Hf). reflexivity.
    + destruct (f ++ JS.LF :: JS.LF :: s); [exact I|]. rewrite Hc. reflexivity.
Qed.

Lemma startsWith_app (p s : jsstring) : JS.startsWith (p ++ s) p = true.
Proof.
  induction p as [|a p IH]; [destruct s; reflexivity|].
  change (JS.startsWith ((a :: p) ++ s) (a :: p))
    with ((a =? a) && JS.startsWith (p ++ s) p).
  rewrite Z.eqb_refl. exact IH.
Qed.

Lemma split_nn_frames (ps : list jsstring) :
  forallb no_LF ps = true ->
  JS.split_nn (List.concat (map frame ps)) =
  map (fun p => data_prefix ++ p) ps ++ [[]].
Proof.
  induction ps as [|p ps IH]; [reflexivity|].
  cbn [forallb map List.concat]. intros H.
  apply andb_true_iff in H. destruct H as [Hp Hps].
  unfold frame at 1. rewrite <- !app_assoc.
  rewrite (app_assoc data_prefix p).
  rewrite split_nn_frame.
  - rewrite (IH Hps). reflexivity.
  - rewrite no_LF_app, Hp. reflexivity.
Qed.

Lemma quiet_read (v : list Z) (t : list GenObs) : quiet (GRead v :: t) = quiet t.
Proof. reflexivity. Qed.

Section StreamChat_more.

Variable decoder : TextDecoder.
Variable JSON_parse : jsstring -> option StreamChunk.

(** The inner loop does not read. *)
Lemma for_lines_inner (lines : list jsstring) :
  reads (fst (for_lines JSON_parse lines)) = [].
Proof.
  induction lines as [|l lines IH]; [reflexivity|].
  cbn [for_lines].
  destruct (JS.startsWith l data_prefix); [|exact IH].
  destruct (JSON_parse (JS.slice 6 l)) as [d|].
  - destruct (done d); [reflexivity|].
    destruct (for_lines JSON_parse lines). exact IH.
  - destruct (for_lines JSON_parse lines). exact IH.
Qed.

Lemma read_loop_reads (cs : list (list Z)) (e : ReadEnd) :
  forall (st : dstate decoder) (buffer : jsstring),
  exists rest,
    cs = reads (fst (read_loop decoder JSON_parse st buffer cs e)) ++ rest /\
    (quiet (fst (read_loop decoder JSON_parse st buffer cs e)) = true ->
     rest = []).
Proof.
  induction cs as [|v cs IH]; intros st buffer.
  - exists []. split; reflexivity.
  - rewrite read_loop_cons. cbv zeta.
    set (lines := complete_fragments (buffer ++ snd (decode decoder st v))).
    pose proof (for_lines_inner lines) as Hr.
    pose proof (for_lines_shape JSON_parse lines) as Hshape.
    destruct (snd (for_lines JSON_parse lines)); cbn [fst reads];
      rewrite quiet_read.
    + exists cs. rewrite Hr. split; [reflexivity|].
      destruct Hshape as (t0 & d & -> & Hd & _).
      rewrite quiet_app. cbn [quiet forallb]. rewrite Hd. cbn [negb andb].
      rewrite andb_false_r. discriminate.
    + destruct (IH (fst (decode decoder st v))
                  (last (JS.split_nn (buffer ++ snd (decode decoder st v))) []))
        as (rest & E & Hq).
      exists rest. rewrite reads_app, Hr. cbn [app].
      split; [f_equal; exact E|].
      rewrite quiet_app. intros H. apply andb_true_iff in H. apply Hq, H.
Qed.

(** X2.  The chunks of a body are read in order and none is skipped; unless
    a terminal event ended the run, every chunk is read. *)
Theorem reads_in_order :
  forall (b : Body),
  exists rest,
    chunks b = reads (fst (streamChat_body decoder JSON_parse b)) ++ rest /\
    (quiet (fst (streamChat_body decoder JSON_parse b)) = true -> rest = []).
Proof.
  intros b. unfold streamChat_body.
  destruct (read_loop_reads (chunks b) (ending b) (dinit decoder) [])
    as (rest & E & Hq).
  destruct (read_loop decoder JSON_parse (dinit decoder) [] (chunks b) (ending b))
    as [t c].
  cbn [fst] in *. exists rest. rewrite reads_app, quiet_app.
  cbn [reads quiet forallb]. rewrite app_nil_r, andb_true_r.
  split; assumption.
Qed.

Lemma complete_fragments_tail (s tail : jsstring) :
  no_LF tail = true ->
  complete_fragments (s ++ tail) = complete_fragments s.
Proof.
  intros H. rewrite complete_fragments_app.
  unfold complete_fragments at 2.
  rewrite (split_nn_single_app _ tail (split_nn_last s) H).
  cbn [removelast]. apply app_nil_r.
Qed.

(** X3.  Text that is not followed by a blank line is never delivered: when
    the stream ends, what follows the last blank line is dropped without an
    event and without a console line, even when it is a well-formed
    event. *)
Theorem unterminated_tail_is_lost :
  forall (b b' : Body) (tail : jsstring),
    text_of decoder (dinit decoder) (chunks b') =
      text_of decoder (dinit decoder) (chunks b) ++ tail ->
    no_LF tail = true ->
    yields (fst (streamChat_body decoder JSON_parse b')) =
      yields (fst (streamChat_body decoder JSON_parse b)) /\
    logged (fst (streamChat_body decoder JSON_parse b')) =
      logged (fst (streamChat_body decoder JSON_parse b)) /\
    (ending b' = ending b ->
     snd (streamChat_body decoder JSON_parse b') =
       snd (streamChat_body decoder JSON_parse b)).
Proof.
  intros b b' tail Ht Hn.
  rewrite !streamChat_body_yields, !streamChat_body_logged,
    !streamChat_body_completion.
  rewrite Ht, (complete_fragments_tail _ tail Hn).
  split; [reflexivity|]. split; [reflexivity|].
  intros ->. reflexivity.
Qed.

Lemma parsed_skip (pre post : list jsstring) (f : jsstring) :
  JS.startsWith f data_prefix = false ->
  parsed JSON_parse (pre ++ f :: post) = parsed JSON_parse (pre ++ post) /\
  dropped JSON_parse (pre ++ f :: post) = dropped JSON_parse (pre ++ post).
Proof.
  intros H.
  rewrite !parsed_app, !dropped_app.
  cbn [parsed dropped]. unfold parse_fragment, malformed. rewrite H.
  cbn [andb]. split; reflexivity.
Qed.

(** X4.  A complete fragment that does not start with [data: ] (a comment
    line, another field of the event-stream format, or [data:] without the
    space) is skipped in silence: the run yields, logs and ends exactly as
    if the fragment were not there. *)
Theorem non_event_fragment_is_skipped :
  forall (b : Body) (pre post : list jsstring) (f : jsstring),
    complete_fragments (text_of decoder (dinit decoder) (chunks b))
      = pre ++ f :: post ->
    JS.startsWith f data_prefix = false ->
    let t := fst (streamChat_body decoder JSON_parse b) in
    yields t = upto_done (parsed JSON_parse (pre ++ post)) /\
    logged t = dropped JSON_parse (pre ++ post) /\
    snd (streamChat_body decoder JSON_parse b) =
      (if has_done (parsed JSON_parse (pre ++ post)) then Return
       else match ending b with ReadDone => Return | ReadReject x => Throw x end).
Proof.
  intros b pre post f Hf Hs. cbv zeta.
  rewrite streamChat_body_yields, streamChat_body_logged,
    streamChat_body_completion, Hf.
  destruct (parsed_skip pre post f Hs) as [-> ->].
  repeat split.
Qed.

Lemma parsed_frames (ps : list jsstring) :
  parsed JSON_parse (map (fun p => data_prefix ++ p) ps) = events_of JSON_parse ps /\
  dropped JSON_parse (map (fun p => data_prefix ++ p) ps) =
    map (fun p => data_prefix ++ p) (rejected JSON_parse ps).
Proof.
  induction ps as [|p ps [IH1 IH2]]; [split; reflexivity|].
  cbn [map parsed dropped events_of flat_map rejected].
  unfold parse_fragment, malformed. rewrite startsWith_app.
  change (JS.slice 6 (data_prefix ++ p)) with p.
  fold (events_of JSON_parse ps).
  destruct (JSON_parse p) as [d|]; cbn [andb app map].
  - rewrite IH1. split; [reflexivity|].
    destruct (done d); [reflexivity | exact IH2].
  - rewrite IH1, IH2. split; reflexivity.
Qed.

(** X5.  Decoding inverts the framing of the wire: when the text of the
    body is a sequence of frames [data: p] followed by a blank line, whose
    payloads are written as JSON objects (they start with a brace) and are
    free of line feeds, the run yields the events of the payloads that
    parse, in order, up to the first terminal one, logs the payloads before
    it that do not parse, and ends as the terminal event or the end of the
    body says; and this however the bytes are cut into chunks.  (A payload
    such as [null], which [JSON.parse] accepts without giving an object, is
    not in the domain.) *)
Theorem framing_round_trip :
  forall (b : Body) (ps : list jsstring),
    text_of decoder (dinit decoder) (chunks b) = List.concat (map frame ps) ->
    forallb object_text ps = true ->
    forallb no_LF ps = true ->
    let t := fst (streamChat_body decoder JSON_parse b) in
    yields t = upto_done (events_of JSON_parse ps) /\
    logged t = map (fun p => data_prefix ++ p) (rejected JSON_parse ps) /\
    snd (streamChat_body decoder JSON_parse b) =
      (if has_done (events_of JSON_parse ps) then Return
       else match ending b with ReadDone => Return | ReadReject x => Throw x end).
Proof.
  intros b ps Ht _ Hn. cbv zeta.
  rewrite streamChat_body_yields, streamChat_body_logged,
    streamChat_body_completion, Ht.
  unfold complete_fragments. rewrite (split_nn_frames ps Hn), removelast_last.
  destruct (parsed_frames ps) as [-> ->].
  repeat split.
Qed.

End StreamChat_more.

(* ===================================================================== *)
(** * More about the store                                                *)
(* ===================================================================== *)

(** A non-empty list is its front and its last element. *)
Lemma snoc_or_nil {A} (l : list A) : l = [] \/ exists l' x, l = l' ++ [x].
Proof.
  destruct l as [|a l]; [left; reflexivity|right].
  destruct (exists_last (l := a :: l)) as (l' & x & E); [discriminate|].
  exists l', x. exact E.
Qed.

Lemma with_last_twice (f g : Message -> Message) (ms : list Message) :
  with_last g (with_last f ms) = with_last (fun m => g (f m)) ms.
Proof.
  destruct (snoc_or_nil ms) as [-> | (l & x & ->)]; [reflexivity|].
  rewrite !with_last_snoc. reflexivity.
Qed.

Lemma with_last_frame (f : Message -> Message) (ms : list Message) :
  (forall m, role (f m) = role m) ->
  List.length (with_last f ms) = List.length ms /\
  removelast (with_last f ms) = removelast ms /\
  map role (with_last f ms) = map role ms.
Proof.
  intros Hf.
  destruct (snoc_or_nil ms) as [-> | (l & x & ->)]; [repeat split|].
  rewrite with_last_snoc, !removelast_last, !map_app, !length_app.
  cbn [map List.length]. rewrite Hf. repeat split.
Qed.

Lemma with_last_edits (f : Message -> Message) :
  (forall m, role (f m) = role m) ->
  edits_last_only
    (set (fun state => put_messages (with_last f (messages state)) state)).
Proof.
  intros Hf [[ms str cid cs b] ref tr ck].
  split; [reflexivity|]. cbv zeta. pure.
  destruct (with_last_frame f ms Hf) as (H1 & H2 & H3).
  repeat split; assumption.
Qed.

(** X6.  The three actions that edit the last message
    ([appendToLastMessage], [updateLastMessage], [setLastMessageImage])
    never add, drop or reorder a message and never touch a message other
    than the last, nor any role; on an empty list they change nothing. *)
Theorem last_message_edits_are_local :
  forall (c i : jsstring),
    edits_last_only (appendToLastMessage c) /\
    edits_last_only (updateLastMessage c) /\
    edits_last_only (setLastMessageImage i).
Proof.
  intros c i. repeat split; apply with_last_edits; reflexivity.
Qed.

(** X7.  How the edits of the last message compose: appending [a] and then
    [b] is appending [a ++ b]; appending the empty string changes no
    message; replacing the content makes what was appended before
    irrelevant; and setting the image commutes with both edits of the
    content. *)
Theorem last_message_edits_compose :
  forall (a b c i : jsstring) (w : World),
    let shown (action : M unit) := messages (store (snd (action w))) in
    shown (appendToLastMessage a ;; appendToLastMessage b) =
      shown (appendToLastMessage (a ++ b)) /\
    shown (appendToLastMessage []) = messages (store w) /\
    shown (appendToLastMessage a ;; updateLastMessage c) =
      shown (updateLastMessage c) /\
    shown (setLastMessageImage i ;; appendToLastMessage a) =
      shown (appendToLastMessage a ;; setLastMessageImage i) /\
    shown (setLastMessageImage i ;; updateLastMessage c) =
      shown (updateLastMessage c ;; setLastMessageImage i).
Proof.
  intros a b c i [[ms str cid cs bl] ref tr ck]. cbv zeta. pure. proj.
  rewrite !with_last_twice.
  destruct (snoc_or_nil ms) as [-> | (l & x & ->)]; [repeat split|].
  rewrite !with_last_snoc. unfold set_content, set_image.
  cbn [content id role image createdAt].
  rewrite app_nil_r, <- app_assoc.
  destruct x. repeat split.
Qed.

Section Store_facts.

Variable env : Env.

(** X8.  A refresh of the conversation list always completes and ends with
    the loading flag off; the flag is on while the request is open; the
    list becomes what storage answered, and stays what it was when storage
    fails; messages, current conversation and streaming flag are not
    touched. *)
Theorem loadConversations_outcome :
  forall (w : World),
    let loading := put_isLoadingConversations true (store w) in
    exists w' l,
      loadConversations env w = (Resolve tt, w') /\
      trace w' = trace w ++ StoreSet loading :: ApiList :: l /\
      messages (store w') = messages (store w) /\
      isStreaming (store w') = isStreaming (store w) /\
      currentConversationId (store w') = currentConversationId (store w) /\
      isLoadingConversations (store w') = false /\
      conversations (store w') =
        match api_list env (trace w ++ [StoreSet loading]) with
        | Resolve cs => cs
        | Reject _ => conversations (store w)
        end.
Proof.
  intros [[ms str cid cs b] ref tr ck]. cbv zeta.
  unfold loadConversations, try_catch. pure.
  destruct (api_list env _) as [cs'|e]; pure; tidy;
    eexists _, _; (split; [reflexivity|]); proj; repeat split.
Qed.

Lemma payload_of_message_of (m : ConversationMessage) :
  payload_of (message_of m) =
  mkStoredMessage (message_role m) (message_content m) (message_image m).
Proof. reflexivity. Qed.

(** X9.  Opening a conversation: when storage answers, the current id and
    the whole message list are replaced in one transition; the messages
    shown are the stored ones in order, each with the role, the content and
    the image of the stored message and without its id and its date (so
    handing them to storage again would send exactly these three fields of
    each).  When storage fails, the store is left exactly as it was and
    only a console line is written.  The streaming flag and the list of
    conversations are not touched either way. *)
Theorem loadConversation_outcome :
  forall (i : Z) (w : World),
    exists w',
      loadConversation env i w = (Resolve tt, w') /\
      clock w' = clock w /\ abortControllerRef w' = abortControllerRef w /\
      match api_get env (trace w) i with
      | Resolve conversation =>
          store w' =
            mkChatState
              (map (fun m => mkMessage None (message_role m) (message_content m)
                               (message_image m) None)
                 (stored_messages conversation))
              (isStreaming (store w)) (Some i)
              (conversations (store w)) (isLoadingConversations (store w)) /\
          map payload_of (messages (store w')) =
            map (fun m => mkStoredMessage (message_role m) (message_content m)
                            (message_image m))
              (stored_messages conversation) /\
          trace w' = trace w ++ [ApiGet i; StoreSet (store w')]
      | Reject _ =>
          store w' = store w /\
          trace w' =
            trace w ++ [ApiGet i; ConsoleError (JS.lit "Failed to load conversation:")]
      end.
Proof.
  intros i [[ms str cid cs b] ref tr ck].
  unfold loadConversation, try_catch. pure.
  destruct (api_get env tr i) as [conv|e]; pure; tidy;
    eexists; (split; [reflexivity|]); proj.
  - repeat split. rewrite map_map. apply map_ext.
    intros m. apply payload_of_message_of.
  - repeat split.
Qed.

(** X10.  Creating a conversation when storage answers: the result is the
    id storage assigned; the list of conversations is refreshed first,
    while the store still shows the messages and the current id it had; the
    last transition makes the new conversation current and empties the
    message list.  Nothing is handed to storage as a message. *)
Theorem createConversation_success :
  forall (w : World) (conversation : Conversation),
    api_create env (trace w) = Resolve conversation ->
    exists w' l,
      createConversation env w = (Resolve (conv_id conversation), w') /\
      trace w' = trace w ++ ApiCreate :: l ++ [StoreSet (store w')] /\
      In ApiList l /\
      Forall (fun st => messages st = messages (store w) /\
                        currentConversationId st = currentConversationId (store w))
        (states l) /\
      persisted l = [] /\
      messages (store w') = [] /\
      currentConversationId (store w') = Some (conv_id conversation) /\
      isStreaming (store w') = isStreaming (store w).
Proof.
  intros [[ms str cid cs b] ref tr ck] conv Hc. proj.
  unfold createConversation, loadConversations, try_catch. pure. rewrite Hc. pure.
  destruct (api_list env _) as [cs'|e]; pure; tidy.
  - eexists _, [_; _; _]. split; [reflexivity|]. proj.
    split; [reflexivity|]. split; [right; left; reflexivity|].
    split; [repeat constructor|]. repeat split.
  - eexists _, [_; _; _; _]. split; [reflexivity|]. proj.
    split; [reflexivity|]. split; [right; left; reflexivity|].
    split; [repeat constructor|]. repeat split.
Qed.

(** X11.  Deleting a conversation other than the current one: once storage
    has deleted it, the messages shown and the current conversation stay as
    they are, and the list of conversations is requested again and becomes
    the answer. *)
Theorem deleteConversation_other :
  forall (i : Z) (w : World),
    currentConversationId (store w) <> Some i ->
    api_delete env (trace w) i = Resolve tt ->
    let loading := put_isLoadingConversations true (store w) in
    exists w' l,
      deleteConversation env i w = (Resolve tt, w') /\
      trace w' = trace w ++ ApiDelete i :: StoreSet loading :: ApiList :: l /\
      messages (store w') = messages (store w) /\
      currentConversationId (store w') = currentConversationId (store w) /\
      isStreaming (store w') = isStreaming (store w) /\
      (forall cs,
          api_list env (trace w ++ [ApiDelete i; StoreSet loading]) = Resolve cs ->
          conversations (store w') = cs).
Proof.
  intros i [[ms str cid cs b] ref tr ck] Hne Hd. proj. cbv zeta.
  unfold deleteConversation, loadConversations, try_catch. pure. rewrite Hd.
  assert (Hskip : match cid with Some c => c =? i | None => false end = false).
  { destruct cid as [c|]; [|reflexivity].
    destruct (Z.eqb_spec c i); [subst; contradiction | reflexivity]. }
  destruct cid as [c|]; [rewrite Hskip|]; tidy;
    (destruct (api_list env _) as [cs'|e] eqn:El; tidy;
     eexists _, _; (split; [reflexivity|]); proj;
     (split; [reflexivity|]); repeat split; intros cs0 H0;
     [injection H0 as <-; reflexivity | discriminate]).
Qed.

(** X12.  Saving a message in a conversation: the call always completes,
    also when storage fails; storage is handed the role, the content and the
    image of the message under the current id and nothing else; the list of
    conversations is refreshed after storage accepted the message and is
    not requested when it did not; messages, current conversation and
    streaming flag are never touched. *)
Theorem saveMessage_outcome :
  forall (m : Message) (w : World) (c : Z),
    currentConversationId (store w) = Some c ->
    c <> 0 ->
    let sent := mkStoredMessage (role m) (content m) (image m) in
    exists w' l,
      saveMessage env m w = (Resolve tt, w') /\
      trace w' = trace w ++ ApiAddMessage c sent :: l /\
      messages (store w') = messages (store w) /\
      currentConversationId (store w') = currentConversationId (store w) /\
      isStreaming (store w') = isStreaming (store w) /\
      match api_addMessage env (trace w) c sent with
      | Resolve _ => In ApiList l /\ isLoadingConversations (store w') = false
      | Reject _ =>
          l = [ConsoleError (JS.lit "Failed to save message:")] /\
          store w' = store w
      end.
Proof.
  intros m [[ms str cid cs b] ref tr ck] c Hc Hn. proj. subst cid. cbv zeta.
  unfold saveMessage. pure.
  assert (Ht : truthy_id (Some c) = true).
  { unfold truthy_id. destruct (Z.eqb_spec c 0); [contradiction | reflexivity]. }
  rewrite Ht. cbn [negb].
  unfold try_catch, payload_of. pure.
  destruct (api_addMessage env tr c _) as [u|e]; pure.
  - unfold loadConversations, try_catch. pure. tidy.
    destruct (api_list env _) as [cs'|e]; pure; tidy;
      eexists _, _; (split; [reflexivity|]); proj;
      (split; [reflexivity|]); repeat split; right; left; reflexivity.
  - tidy. eexists _, _. split; [reflexivity|]. proj.
    split; [reflexivity|]. repeat split.
Qed.

(** X13.  The id 0 counts as no conversation: with 0 as the current id
    [saveMessage] does nothing at all, and a turn starts by asking storage
    for a new conversation. *)
Theorem id_zero_is_no_conversation :
  forall (m : Message) (w : World),
    currentConversationId (store w) = Some 0 ->
    saveMessage env m w = (Resolve tt, w) /\
    exists l,
      trace (snd (ensureConversation env w)) = trace w ++ ApiCreate :: l.
Proof.
  intros m [[ms str cid cs b] ref tr ck] Hc. proj. subst cid.
  split; [reflexivity|].
  unfold ensureConversation, createConversation, loadConversations, try_catch.
  pure. cbn [truthy_id Z.eqb negb].
  destruct (api_create env tr) as [conv|e]; pure.
  - destruct (api_list env _) as [cs'|e]; pure; tidy; eexists; reflexivity.
  - tidy. eexists. reflexivity.
Qed.

End Store_facts.

(* ===================================================================== *)
(** * More about the hook                                                 *)
(* ===================================================================== *)

Section Hook_facts.

Variable decoder : TextDecoder.
Variable JSON_parse : jsstring -> option StreamChunk.
Variable env : Env.

(** [generateImage] is one request and what [image_result] makes of the
    answer. *)
Lemma generateImage_eq (prompt : jsstring) (w : World) :
  generateImage env prompt w =
  (image_result (fetch_image env (trace w) prompt),
   with_event (FetchImage (authorization env) prompt) w).
Proof.
  destruct w as [st ref tr ck]. unfold generateImage, image_result. pure.
  destruct (fetch_image env tr prompt) as [[iok d j]|e]; [|reflexivity].
  cbn [image_ok image_detail image_json]. destruct iok; reflexivity.
Qed.

(** A regular turn, from any state of the store. *)
Lemma text_turn (c : jsstring) (w : World) :
  isImageCommand c = false ->
  exists h w' l ms t t',
    let convId := currentConversationId (store w') in
    let request := turn_request (ms ++ [user_message c t]) convId in
    let g := generator decoder JSON_parse env h request in
    sendMessage decoder JSON_parse env c w = (Resolve tt, w') /\
    messages (store w') =
      ms ++ [user_message c t;
             assistant_message (reply (yields (fst g)) (snd g)) None t'] /\
    isStreaming (store w') = false /\
    abortControllerRef w' = None /\
    trace w' = trace w ++ l /\
    persisted l =
      saved_to convId (user_message c t) ++
      reply_saved convId (yields (fst g)) (snd g) /\
    outbound l = [FetchStream (authorization env) request] /\
    (if truthy_id (currentConversationId (store w))
     then ms = messages (store w) /\ convId = currentConversationId (store w)
     else
       match api_create env (trace w) with
       | Resolve conv => ms = [] /\ convId = Some (conv_id conv)
       | Reject _ => ms = messages (store w) /\ convId = currentConversationId (store w)
       end).
Proof.
  destruct w as [[ms str cid cs b] ref tr ck]. intros Hc. proj.
  destruct (sendMessage_run decoder JSON_parse env c ms str cid cs b ref tr ck)
    as (convId & l0 & ms1 & cs1 & b1 & E & (P0 & O0 & _) & Hcase).
  rewrite Hc in E.
  destruct (textPath_run decoder JSON_parse env c convId ms1 str convId cs1 b1
              ref (tr ++ l0) ck)
    as (h & l & cs' & b' & ck' & Et & P & O & _).
  cbv zeta in Et, P, O.
  rewrite Et in E. clear Et. rewrite <- app_assoc in E.
  exists h. eexists _, (l0 ++ l), ms1, _, _. cbv zeta.
  split; [exact E|]. proj. unfold generator, turn_request, user_message.
  rewrite persisted_app, outbound_app, P0, O0, P, O.
  do 6 (split; [reflexivity|]).
  destruct (truthy_id cid).
  - destruct Hcase as (-> & -> & _). split; reflexivity.
  - destruct (api_create env tr); destruct Hcase as (-> & ->); split; reflexivity.
Qed.

(** The image path with a prompt, with the outcome of the generation made
    explicit. *)
Lemma imagePath_outcome (c : jsstring)
    (ms : list Message) (str : bool) (cid : option Z)
    (cs : list Conversation) (b : bool) (ref : option AbortController)
    (tr : list Event) (ck : nat) :
  let userMsg := mkMessage None user c None (Some (now env ck)) in
  let placeholder :=
    mkMessage None assistant generating None (Some (now env (S ck))) in
  JS.truthy (prompt_of c) = true ->
  exists h l cs' b' ck',
    let o := image_result (fetch_image env h (prompt_of c)) in
    imagePath env c (mkWorld (mkChatState ms str cid cs b) ref tr ck) =
    (Resolve tt,
     mkWorld (mkChatState
                (ms ++ [userMsg;
                        match o with
                        | Resolve r =>
                            set_image (response_image r)
                              (set_content (here_is_your_image (prompt_of c))
                                 placeholder)
                        | Reject _ => set_content generation_failed placeholder
                        end])
                false cid cs' b')
       ref (tr ++ l) ck') /\
    persisted l =
      saved_to cid userMsg ++
      match o with
      | Resolve r =>
          saved_to cid
            (mkMessage None assistant (here_is_your_image (prompt_of c))
               (Some (response_image r)) None)
      | Reject _ => []
      end /\
    outbound l = [FetchImage (authorization env) (prompt_of c)].
Proof.
  intros userMsg placeholder Hp. unfold imagePath.
  rewrite Hp. cbn [negb].
  pure. fold userMsg.
  match goal with
  | |- context [saveMessage env ?m ?w] =>
      destruct (saveMessage_run env m w) as (l1 & cs1 & b1 & E1 & (P1 & O1 & S1))
  end.
  proj. rewrite E1. clear E1. pure. fold placeholder.
  unfold try_finally, try_catch. pure.
  rewrite generateImage_eq. pure.
  match goal with
  | |- context [image_result (fetch_image env ?h0 (prompt_of c))] =>
      exists h0; destruct (image_result (fetch_image env h0 (prompt_of c)))
        as [r|e]
  end; pure.
  - rewrite !with_last_snoc.
    match goal with
    | |- context [saveMessage env ?m ?w] =>
        destruct (saveMessage_run env m w) as (l3 & cs3 & b3 & E3 & (P3 & O3 & S3))
    end.
    proj. rewrite E3. clear E3. pure.
    eexists _, _, _, _. tidy. split; [reflexivity|].
    read_run. rewrite P1, P3, O1, O3. cbn [app].
    split; [rewrite app_nil_r; reflexivity | reflexivity].
  - rewrite !with_last_snoc.
    eexists _, _, _, _. tidy. split; [reflexivity|].
    read_run. rewrite P1, O1. cbn [app].
    split; [rewrite app_nil_r; reflexivity | reflexivity].
Qed.

(** A turn that is an image command with a prompt. *)
Lemma image_turn (c : jsstring) (w : World) :
  isImageCommand c = true ->
  JS.truthy (prompt_of c) = true ->
  exists h w' l ms t t',
    let convId := currentConversationId (store w') in
    let o := image_result (fetch_image env h (prompt_of c)) in
    sendMessage decoder JSON_parse env c w = (Resolve tt, w') /\
    messages (store w') =
      ms ++ [user_message c t;
             match o with
             | Resolve r =>
                 assistant_message (here_is_your_image (prompt_of c))
                   (Some (response_image r)) t'
             | Reject _ => assistant_message generation_failed None t'
             end] /\
    (ms = messages (store w) \/ ms = []) /\
    isStreaming (store w') = false /\
    abortControllerRef w' = abortControllerRef w /\
    trace w' = trace w ++ l /\
    persisted l =
      saved_to convId (user_message c t) ++
      match o with
      | Resolve r =>
          saved_to convId
            (mkMessage None assistant (here_is_your_image (prompt_of c))
               (Some (response_image r)) None)
      | Reject _ => []
      end /\
    outbound l = [FetchImage (authorization env) (prompt_of c)].
Proof.
  destruct w as [[ms str cid cs b] ref tr ck]. intros Hc Hp. proj.
  destruct (sendMessage_run decoder JSON_parse env c ms str cid cs b ref tr ck)
    as (convId & l0 & ms1 & cs1 & b1 & E & (P0 & O0 & _) & Hcase).
  rewrite Hc in E.
  assert (Hms : ms1 = ms \/ ms1 = []).
  { destruct (truthy_id cid); [left; apply Hcase|].
    destruct (api_create env tr); [right | left]; apply Hcase. }
  clear Hcase.
  destruct (imagePath_outcome c ms1 str convId cs1 b1 ref (tr ++ l0) ck Hp)
    as (h & l & cs' & b' & ck' & Ei & P & O).
  cbv zeta in Ei, P. rewrite Ei in E. clear Ei. rewrite <- app_assoc in E.
  exists h. eexists _, (l0 ++ l), ms1, _, _. cbv zeta.
  split; [exact E|]. proj.
  rewrite persisted_app, outbound_app, P0, O0, P, O.
  split; [destruct (image_result _); reflexivity|].
  split; [exact Hms|]. repeat split.
Qed.

(** How every turn ends. *)
Lemma turn_ends (c : jsstring) (w : World) :
  exists w' l,
    sendMessage decoder JSON_parse env c w = (Resolve tt, w') /\
    trace w' = trace w ++ l /\
    abortControllerRef w' =
      (if isImageCommand c then abortControllerRef w else None) /\
    isStreaming (store w') =
      (if isImageCommand c && negb (JS.truthy (prompt_of c))
       then isStreaming (store w) else false).
Proof.
  destruct (isImageCommand c) eqn:Hc; cbn [andb].
  - destruct (JS.truthy (prompt_of c)) eqn:Hp; cbn [negb].
    + destruct (image_turn c w Hc Hp)
        as (h & w' & l & ms & t & t' & E & _ & _ & Hs & Hr & Ht & _).
      exists w', l. repeat split; assumption.
    + destruct w as [[ms str cid cs b] ref tr ck].
      destruct (sendMessage_run decoder JSON_parse env c ms str cid cs b ref tr ck)
        as (convId & l0 & ms1 & cs1 & b1 & E & _).
      rewrite Hc in E.
      pose proof (imagePath_run env c ms1 str convId cs1 b1 ref (tr ++ l0) ck) as Hi.
      cbv zeta in Hi. rewrite Hp in Hi. rewrite Hi in E. clear Hi.
      rewrite <- app_assoc in E.
      eexists _, _. split; [exact E|]. repeat split.
  - destruct (text_turn c w Hc)
      as (h & w' & l & ms & t & t' & E & _ & Hs & Hr & Ht & _).
    exists w', l. repeat split; assumption.
Qed.

(** X14.  A turn never fails and never leaves the interface busy: whatever
    the input and whatever storage, the image service and the stream do,
    [sendMessage] completes normally, what the run did is added to what was
    done before, and the streaming flag is off at the end; the one
    exception is an image command without a prompt, which does not touch
    the flag. *)
Theorem turn_always_completes :
  forall (c : jsstring) (w : World),
    exists w' l,
      sendMessage decoder JSON_parse env c w = (Resolve tt, w') /\
      trace w' = trace w ++ l /\
      (isStreaming (store w') = false \/
       (isImageCommand c = true /\ prompt_of c = [] /\
        isStreaming (store w') = isStreaming (store w))).
Proof.
  intros c w. destruct (turn_ends c w) as (w' & l & E & Ht & _ & Hs).
  exists w', l. split; [exact E|]. split; [exact Ht|].
  destruct (isImageCommand c); cbn [andb] in Hs; [|left; exact Hs].
  destruct (prompt_of c) eqn:Hp; cbn [JS.truthy negb] in Hs.
  - right. repeat split. exact Hs.
  - left. exact Hs.
Qed.

(** X15.  Stopping when no stream is open does nothing: after any turn that
    started with no stream open, [stopGeneration] leaves the store, the
    handle and the record of what happened exactly as the turn left
    them. *)
Theorem stop_after_turn_is_noop :
  forall (c : jsstring) (w : World),
    abortControllerRef w = None ->
    let w' := snd (sendMessage decoder JSON_parse env c w) in
    abortControllerRef w' = None /\
    stopGeneration w' = (Resolve tt, w').
Proof.
  intros c w Hw. cbv zeta.
  destruct (turn_ends c w) as (w' & l & E & _ & Hr & _).
  rewrite E. cbn [snd].
  assert (Hn : abortControllerRef w' = None).
  { rewrite Hr. destruct (isImageCommand c); [exact Hw | reflexivity]. }
  split; [exact Hn|]. unfold stopGeneration. rewrite Hn. reflexivity.
Qed.

(** X16.  A stream that fails, other than by the user's stop: when the loop
    over the events is left by an exception that is not an abort (an event
    that carries an error, a failed read, a refused request), the turn still
    completes; the placeholder holds the text received before the failure
    followed by the error notice; the assistant message is not handed to
    storage; the streaming flag is off and the handle is released. *)
Theorem stream_failure_shows_notice :
  forall (c : jsstring) (w : World) (evs : list StreamChunk)
         (finish : Completion) (e : Exn),
    isImageCommand c = false ->
    (forall h request,
        yields (fst (generator decoder JSON_parse env h request)) = evs /\
        snd (generator decoder JSON_parse env h request) = finish) ->
    loop_end evs finish = Throw e ->
    is_abort e = false ->
    exists w' l ms t t',
      sendMessage decoder JSON_parse env c w = (Resolve tt, w') /\
      messages (store w') =
        ms ++ [user_message c t;
               assistant_message (text_of_events (taken evs) ++ error_notice)
                 None t'] /\
      (ms = messages (store w) \/ ms = []) /\
      isStreaming (store w') = false /\
      abortControllerRef w' = None /\
      trace w' = trace w ++ l /\
      persisted l =
        saved_to (currentConversationId (store w')) (user_message c t).
Proof.
  intros c w evs finish e Hc Hev Hl Ha.
  destruct (text_turn c w Hc)
    as (h & w' & l & ms & t & t' & E & Hm & Hs & Hr & Ht & P & _ & Hcase).
  cbv zeta in Hm, P.
  match type of Hm with
  | context [generator decoder JSON_parse env h ?rq] => destruct (Hev h rq) as [Hy Hf]
  end.
  rewrite Hy, Hf in Hm, P. unfold reply in Hm. unfold reply_saved in P.
  rewrite Hl, Ha in Hm. rewrite Hl, app_nil_r in P.
  exists w', l, ms, t, t'. repeat split; try assumption.
  destruct (truthy_id (currentConversationId (store w))); [left; apply Hcase|].
  destruct (api_create env (trace w)); [right | left]; apply Hcase.
Qed.

(** X17.  A stream request that the server refuses (a status outside
    200-299) or answers without a body: the generator fails before it reads
    anything, and the turn shows the error notice alone in the placeholder;
    only the user message is handed to storage. *)
Theorem refused_stream_request :
  forall (c : jsstring) (w : World),
    isImageCommand c = false ->
    user_stop env = NoStop ->
    (forall h request,
        exists response,
          fetch_stream env h request = Resolve response /\
          (ok response = false \/ body response = None)) ->
    (forall h request,
        fst (generator decoder JSON_parse env h request) = []) /\
    exists w' l ms t t',
      sendMessage decoder JSON_parse env c w = (Resolve tt, w') /\
      messages (store w') =
        ms ++ [user_message c t; assistant_message error_notice None t'] /\
      isStreaming (store w') = false /\
      trace w' = trace w ++ l /\
      persisted l =
        saved_to (currentConversationId (store w')) (user_message c t).
Proof.
  intros c w Hc Hstop Hrefused.
  assert (Hg : forall h request,
             exists m, generator decoder JSON_parse env h request =
                       ([], Throw (Error m))).
  { intros h request. destruct (Hrefused h request) as (resp & Hf & Hbad).
    unfold generator, delivered. rewrite Hstop, Hf. cbn [interrupt].
    unfold streamChat_response.
    destruct (ok resp); cbn [negb]; [|eexists; reflexivity].
    destruct Hbad as [Hbad | Hbad]; [discriminate|].
    rewrite Hbad. eexists. reflexivity. }
  split.
  { intros h request. destruct (Hg h request) as [m ->]. reflexivity. }
  destruct (text_turn c w Hc)
    as (h & w' & l & ms & t & t' & E & Hm & Hs & Hr & Ht & P & _).
  cbv zeta in Hm, P.
  match type of Hm with
  | context [generator decoder JSON_parse env h ?rq] => destruct (Hg h rq) as [m Hgen]
  end.
  rewrite Hgen in Hm, P. cbn in Hm, P. rewrite app_nil_r in P.
  exists w', l, ms, t, t'. repeat split; assumption.
Qed.

(** X18.  An answer without text is not stored: when the loop over the
    events ends normally and no text was received (the stream ended at once,
    or only empty events came), the placeholder stays empty and only the
    user message is handed to storage. *)
Theorem empty_answer_is_not_saved :
  forall (c : jsstring) (w : World) (evs : list StreamChunk) (finish : Completion),
    isImageCommand c = false ->
    (forall h request,
        yields (fst (generator decoder JSON_parse env h request)) = evs /\
        snd (generator decoder JSON_parse env h request) = finish) ->
    loop_end evs finish = Return ->
    text_of_events (taken evs) = [] ->
    exists w' l ms t t',
      sendMessage decoder JSON_parse env c w = (Resolve tt, w') /\
      messages (store w') =
        ms ++ [user_message c t; assistant_message [] None t'] /\
      isStreaming (store w') = false /\
      trace w' = trace w ++ l /\
      persisted l =
        saved_to (currentConversationId (store w')) (user_message c t).
Proof.
  intros c w evs finish Hc Hev Hl Hempty.
  destruct (text_turn c w Hc)
    as (h & w' & l & ms & t & t' & E & Hm & Hs & Hr & Ht & P & _).
  cbv zeta in Hm, P.
  match type of Hm with
  | context [generator decoder JSON_parse env h ?rq] => destruct (Hev h rq) as [Hy Hf]
  end.
  rewrite Hy, Hf in Hm, P. unfold reply in Hm. unfold reply_saved in P.
  rewrite Hl, Hempty in Hm. rewrite Hl, Hempty in P.
  cbn [JS.truthy app] in Hm, P. rewrite app_nil_r in P.
  exists w', l, ms, t, t'. repeat split; assumption.
Qed.

(** The decimal text of an integer is never empty. *)
Lemma toString_truthy (n : Z) : JS.truthy (JS.toString n) = true.
Proof.
  unfold JS.toString.
  destruct n as [|p|p]; [reflexivity| |reflexivity].
  cbn [Z.to_int NilEmpty.string_of_int].
  pose proof (DecimalPos.Unsigned.to_uint_nonnil p) as H.
  destruct (Pos.to_uint p); [contradiction|..]; reflexivity.
Qed.

(** X19.  A regular turn inside a conversation, for an id that a number
    holds exactly: the messages shown before the turn are kept and the two
    messages of the turn are added behind them; the conversation stays
    current; and exactly one stream request is issued, which carries the
    role and the content of every message shown before the turn and of the
    new user message, in order, without the empty placeholder, the default
    model, and the id of the conversation in decimal. *)
Theorem turn_in_current_conversation :
  forall (c : jsstring) (w : World) (n : Z),
    isImageCommand c = false ->
    currentConversationId (store w) = Some n ->
    n <> 0 ->
    isSafeInteger n = true ->
    exists w' l t r t',
      sendMessage decoder JSON_parse env c w = (Resolve tt, w') /\
      messages (store w') =
        messages (store w) ++ [user_message c t; assistant_message r None t'] /\
      currentConversationId (store w') = Some n /\
      trace w' = trace w ++ l /\
      outbound l =
        [FetchStream (authorization env)
           (mkChatRequest
              (map (fun m => (role m, content m)) (messages (store w)) ++ [(user, c)])
              (JS.lit "llama-3.3-70b-versatile")
              (Some (JS.toString n)))].
Proof.
  intros c w n Hc Hid Hn _.
  destruct (text_turn c w Hc)
    as (h & w' & l & ms & t & t' & E & Hm & _ & _ & Ht & _ & O & Hcase).
  cbv zeta in Hm, O. rewrite Hid in Hcase.
  assert (Htr : truthy_id (Some n) = true).
  { unfold truthy_id. destruct (Z.eqb_spec n 0); [contradiction | reflexivity]. }
  rewrite Htr in Hcase. destruct Hcase as [-> Hid'].
  rewrite Hid' in O.
  unfold turn_request, conversationId_param in O.
  rewrite toString_truthy, map_app in O.
  eexists w', l, t, _, t'. repeat split; eassumption.
Qed.

(** X20.  A turn that creates its conversation starts from an empty list:
    when there is no current conversation and storage creates one, under an
    id that is not 0 and that a number holds exactly, the messages shown
    before the turn are discarded, the list holds exactly the two messages
    of the turn, the new conversation is current, the request carries the
    user message alone and the new id in decimal, and the first message
    handed to storage is the user message, under the new id. *)
Theorem created_conversation_starts_empty :
  forall (c : jsstring) (w : World) (conversation : Conversation),
    isImageCommand c = false ->
    truthy_id (currentConversationId (store w)) = false ->
    api_create env (trace w) = Resolve conversation ->
    conv_id conversation <> 0 ->
    isSafeInteger (conv_id conversation) = true ->
    exists w' l t r t' p,
      sendMessage decoder JSON_parse env c w = (Resolve tt, w') /\
      messages (store w') = [user_message c t; assistant_message r None t'] /\
      currentConversationId (store w') = Some (conv_id conversation) /\
      trace w' = trace w ++ l /\
      outbound l =
        [FetchStream (authorization env)
           (mkChatRequest [(user, c)] (JS.lit "llama-3.3-70b-versatile")
              (Some (JS.toString (conv_id conversation))))] /\
      persisted l =
        (conv_id conversation, mkStoredMessage user c None) :: p.
Proof.
  intros c w conv Hc Hid Hcreate Hn _.
  destruct (text_turn c w Hc)
    as (h & w' & l & ms & t & t' & E & Hm & _ & _ & Ht & P & O & Hcase).
  cbv zeta in Hm, O, P. rewrite Hid, Hcreate in Hcase.
  destruct Hcase as [-> Hid'].
  rewrite Hid' in O, P.
  unfold turn_request, conversationId_param in O.
  rewrite toString_truthy in O.
  rewrite (saved_to_current _ _ Hn) in P.
  eexists w', l, t, _, t', _. repeat split; eassumption.
Qed.


(** X22.  An image command whose generation fails (the request is rejected,
    the status is outside 200-299, or the answer cannot be read): the turn
    completes; the placeholder is replaced by the failure text and carries
    no image; the user message is handed to storage and the assistant
    message is not; one image request was issued; the streaming flag is
    off. *)
Theorem image_generation_failure :
  forall (c : jsstring) (w : World),
    isImageCommand c = true ->
    JS.truthy (prompt_of c) = true ->
    (forall h, exists e, image_result (fetch_image env h (prompt_of c)) = Reject e) ->
    exists w' l ms t t',
      sendMessage decoder JSON_parse env c w = (Resolve tt, w') /\
      messages (store w') =
        ms ++ [user_message c t; assistant_message generation_failed None t'] /\
      (ms = messages (store w) \/ ms = []) /\
      isStreaming (store w') = false /\
      trace w' = trace w ++ l /\
      persisted l =
        saved_to (currentConversationId (store w')) (user_message c t) /\
      outbound l = [FetchImage (authorization env) (prompt_of c)].
Proof.
  intros c w Hc Hp Hfail.
  destruct (image_turn c w Hc Hp)
    as (h & w' & l & ms & t & t' & E & Hm & Hms & Hs & _ & Ht & P & O).
  cbv zeta in Hm, P. destruct (Hfail h) as [e He]. rewrite He in Hm, P.
  rewrite app_nil_r in P.
  exists w', l, ms, t, t'. repeat split; assumption.
Qed.

End Hook_facts.

(* ===================================================================== *)
(** * The input of the page                                               *)
(* ===================================================================== *)

Lemma trimStart_idem (s : jsstring) :
  JS.trimStart (JS.trimStart s) = JS.trimStart s.
Proof.
  induction s as [|c s IH]; [reflexivity|].
  cbn [JS.trimStart]. destruct (JS.is_space c) eqn:Hc; [exact IH|].
  cbn [JS.trimStart]. rewrite Hc. reflexivity.
Qed.

Lemma trimStart_length (s : jsstring) :
  (List.length (JS.trimStart s) <= List.length s)%nat.
Proof.
  induction s as [|c s IH]; [reflexivity|].
  cbn [JS.trimStart]. destruct (JS.is_space c); cbn [List.length]; lia.
Qed.

(** [trimStart] removes a prefix. *)
Lemma trimStart_suffix (s : jsstring) : exists sp, s = sp ++ JS.trimStart s.
Proof.
  induction s as [|c s [sp IH]]; [exists []; reflexivity|].
  cbn [JS.trimStart]. destruct (JS.is_space c).
  - exists (c :: sp). cbn [app]. f_equal. exact IH.
  - exists []. reflexivity.
Qed.

(** [trimEnd] removes a suffix. *)
Lemma trimEnd_prefix (s : jsstring) : exists sp, s = JS.trimEnd s ++ sp.
Proof.
  unfold JS.trimEnd. destruct (trimStart_suffix (rev s)) as [sp E].
  exists (rev sp). rewrite <- rev_app_distr, <- E, rev_involutive. reflexivity.
Qed.

Lemma trimEnd_idem (s : jsstring) : JS.trimEnd (JS.trimEnd s) = JS.trimEnd s.
Proof.
  unfold JS.trimEnd. rewrite rev_involutive, trimStart_idem. reflexivity.
Qed.

(** Removing white space at the end leaves a text without white space at
    the start as it is there. *)
Lemma trimStart_trimEnd (s : jsstring) :
  JS.trimStart s = s -> JS.trimStart (JS.trimEnd s) = JS.trimEnd s.
Proof.
  intros H. destruct (trimEnd_prefix s) as [sp E].
  destruct (JS.trimEnd s) as [|c r]; [reflexivity|].
  rewrite E in H. cbn [app JS.trimStart] in H. cbn [JS.trimStart].
  destruct (JS.is_space c); [|reflexivity].
  pose proof (trimStart_length (r ++ sp)) as Hl.
  rewrite H in Hl. cbn [List.length] in Hl. lia.
Qed.

Lemma trim_idem (s : jsstring) : JS.trim (JS.trim s) = JS.trim s.
Proof.
  unfold JS.trim.
  rewrite (trimStart_trimEnd (JS.trimStart s) (trimStart_idem s)).
  apply trimEnd_idem.
Qed.

Lemma trim_trimStart (s : jsstring) : JS.trim (JS.trimStart s) = JS.trim s.
Proof. unfold JS.trim. rewrite trimStart_idem. reflexivity. Qed.

Lemma startsWith_cons (a b : Z) (s p : jsstring) :
  JS.startsWith (b :: s) (a :: p) = (a =? b) && JS.startsWith s p.
Proof. reflexivity. Qed.

Lemma startsWith_firstn (s p : jsstring) :
  JS.startsWith (firstn (List.length p) s) p = JS.startsWith s p.
Proof.
  revert s. induction p as [|a p IH]; intros s.
  - destruct s; reflexivity.
  - destruct s as [|b s]; [reflexivity|].
    cbn [List.length firstn]. rewrite !startsWith_cons, IH. reflexivity.
Qed.

(** On a text without white space around it, the test for the image
    command is the match of the expression that removes the command. *)
Lemma command_is_matched (c : jsstring) :
  JS.trim c = c -> isImageCommand c = JS.startsWith_i c imagine.
Proof.
  intros H. unfold isImageCommand, JS.startsWith_i, JS.toLowerCase.
  rewrite H.
  change (map JS.lower imagine) with imagine.
  rewrite <- firstn_map, startsWith_firstn. reflexivity.
Qed.

Section Input_facts.

Variable decoder : TextDecoder.
Variable JSON_parse : jsstring -> option StreamChunk.
Variable env : Env.

(** X23.  What the input hands to [sendMessage]: the text typed without
    the white space around it, never empty, after which the input is
    emptied.  For such a text the test for the image command and the
    removal of the command agree: the prompt is what follows the command,
    and a command with nothing behind it only gets the usage warning (no
    user message, nothing handed to storage, no image requested). *)
Theorem submitted_text :
  forall (s : ChatInput.State) (w : World),
    ChatInput.hasContent s = true ->
    let c := JS.trim (ChatInput.value s) in
    ChatInput.handleSubmit (sendMessage decoder JSON_parse env) false s w =
      (Resolve (ChatInput.setValue [] s),
       snd (sendMessage decoder JSON_parse env c w)) /\
    JS.trim c = c /\
    c <> [] /\
    (isImageCommand c = true ->
     prompt_of c = JS.trim (skipn 8 c) /\
     (JS.trim (skipn 8 c) = [] ->
      exists w' l ms t,
        sendMessage decoder JSON_parse env c w = (Resolve tt, w') /\
        messages (store w') = ms ++ [assistant_message usage_warning None t] /\
        (ms = messages (store w) \/ ms = []) /\
        trace w' = trace w ++ l /\
        calm (isStreaming (store w)) l)).
Proof.
  intros s w Hv c. unfold ChatInput.hasContent in Hv. fold c in Hv.
  split.
  { unfold ChatInput.handleSubmit, detached, bind, ret. fold c.
    rewrite Hv. reflexivity. }
  split; [apply trim_idem|].
  split; [intros E; rewrite E in Hv; discriminate|].
  intros Hc.
  assert (Hp : prompt_of c = JS.trim (skipn 8 c)).
  { unfold prompt_of.
    rewrite <- (command_is_matched c (trim_idem _)), Hc.
    apply trim_trimStart. }
  split; [exact Hp|]. intros Hnone.
  apply (empty_prompt_only_warns decoder JSON_parse env c w Hc).
  rewrite Hp. exact Hnone.
Qed.

(** X24.  No turn is started from the input while a turn is streaming,
    while the input is blank, or while the image tool is generating: a key
    pressed in the text area and a click on the button then leave the
    store, the record of what happened and the text typed as they are; the
    one thing they can do, and only while a turn is streaming, is to stop
    the stream. *)
Theorem busy_input_starts_no_turn :
  forall (e : ChatInput.KeyboardEvent) (s : ChatInput.State) (w : World),
    isStreaming (store w) = true \/
    ChatInput.hasContent s = false \/
    ChatInput.isGenerating s = true ->
    let quiet_or_stopped (w' : World) :=
      w' = w \/ (isStreaming (store w) = true /\ w' = snd (stopGeneration w)) in
    (exists prevented,
        fst (input_press decoder JSON_parse env e s w) = Resolve (s, prevented)) /\
    quiet_or_stopped (snd (input_press decoder JSON_parse env e s w)) /\
    fst (input_click decoder JSON_parse env s w) = Resolve s /\
    quiet_or_stopped (snd (input_click decoder JSON_parse env s w)) /\
    store (snd (stopGeneration w)) = store w /\
    trace (snd (stopGeneration w)) = trace w.
Proof.
  intros e s w H. cbv zeta.
  assert (Hstop : exists w1, stopGeneration w = (Resolve tt, w1) /\
                             store w1 = store w /\ trace w1 = trace w).
  { unfold stopGeneration. destruct (abortControllerRef w);
      eexists; repeat split. }
  destruct Hstop as (w1 & Es & Hst & Htr). rewrite Es. cbn [snd].
  unfold input_press, input_click, ChatInput.press, ChatInput.click,
    ChatInput.textarea_disabled, ChatInput.button_disabled,
    ChatInput.handleKeyDown, ChatInput.onClick, ChatInput.handleSubmit,
    ChatInput.hasContent in *.
  cbn [orb].
  destruct (isStreaming (store w)) eqn:Hs; cbn [negb andb].
  - (* a turn is streaming *)
    destruct (ChatInput.isGenerating s);
      [|destruct (strict_equal (ChatInput.key e) (JS.lit "Enter")
                  && negb (ChatInput.shiftKey e))];
      unfold bind, ret; rewrite ?Es; cbn [fst snd];
      repeat split; try (eexists; reflexivity); auto.
  - destruct H as [H | [H | H]]; [discriminate | |].
    + rewrite H. cbn [negb andb orb].
      destruct (ChatInput.isGenerating s);
        [|destruct (strict_equal (ChatInput.key e) (JS.lit "Enter")
                    && negb (ChatInput.shiftKey e))];
        unfold bind, ret; cbn [fst snd];
        repeat split; try (eexists; reflexivity); auto.
    + rewrite H. rewrite orb_true_r.
      unfold bind, ret; cbn [fst snd];
        repeat split; try (eexists; reflexivity); auto.
Qed.

End Input_facts.

Section Tools_facts.

Variable decoder : TextDecoder.
Variable JSON_parse : jsstring -> option StreamChunk.
Variable env : Env.

(** The first part of a turn, on any state of the store: the id it gives is
    the current id afterwards; the messages are kept or, when a conversation
    was created, emptied; and without a conversation the first thing done is
    to ask storage for one. *)
Lemma ensureConversation_any (ms : list Message) (str : bool) (cid : option Z)
    (cs : list Conversation) (b : bool) (ref : option AbortController)
    (tr : list Event) (ck : nat) :
  exists convId l0 ms1 cs1 b1,
    ensureConversation env (mkWorld (mkChatState ms str cid cs b) ref tr ck) =
    (Resolve convId,
     mkWorld (mkChatState ms1 str convId cs1 b1) ref (tr ++ l0) ck) /\
    calm str l0 /\
    (ms1 = ms \/ ms1 = []) /\
    (if truthy_id cid then l0 = [] else exists l, l0 = ApiCreate :: l).
Proof.
  unfold ensureConversation, createConversation, loadConversations, try_catch.
  pure. destruct (truthy_id cid); cbn [negb].
  - exists cid, [], ms, cs, b. rewrite app_nil_r.
    split; [reflexivity|]. split; [apply calm_nil|]. split; [left|]; reflexivity.
  - destruct (api_create env tr) as [conv|e]; pure.
    + destruct (api_list env _) as [cs'|e]; pure; tidy;
        eexists _, _, _, _, _; (split; [reflexivity|]);
        (split; [repeat split; cbn; repeat constructor|]);
        (split; [right; reflexivity | eexists; reflexivity]).
    + tidy. eexists _, _, _, _, _. split; [reflexivity|].
      split; [repeat split; cbn; repeat constructor|].
      split; [left; reflexivity | eexists; reflexivity].
Qed.


(** Without a conversation, the first thing a turn does is to ask storage
    for one. *)
Lemma turn_asks_first (c : jsstring) (w : World) :
  truthy_id (currentConversationId (store w)) = false ->
  exists l,
    trace (snd (sendMessage decoder JSON_parse env c w)) =
    trace w ++ ApiCreate :: l.
Proof.
  destruct w as [[ms str cid cs b] ref tr ck]. proj. intros Hid.
  destruct (ensureConversation_any ms str cid cs b ref tr ck)
    as (convId & l0 & ms1 & cs1 & b1 & E0 & _ & _ & Hfirst).
  rewrite Hid in Hfirst. destruct Hfirst as [l ->].
  unfold sendMessage. rewrite (bind_resolve _ _ _ _ _ E0). clear E0.
  destruct (isImageCommand c).
  - pose proof (imagePath_run env c ms1 str convId cs1 b1 ref
                  (tr ++ ApiCreate :: l) ck) as Hi.
    cbv zeta in Hi. destruct (JS.truthy (prompt_of c)).
    + destruct Hi as (h & o & l' & cs' & b' & ck' & _ & -> & _).
      proj. tidy. eexists. reflexivity.
    + rewrite Hi. proj. tidy. eexists. reflexivity.
  - destruct (textPath_run decoder JSON_parse env c convId ms1 str convId cs1 b1
                ref (tr ++ ApiCreate :: l) ck)
      as (h & l' & cs' & b' & ck' & -> & _).
    proj. tidy. eexists. reflexivity.
Qed.

(** X26.  New chat: the messages and the current conversation are
    forgotten, the list of conversations and the streaming flag are kept;
    the next turn starts by asking storage for a new conversation, and a
    regular turn then shows exactly its own two messages. *)
Theorem new_chat_then_turn :
  forall (c : jsstring) (w : World),
    let w1 := snd (handleNewChat w) in
    let w2 := snd (sendMessage decoder JSON_parse env c w1) in
    messages (store w1) = [] /\
    currentConversationId (store w1) = None /\
    conversations (store w1) = conversations (store w) /\
    isStreaming (store w1) = isStreaming (store w) /\
    (exists l, trace w2 = trace w1 ++ ApiCreate :: l) /\
    (isImageCommand c = false ->
     exists t r t',
       messages (store w2) = [user_message c t; assistant_message r None t']).
Proof.
  intros c [[ms str cid cs b] ref tr ck]. cbv zeta.
  unfold handleNewChat. pure. proj.
  do 4 (split; [reflexivity|]).
  split; [apply turn_asks_first; reflexivity|].
  intros Hc.
  match goal with
  | |- context [sendMessage decoder JSON_parse env c ?w1] =>
      destruct (text_turn decoder JSON_parse env c w1 Hc)
        as (h & w' & l & ms' & t & t' & E & Hm & _ & _ & _ & _ & _ & Hcase)
  end.
  rewrite E. cbn [snd]. cbv zeta in Hm. proj. cbn [truthy_id] in Hcase.
  assert (Hnil : ms' = []).
  { destruct (api_create env _); apply Hcase. }
  rewrite Hnil in Hm. eexists _, _, _. exact Hm.
Qed.

End Tools_facts.

(* ===================================================================== *)
(** * The image command without a prompt                                  *)
(* ===================================================================== *)



(** What the input hands over has no white space in front. *)
Lemma trim_has_no_space_in_front (v : jsstring) :
  JS.trimStart (JS.trim v) = JS.trim v.
Proof. unfold JS.trim. apply trimStart_trimEnd, trimStart_idem. Qed.

Section Empty_command.

Variable decoder : TextDecoder.
Variable JSON_parse : jsstring -> option StreamChunk.
Variable env : Env.



End Empty_command.

(* ===================================================================== *)
(** * The store over the storage client                                   *)
(* ===================================================================== *)

Section Client_over_http.

Variable server : Server.
Variable rest : Env.

(** X27.  A delete that the server did not confirm changes nothing: when
    the request fails or is answered with a status outside 200-299,
    [deleteConversation] still completes, the conversation stays current
    and shown if it was, the list of conversations is neither changed nor
    requested again, and one console line is written. *)
Theorem unconfirmed_delete_changes_nothing :
  forall (i : Z) (w : World),
    (match delete_conversation server (trace w) i with
     | Resolve response => http_ok response = false
     | Reject _ => True
     end) ->
    deleteConversation (over_http server rest) i w =
    (Resolve tt,
     mkWorld (store w) (abortControllerRef w)
       (trace w ++ [ApiDelete i;
                    ConsoleError (JS.lit "Failed to delete conversation:")])
       (clock w)).
Proof.
  intros i [st ref tr ck] H. proj.
  unfold deleteConversation, try_catch. pure.
  unfold over_http at 1. cbn [api_delete].
  unfold conversationsApi_delete, unless_failed.
  destruct (delete_conversation server tr i) as [response|e].
  - rewrite H. cbn [negb]. tidy. reflexivity.
  - tidy. reflexivity.
Qed.

(** X28.  Creating a conversation over the client: the server is asked for
    a conversation with the title ['New Chat']; the result is the id of the
    conversation the server answers with; a status outside 200-299 makes the
    creation fail with the message of the client, whatever the body
    holds. *)
Theorem conversation_is_created_as_new_chat :
  forall (w : World) (response : Http Conversation),
    post_conversations server (trace w) (JS.lit "New Chat") = Resolve response ->
    fst (createConversation (over_http server rest) w) =
      (if http_ok response then
         match http_json response with
         | Resolve conversation => Resolve (conv_id conversation)
         | Reject e => Reject e
         end
       else Reject (Error (JS.lit "Failed to create conversation"))) /\
    (http_ok response = false \/ (exists e, http_json response = Reject e) ->
     store (snd (createConversation (over_http server rest) w)) = store w).
Proof.
  intros w response H.
  pose proof (createConversation_run (over_http server rest) w) as Hr.
  unfold over_http at 1 in Hr. cbn [api_create] in Hr.
  unfold conversationsApi_create, json_unless_failed, title_or_default in Hr.
  rewrite H in Hr.
  destruct (http_ok response); cbn [negb] in Hr.
  - destruct (http_json response) as [conv|e].
    + destruct Hr as (l & cs & -> & _). split; [reflexivity|].
      intros [Hf | [e He]]; discriminate.
    + rewrite Hr. split; [reflexivity|]. intros _. reflexivity.
  - rewrite Hr. split; [reflexivity|]. intros _. reflexivity.
Qed.

End Client_over_http.

(* ===================================================================== *)
(** * The interface state and the message list                            *)
(* ===================================================================== *)

(** X29.  The actions of the interface store.  [toggleSidebar] negates the
    sidebar flag and [setSidebarOpen] sets it, and neither changes the
    theme; [toggleTheme] changes the theme and does not change the sidebar
    flag; hence each toggle is its own inverse and the two commute. *)
Theorem ui_toggles :
  forall (state : UIStore.UIState) (open : bool),
    UIStore.isSidebarOpen (UIStore.toggleSidebar state) =
      negb (UIStore.isSidebarOpen state) /\
    UIStore.theme (UIStore.toggleSidebar state) = UIStore.theme state /\
    UIStore.isSidebarOpen (UIStore.setSidebarOpen open state) = open /\
    UIStore.theme (UIStore.setSidebarOpen open state) = UIStore.theme state /\
    UIStore.isSidebarOpen (UIStore.toggleTheme state) =
      UIStore.isSidebarOpen state /\
    UIStore.theme (UIStore.toggleTheme state) <> UIStore.theme state /\
    UIStore.toggleTheme (UIStore.toggleTheme state) = state /\
    UIStore.toggleSidebar (UIStore.toggleSidebar state) = state /\
    UIStore.toggleTheme (UIStore.toggleSidebar state) =
      UIStore.toggleSidebar (UIStore.toggleTheme state).
Proof.
  intros [[] []] open; repeat split; discriminate.
Qed.

Lemma flags_from (b : bool) (m' : Message) (ms : list Message) :
  forall (a k : nat),
    k = (a + List.length ms)%nat ->
    map (fun im : nat * Message =>
           b && Nat.eqb (fst im) k
           && match role (snd im) with assistant => true | _ => false end)
      (combine (seq a (List.length (ms ++ [m']))) (ms ++ [m'])) =
    repeat false (List.length ms) ++
    [b && match role m' with assistant => true | _ => false end].
Proof.
  induction ms as [|x ms IH]; intros a k Hk.
  - cbn [List.length app seq combine map repeat fst snd].
    rewrite Nat.add_0_r in Hk. subst k.
    rewrite Nat.eqb_refl, andb_true_r. reflexivity.
  - cbn [List.length app seq combine map repeat fst snd].
    assert (Hne : Nat.eqb a k = false) by (apply Nat.eqb_neq; cbn in Hk; lia).
    rewrite Hne, andb_false_r. cbn [andb]. f_equal.
    apply IH. cbn in Hk. lia.
Qed.

(** X30.  At most one message is drawn as being streamed: every message
    but the last is drawn as finished, and the last one is drawn as being
    streamed exactly when the streaming flag is on and it is an assistant
    message. *)
Theorem one_message_is_drawn_streaming :
  forall (state : ChatState) (ms : list Message) (m : Message),
    messages state = ms ++ [m] ->
    streaming_flags state =
      repeat false (List.length ms) ++
      [isStreaming state && match role m with assistant => true | _ => false end].
Proof.
  intros state ms m H. unfold streaming_flags, drawn_streaming. rewrite H.
  apply flags_from.
  rewrite length_app. cbn [List.length]. lia.
Qed.

(* ===================================================================== *)
(** * These properties on concrete runs                                   *)
(* ===================================================================== *)

Lemma unterminated_tail_is_lost_witness :
  yields (fst (streamChat_body Utf8.decoder Wire.parse Cases.cut_short)) =
    [Scenario.hel] /\
  yields (fst (streamChat_body Utf8.decoder Wire.parse Cases.cut_short)) =
    yields (fst (streamChat_body Utf8.decoder Wire.parse Cases.just_hel)) /\
  logged (fst (streamChat_body Utf8.decoder Wire.parse Cases.cut_short)) =
    logged (fst (streamChat_body Utf8.decoder Wire.parse Cases.just_hel)) /\
  (ending Cases.cut_short = ending Cases.just_hel ->
   snd (streamChat_body Utf8.decoder Wire.parse Cases.cut_short) =
     snd (streamChat_body Utf8.decoder Wire.parse Cases.just_hel)).
Proof.
  split; [vm_compute; reflexivity|].
  apply (unterminated_tail_is_lost Utf8.decoder Wire.parse
           Cases.just_hel Cases.cut_short Cases.unterminated).
  - vm_compute. reflexivity.
  - vm_compute. reflexivity.
Defined.

Lemma non_event_fragment_is_skipped_witness :
  let pre := [data_prefix ++ Wire.stringify Scenario.hel] in
  let post := [Cases.no_space; data_prefix ++ Wire.stringify Scenario.fin] in
  let t := fst (streamChat_body Utf8.decoder Wire.parse Cases.with_comment) in
  JS.startsWith Cases.comment data_prefix = false /\
  yields t = upto_done (parsed Wire.parse (pre ++ post)) /\
  logged t = dropped Wire.parse (pre ++ post) /\
  snd (streamChat_body Utf8.decoder Wire.parse Cases.with_comment) =
    (if has_done (parsed Wire.parse (pre ++ post)) then Return
     else match ending Cases.with_comment with
          | ReadDone => Return
          | ReadReject x => Throw x
          end).
Proof.
  cbv zeta. split; [reflexivity|].
  apply (non_event_fragment_is_skipped Utf8.decoder Wire.parse
           Cases.with_comment
           [data_prefix ++ Wire.stringify Scenario.hel]
           [Cases.no_space; data_prefix ++ Wire.stringify Scenario.fin]
           Cases.comment).
  - vm_compute. reflexivity.
  - reflexivity.
Defined.

Lemma framing_round_trip_witness :
  let ps := [Wire.stringify Scenario.hel; Wire.stringify Scenario.lo;
             Wire.stringify Scenario.fin] in
  let t := fst (streamChat_body Utf8.decoder Wire.parse Scenario.hello) in
  forallb object_text ps = true /\
  forallb no_LF ps = true /\
  yields t = upto_done (events_of Wire.parse ps) /\
  logged t = map (fun p => data_prefix ++ p) (rejected Wire.parse ps) /\
  snd (streamChat_body Utf8.decoder Wire.parse Scenario.hello) =
    (if has_done (events_of Wire.parse ps) then Return
     else match ending Scenario.hello with
          | ReadDone => Return
          | ReadReject x => Throw x
          end).
Proof.
  cbv zeta. split; [vm_compute; reflexivity|].
  split; [vm_compute; reflexivity|].
  apply (framing_round_trip Utf8.decoder Wire.parse Scenario.hello
           [Wire.stringify Scenario.hel; Wire.stringify Scenario.lo;
            Wire.stringify Scenario.fin]).
  - vm_compute. reflexivity.
  - vm_compute. reflexivity.
  - vm_compute. reflexivity.
Defined.

Lemma createConversation_success_witness :
  exists w' l,
    createConversation Scenario.env Scenario.fresh =
      (Resolve (conv_id Scenario.conversation7), w') /\
    trace w' = trace Scenario.fresh ++ ApiCreate :: l ++ [StoreSet (store w')] /\
    In ApiList l /\
    Forall (fun st => messages st = messages (store Scenario.fresh) /\
                      currentConversationId st =
                        currentConversationId (store Scenario.fresh))
      (states l) /\
    persisted l = [] /\
    messages (store w') = [] /\
    currentConversationId (store w') = Some (conv_id Scenario.conversation7) /\
    isStreaming (store w') = isStreaming (store Scenario.fresh).
Proof.
  apply (createConversation_success Scenario.env Scenario.fresh
           Scenario.conversation7).
  reflexivity.
Defined.

Lemma deleteConversation_other_witness :
  let w := Scenario.in_conversation in
  let loading := put_isLoadingConversations true (store w) in
  exists w' l,
    deleteConversation Scenario.env 3 w = (Resolve tt, w') /\
    trace w' = trace w ++ ApiDelete 3 :: StoreSet loading :: ApiList :: l /\
    messages (store w') = messages (store w) /\
    currentConversationId (store w') = currentConversationId (store w) /\
    isStreaming (store w') = isStreaming (store w) /\
    (forall cs,
        api_list Scenario.env (trace w ++ [ApiDelete 3; StoreSet loading]) =
          Resolve cs ->
        conversations (store w') = cs).
Proof.
  apply (deleteConversation_other Scenario.env 3 Scenario.in_conversation).
  - discriminate.
  - reflexivity.
Defined.

Lemma saveMessage_outcome_witness :
  let m := user_message (JS.lit "hi") 0 in
  let w := Scenario.in_conversation in
  let sent := mkStoredMessage (role m) (content m) (image m) in
  exists w' l,
    saveMessage Scenario.env m w = (Resolve tt, w') /\
    trace w' = trace w ++ ApiAddMessage 7 sent :: l /\
    messages (store w') = messages (store w) /\
    currentConversationId (store w') = currentConversationId (store w) /\
    isStreaming (store w') = isStreaming (store w) /\
    match api_addMessage Scenario.env (trace w) 7 sent with
    | Resolve _ => In ApiList l /\ isLoadingConversations (store w') = false
    | Reject _ =>
        l = [ConsoleError (JS.lit "Failed to save message:")] /\
        store w' = store w
    end.
Proof.
  apply (saveMessage_outcome Scenario.env (user_message (JS.lit "hi") 0)
           Scenario.in_conversation 7).
  - reflexivity.
  - lia.
Defined.

Lemma id_zero_is_no_conversation_witness :
  saveMessage Scenario.env (user_message (JS.lit "hi") 0) Cases.at_zero =
    (Resolve tt, Cases.at_zero) /\
  exists l,
    trace (snd (ensureConversation Scenario.env Cases.at_zero)) =
    trace Cases.at_zero ++ ApiCreate :: l.
Proof.
  apply (id_zero_is_no_conversation Scenario.env
           (user_message (JS.lit "hi") 0) Cases.at_zero).
  reflexivity.
Defined.

Lemma stop_after_turn_is_noop_witness :
  let w' := snd (sendMessage Utf8.decoder Wire.parse Scenario.env (JS.lit "hi")
                   Scenario.fresh) in
  abortControllerRef w' = None /\
  stopGeneration w' = (Resolve tt, w').
Proof.
  apply (stop_after_turn_is_noop Utf8.decoder Wire.parse Scenario.env
           (JS.lit "hi") Scenario.fresh).
  reflexivity.
Defined.

Lemma stream_failure_shows_notice_witness :
  let env := Cases.env_with Cases.no_image (Scenario.streaming Cases.failing) in
  let evs := [Scenario.hel; mkStreamChunk [] false (Some (JS.lit "rate limit"))] in
  exists w' l ms t t',
    sendMessage Utf8.decoder Wire.parse env (JS.lit "hi") Scenario.fresh =
      (Resolve tt, w') /\
    messages (store w') =
      ms ++ [user_message (JS.lit "hi") t;
             assistant_message (text_of_events (taken evs) ++ error_notice)
               None t'] /\
    (ms = messages (store Scenario.fresh) \/ ms = []) /\
    isStreaming (store w') = false /\
    abortControllerRef w' = None /\
    trace w' = trace Scenario.fresh ++ l /\
    persisted l =
      saved_to (currentConversationId (store w')) (user_message (JS.lit "hi") t).
Proof.
  apply (stream_failure_shows_notice Utf8.decoder Wire.parse
           (Cases.env_with Cases.no_image (Scenario.streaming Cases.failing))
           (JS.lit "hi") Scenario.fresh
           [Scenario.hel; mkStreamChunk [] false (Some (JS.lit "rate limit"))]
           Return (Error (JS.lit "rate limit"))).
  - reflexivity.
  - intros h request. vm_compute. split; reflexivity.
  - reflexivity.
  - reflexivity.
Defined.

Lemma refused_stream_request_witness :
  let env := Cases.env_with Cases.no_image Cases.refusing in
  (forall h request,
      fst (generator Utf8.decoder Wire.parse env h request) = []) /\
  exists w' l ms t t',
    sendMessage Utf8.decoder Wire.parse env (JS.lit "hi") Scenario.fresh =
      (Resolve tt, w') /\
    messages (store w') =
      ms ++ [user_message (JS.lit "hi") t; assistant_message error_notice None t'] /\
    isStreaming (store w') = false /\
    trace w' = trace Scenario.fresh ++ l /\
    persisted l =
      saved_to (currentConversationId (store w')) (user_message (JS.lit "hi") t).
Proof.
  apply (refused_stream_request Utf8.decoder Wire.parse
           (Cases.env_with Cases.no_image Cases.refusing)
           (JS.lit "hi") Scenario.fresh).
  - reflexivity.
  - reflexivity.
  - intros h request. eexists. split; [reflexivity | left; reflexivity].
Defined.

Lemma empty_answer_is_not_saved_witness :
  let env := Cases.env_with Cases.no_image (Scenario.streaming Cases.silent) in
  exists w' l ms t t',
    sendMessage Utf8.decoder Wire.parse env (JS.lit "hi") Scenario.fresh =
      (Resolve tt, w') /\
    messages (store w') =
      ms ++ [user_message (JS.lit "hi") t; assistant_message [] None t'] /\
    isStreaming (store w') = false /\
    trace w' = trace Scenario.fresh ++ l /\
    persisted l =
      saved_to (currentConversationId (store w')) (user_message (JS.lit "hi") t).
Proof.
  apply (empty_answer_is_not_saved Utf8.decoder Wire.parse
           (Cases.env_with Cases.no_image (Scenario.streaming Cases.silent))
           (JS.lit "hi") Scenario.fresh [Scenario.fin] Return).
  - reflexivity.
  - intros h request. vm_compute. split; reflexivity.
  - reflexivity.
  - reflexivity.
Defined.

Lemma turn_in_current_conversation_witness :
  let w := Cases.talking in
  exists w' l t r t',
    sendMessage Utf8.decoder Wire.parse Scenario.env (JS.lit "and now?") w =
      (Resolve tt, w') /\
    messages (store w') =
      messages (store w) ++
      [user_message (JS.lit "and now?") t; assistant_message r None t'] /\
    currentConversationId (store w') = Some 7 /\
    trace w' = trace w ++ l /\
    outbound l =
      [FetchStream (authorization Scenario.env)
         (mkChatRequest
            (map (fun m => (role m, content m)) (messages (store w))
             ++ [(user, JS.lit "and now?")])
            (JS.lit "llama-3.3-70b-versatile")
            (Some (JS.toString 7)))].
Proof.
  apply (turn_in_current_conversation Utf8.decoder Wire.parse Scenario.env
           (JS.lit "and now?") Cases.talking 7).
  - reflexivity.
  - reflexivity.
  - lia.
  - reflexivity.
Defined.

Lemma created_conversation_starts_empty_witness :
  exists w' l t r t' p,
    sendMessage Utf8.decoder Wire.parse Scenario.env (JS.lit "hi") Cases.unsaved =
      (Resolve tt, w') /\
    messages (store w') =
      [user_message (JS.lit "hi") t; assistant_message r None t'] /\
    currentConversationId (store w') = Some (conv_id Scenario.conversation7) /\
    trace w' = trace Cases.unsaved ++ l /\
    outbound l =
      [FetchStream (authorization Scenario.env)
         (mkChatRequest [(user, JS.lit "hi")] (JS.lit "llama-3.3-70b-versatile")
            (Some (JS.toString (conv_id Scenario.conversation7))))] /\
    persisted l =
      (conv_id Scenario.conversation7, mkStoredMessage user (JS.lit "hi") None)
      :: p.
Proof.
  apply (created_conversation_starts_empty Utf8.decoder Wire.parse Scenario.env
           (JS.lit "hi") Cases.unsaved Scenario.conversation7).
  - reflexivity.
  - reflexivity.
  - reflexivity.
  - discriminate.
  - reflexivity.
Defined.


Lemma image_generation_failure_witness :
  let env := Cases.env_with Cases.no_image Cases.refusing in
  let c := JS.lit "/imagine a cat" in
  exists w' l ms t t',
    sendMessage Utf8.decoder Wire.parse env c Scenario.fresh = (Resolve tt, w') /\
    messages (store w') =
      ms ++ [user_message c t; assistant_message generation_failed None t'] /\
    (ms = messages (store Scenario.fresh) \/ ms = []) /\
    isStreaming (store w') = false /\
    trace w' = trace Scenario.fresh ++ l /\
    persisted l = saved_to (currentConversationId (store w')) (user_message c t) /\
    outbound l = [FetchImage (authorization env) (prompt_of c)].
Proof.
  apply (image_generation_failure Utf8.decoder Wire.parse
           (Cases.env_with Cases.no_image Cases.refusing)
           (JS.lit "/imagine a cat") Scenario.fresh).
  - reflexivity.
  - reflexivity.
  - intros h. eexists. reflexivity.
Defined.

Lemma submitted_text_witness :
  let s := Cases.typed (JS.lit "  /Imagine ") in
  let w := Scenario.fresh in
  let c := JS.trim (ChatInput.value s) in
  c = JS.lit "/Imagine" /\
  ChatInput.handleSubmit (sendMessage Utf8.decoder Wire.parse Scenario.env)
    false s w =
    (Resolve (ChatInput.setValue [] s),
     snd (sendMessage Utf8.decoder Wire.parse Scenario.env c w)) /\
  JS.trim c = c /\
  c <> [] /\
  (isImageCommand c = true ->
   prompt_of c = JS.trim (skipn 8 c) /\
   (JS.trim (skipn 8 c) = [] ->
    exists w' l ms t,
      sendMessage Utf8.decoder Wire.parse Scenario.env c w = (Resolve tt, w') /\
      messages (store w') = ms ++ [assistant_message usage_warning None t] /\
      (ms = messages (store w) \/ ms = []) /\
      trace w' = trace w ++ l /\
      calm (isStreaming (store w)) l)).
Proof.
  cbv zeta. split; [reflexivity|].
  apply (submitted_text Utf8.decoder Wire.parse Scenario.env
           (Cases.typed (JS.lit "  /Imagine ")) Scenario.fresh).
  reflexivity.
Defined.

Lemma busy_input_starts_no_turn_witness :
  let e := Cases.enter in
  let s := Cases.typed (JS.lit "hello") in
  let w := Cases.streaming_turn in
  let quiet_or_stopped (w' : World) :=
    w' = w \/ (isStreaming (store w) = true /\ w' = snd (stopGeneration w)) in
  (exists prevented,
      fst (input_press Utf8.decoder Wire.parse Scenario.env e s w) =
        Resolve (s, prevented)) /\
  quiet_or_stopped (snd (input_press Utf8.decoder Wire.parse Scenario.env e s w)) /\
  fst (input_click Utf8.decoder Wire.parse Scenario.env s w) = Resolve s /\
  quiet_or_stopped (snd (input_click Utf8.decoder Wire.parse Scenario.env s w)) /\
  store (snd (stopGeneration w)) = store w /\
  trace (snd (stopGeneration w)) = trace w.
Proof.
  apply (busy_input_starts_no_turn Utf8.decoder Wire.parse Scenario.env
           Cases.enter (Cases.typed (JS.lit "hello")) Cases.streaming_turn).
  left. reflexivity.
Defined.

Lemma unconfirmed_delete_changes_nothing_witness :
  let w := Scenario.in_conversation in
  deleteConversation (over_http Cases.down Scenario.env) 7 w =
  (Resolve tt,
   mkWorld (store w) (abortControllerRef w)
     (trace w ++ [ApiDelete 7;
                  ConsoleError (JS.lit "Failed to delete conversation:")])
     (clock w)).
Proof.
  apply (unconfirmed_delete_changes_nothing Cases.down Scenario.env 7
           Scenario.in_conversation).
  reflexivity.
Defined.

Lemma conversation_is_created_as_new_chat_witness :
  let w := Scenario.fresh in
  fst (createConversation (over_http Cases.down Scenario.env) w) =
    Reject (Error (JS.lit "Failed to create conversation")) /\
  (false = false \/ (exists e, Reject (Error []) = @Reject Conversation e) ->
   store (snd (createConversation (over_http Cases.down Scenario.env) w)) = store w).
Proof.
  apply (conversation_is_created_as_new_chat Cases.down Scenario.env
           Scenario.fresh (mkHttp false (Reject (Error [])))).
  reflexivity.
Defined.

Lemma one_message_is_drawn_streaming_witness :
  streaming_flags (store Cases.streaming_turn) = [false; true].
Proof.
  apply (one_message_is_drawn_streaming (store Cases.streaming_turn)
           [mkMessage None user (JS.lit "hi") None None]
           (mkMessage None assistant (JS.lit "Hel") None None)).
  reflexivity.
Defined.


